(** * Webpack5CDNPlugin (src/index.ts): a shallow embedding

    The plugin hooks into a webpack 5 build.  After the assets are emitted it
    classifies them, rewrites and uploads them phase by phase (resources,
    styles, entry scripts, documents), remembers remote locations in a cache
    keyed by the md5 of the content, and serialises the name -> url map as a
    manifest.

    Conventions of the embedding:
    - a JavaScript string is a Rocq [string], read as the UTF-8 bytes of
      well-formed text; file names, fingerprints and urls are ASCII in practice;
    - a JavaScript [Map] is an insertion-ordered association list
      ([JSMap.t]), a [Set] of strings an insertion-ordered duplicate-free list
      ([JSSet.t]); the output directory is a finite map from files to
      contents, and [outputFile] says which file a name denotes;
    - what the plugin imports and does not define (md5, the collation of
      [localeCompare], [path.extname], the rewriters of ./utils, the
      decoding of a [Buffer], the file system's reading of a path) is a
      parameter, the class [Host];
    - the asynchronous part ([uploadFile] under [Promise.all]) is a state
      machine: every activation runs synchronously up to its next [await], and
      the environment decides which pending [await] settles next and how;
      what [uploadContent] answers is such a choice;
    - the trace of a cycle records the calls that leave the plugin
      ([uploadContent], [fs.writeFile], [fs.unlink]), the calls of the
      rewriters, and the points where a phase's [Promise.all] resumed.

    The hooks are embedded from [apply] to [done].  What [JSON.stringify]
    prints for a Number, which the done hook needs when the cache file it
    read held one, is a parameter of that hook. *)

From Stdlib Require Import ZArith Ascii String.
From stdpp Require Import base list strings pretty gmap sorting.

Local Open Scope Z_scope.
Set Warnings "-register-all,-level-tolerance".

(** ** JavaScript values as the plugin observes them *)

(** [VNum m e] is the decimal number [m * 10^e]; [VArr] and [VObj] keep the
    structure [JSON.parse] builds.  A function value behaves, for this
    program, like an object: truthy and not a string. *)
Inductive value : Type :=
  | VUndefined
  | VNull
  | VBool (b : bool)
  | VNum (mant exp10 : Z)
  | VStr (s : string)
  | VArr (items : list value)
  | VObj (fields : list (string * value)).

(** A decimal [m * 10^e] denotes the Number [0] exactly when its magnitude is
    at most [2^-1075], half of the least positive double (round to nearest,
    ties to even). *)
Definition rounds_to_zero (m e : Z) : bool :=
  if 0 <=? e then m =? 0
  else Z.abs m * 2 ^ 1075 <=? 10 ^ (- e).

(** [ToBoolean]. *)
Definition truthy (v : value) : bool :=
  match v with
  | VUndefined | VNull => false
  | VBool b => b
  | VNum m e => negb (rounds_to_zero m e)
  | VStr s => negb (bool_decide (s = ""))
  | VArr _ | VObj _ => true
  end.

(** [typeof v === 'string']. *)
Definition isString (v : value) : bool :=
  match v with VStr _ => true | _ => false end.

(** ** Strings *)

(** [String.prototype.endsWith]. *)
Definition endsWith (s suffix : string) : bool :=
  let n := String.length s in
  let k := String.length suffix in
  (k <=? n)%nat && String.eqb (String.substring (n - k) k s) suffix.

(** ** [Map] and [Set]: insertion-ordered containers *)

Module JSMap.
Abbreviation t V := (list (string * V)).

Definition empty {V} : t V := [].

Fixpoint get {V} (k : string) (m : t V) : option V :=
  match m with
  | [] => None
  | (k', v) :: m' => if decide (k = k') then Some v else get k m'
  end.

(** [Map.prototype.set]: an existing key keeps its position. *)
Fixpoint set {V} (k : string) (v : V) (m : t V) : t V :=
  match m with
  | [] => [(k, v)]
  | (k', v') :: m' =>
      if decide (k = k') then (k, v) :: m' else (k', v') :: set k v m'
  end.

Definition keys {V} (m : t V) : list string := m.*1.

(** [Map.prototype.get] on a map of values: [undefined] for a missing key. *)
Definition lookup (k : string) (m : t value) : value :=
  default VUndefined (get k m).

(** [new Map(entries)]. *)
Definition of_entries {V} (l : list (string * V)) : t V :=
  foldl (fun m kv => set kv.1 kv.2 m) empty l.
End JSMap.

Module JSSet.
Abbreviation t := (list string).

Definition empty : t := [].

Definition has (x : string) (s : t) : bool := bool_decide (x ∈ s).

(** [Set.prototype.add]: a member is not added twice. *)
Definition add (x : string) (s : t) : t :=
  if has x s then s else s ++ [x].
End JSSet.

(** ** Asset classification (afterEmit, lines 159-179) *)

(** What the plugin reads of [compilation.getStats().toJson()]: the entry
    points with the names of their assets, in the order [Object.keys]
    enumerates them, and the names of all assets. *)
Record stats : Type := {
  entrypoints : list (string * list string);
  assets : list string;
}.

Record classes : Type := {
  epNames : JSSet.t;
  styleNames : JSSet.t;
  htmlNames : JSSet.t;
  resourceNames : JSSet.t;
}.

(** The first loop: every asset of every entry point goes to [epNames]. *)
Definition collectEntries (eps : list (string * list string)) : JSSet.t :=
  foldl (fun s ep => foldl (fun s name => JSSet.add name s) s ep.2)
        JSSet.empty eps.

(** The body of the second loop, for one asset name. *)
Definition classifyOne (c : classes) (name : string) : classes :=
  if JSSet.has name (epNames c) then c
  else if endsWith name ".css" then
    {| epNames := epNames c; styleNames := JSSet.add name (styleNames c);
       htmlNames := htmlNames c; resourceNames := resourceNames c |}
  else if endsWith name ".html" then
    {| epNames := epNames c; styleNames := styleNames c;
       htmlNames := JSSet.add name (htmlNames c);
       resourceNames := resourceNames c |}
  else
    {| epNames := epNames c; styleNames := styleNames c;
       htmlNames := htmlNames c;
       resourceNames := JSSet.add name (resourceNames c) |}.

Definition classify (st : stats) : classes :=
  foldl classifyOne
        {| epNames := collectEntries (entrypoints st);
           styleNames := JSSet.empty; htmlNames := JSSet.empty;
           resourceNames := JSSet.empty |}
        (filter (fun name => endsWith name ".map" = false) (assets st)).

(** ** Objects and [JSON.stringify] *)

(** An array index is a canonical decimal string below [2^32 - 1]; own
    properties with such keys are enumerated first, in numeric order. *)
Definition digitValue (c : ascii) : option N :=
  let n := N_of_ascii c in
  if (48 <=? n)%N && (n <=? 57)%N then Some (n - 48)%N else None.

Fixpoint decimalValue (acc : N) (s : string) : option N :=
  match s with
  | EmptyString => Some acc
  | String c s' =>
      match digitValue c with
      | Some d => decimalValue (10 * acc + d)%N s'
      | None => None
      end
  end.

Definition arrayIndex (k : string) : option N :=
  match k with
  | EmptyString => None
  | String c rest =>
      if Ascii.eqb c "0" && negb (String.eqb rest "") then None
      else match decimalValue 0 k with
           | Some n => if (n <? 2 ^ 32 - 1)%N then Some n else None
           | None => None
           end
  end.

Definition isArrayIndex (k : string) : bool :=
  match arrayIndex k with Some _ => true | None => false end.

(** [Array.prototype.sort(comparefn)]: a stable sort, here by insertion;
    [comparefn] answers with a negative, zero or positive number.  (For a
    comparison that is not consistent the order is left to the engine.) *)
Fixpoint sortInsert {A} (cmp : A -> A -> Z) (x : A) (l : list A) : list A :=
  match l with
  | [] => [x]
  | y :: l' => if cmp x y <=? 0 then x :: l else y :: sortInsert cmp x l'
  end.

Definition Array_sort {A} (cmp : A -> A -> Z) (l : list A) : list A :=
  foldr (sortInsert cmp) [] l.

(** An ordinary object is its properties in creation order;
    [Object.fromEntries] defines them one by one. *)
Definition Object_fromEntries {V} (l : list (string * V)) : JSMap.t V :=
  JSMap.of_entries l.

Definition indexOf {V} (kv : string * V) : Z :=
  match arrayIndex kv.1 with Some n => Z.of_N n | None => 0 end.

(** [Object.entries] and [JSON.stringify] enumerate own properties in the
    order of OrdinaryOwnPropertyKeys: array indices ascending, then the other
    keys in creation order. *)
Definition ownProperties {V} (o : JSMap.t V) : list (string * V) :=
  Array_sort (fun a b => indexOf a - indexOf b)
             (filter (fun kv => isArrayIndex kv.1 = true) o)
  ++ filter (fun kv => isArrayIndex kv.1 = false) o.

Definition dquote : ascii := "034".
Definition newline : ascii := "010".

Definition hexDigit (n : N) : ascii :=
  if (n <? 10)%N then ascii_of_N (48 + n) else ascii_of_N (87 + n).

(** QuoteJSONString, one character: the two-character escapes, [\u00xx] for
    the other control characters, the character itself otherwise. *)
Definition escapeChar (c : ascii) : string :=
  let n := N_of_ascii c in
  if (n =? 8)%N then "\b"
  else if (n =? 9)%N then "\t"
  else if (n =? 10)%N then "\n"
  else if (n =? 12)%N then "\f"
  else if (n =? 13)%N then "\r"
  else if (n =? 34)%N then String "\" (String dquote "")
  else if (n =? 92)%N then "\\"
  else if (n <? 32)%N then
    "\u00" +:+ String (hexDigit (n / 16)) (String (hexDigit (n mod 16)) "")
  else String c "".

Fixpoint escapeString (s : string) : string :=
  match s with
  | EmptyString => ""
  | String c s' => escapeChar c +:+ escapeString s'
  end.

Definition QuoteJSONString (s : string) : string :=
  String dquote (escapeString s +:+ String dquote "").

Fixpoint join (sep : string) (l : list string) : string :=
  match l with
  | [] => ""
  | [x] => x
  | x :: l' => x +:+ sep +:+ join sep l'
  end.

Definition member (gap : bool) (kv : string * string) : string :=
  QuoteJSONString kv.1 +:+ (if gap then ": " else ":")
  +:+ QuoteJSONString kv.2.

(** SerializeJSONObject for the properties of an object whose values are
    strings, without a gap or with the gap of two spaces. *)
Definition SerializeJSONObject (props : list (string * string)) (gap : bool)
  : string :=
  match props with
  | [] => "{}"
  | _ =>
      if gap then
        let sep := "," +:+ String newline "  " in
        "{" +:+ String newline "  " +:+ join sep (member true <$> props)
        +:+ String newline "}"
      else "{" +:+ join "," (member false <$> props) +:+ "}"
  end.

(** [JSON.stringify(o, null, gap ? 2 : undefined)]. *)
Definition JSON_stringify (o : JSMap.t string) (gap : bool) : string :=
  SerializeJSONObject (ownProperties o) gap.

(** ** The collaborators *)

(** The content of an asset: text, or the bytes of a [Buffer]. *)
Inductive content : Type :=
  | Text (s : string)
  | Buffer (bytes : string).

(** What the plugin imports and does not define: the [md5] package, the
    collation behind [String.prototype.localeCompare], [path.extname], the
    four rewriters of ./utils, [Buffer.prototype.toString] (the bytes decoded
    as UTF-8, with U+FFFD in the place of what is ill-formed), and the file
    system: [outputFile name] is the file that the path
    [stats.outputPath + '/' + name] denotes, and two names can denote one
    file.  [uploadContent] is not here: what it answers is the environment's
    choice (see [outcome]). *)
Class Host : Type := {
  md5 : content -> string;
  localeCompare : string -> string -> Z;
  path_extname : string -> string;
  replacePublicPath : string -> string;
  replaceCSSUrls : string -> content -> JSMap.t string -> string;
  injectAssetManifest : content -> string -> string;
  interpolateHTMLAssets : content -> JSMap.t string -> string -> string;
  Buffer_toString : string -> string;
  outputFile : string -> string;
}.

(** [getManifestJSON] (lines 104-113). *)
Definition getManifestJSON `{Host} (urlMap : JSMap.t string) (format : bool)
  : string :=
  JSON_stringify
    (Object_fromEntries
       (Array_sort (fun a b => localeCompare a.1 b.1) urlMap))
    format.

(** ** The publish cycle (afterEmit, lines 100-229) *)

Inductive manifestOption : Type :=
  | MfUnset
  | MfFlag (b : bool)
  | MfName (name : string).

(** The plugin's options; [uploadContent] is the environment. *)
Record options : Type := {
  keepLocalFiles : option bool;
  manifestFilename : manifestOption;
}.

Inductive error : Type :=
  | PublicPathError   (* the string thrown at line 64 *)
  | SyntaxError       (* JSON.parse *)
  | TypeError         (* Object.entries(null) *)
  | MissingContent    (* an asset name without content in assetMap *)
  | HostError (reason : string).  (* a rejection of fs or of uploadContent *)

Inductive phase : Type :=
  | PResource | PStyle | PEntry | PDocument | PManifest.

(** What the cycle does to the outside, in order, together with the calls of
    the rewriters and the points where a phase's [Promise.all] resumed. *)
Inductive event : Type :=
  | EUpload (file : string) (c : content) (extname : string)
  | EWriteFile (name : string) (c : content)
  | EUnlink (name : string)
  | EReplaceCSS (name : string) (urls : JSMap.t string)
  | EInject (name : string) (manifest : string)
  | EInterpolate (name : string) (urls : JSMap.t string) (manifest : string)
  | EBarrier (p : phase) (urls : JSMap.t string).

Record world : Type := {
  urlMap : JSMap.t string;
  urlCacheMap : JSMap.t value;
  files : gmap string content;
  trace : list event;
}.

Definition emit (e : event) (w : world) : world :=
  {| urlMap := urlMap w; urlCacheMap := urlCacheMap w; files := files w;
     trace := trace w ++ [e] |}.

Definition setFiles (f : gmap string content) (w : world) : world :=
  {| urlMap := urlMap w; urlCacheMap := urlCacheMap w; files := f;
     trace := trace w |}.

Definition setMaps (u : JSMap.t string) (c : JSMap.t value) (w : world)
  : world :=
  {| urlMap := u; urlCacheMap := c; files := files w; trace := trace w |}.

(** An activation between two of its [await]s. *)
Inductive pending : Type :=
  | AwaitOverwrite (name : string) (c : content)   (* uploadFile, line 140 *)
  | AwaitUpload (name : string) (c : content)      (* uploadFile, line 145 *)
  | AwaitUnlink (name : string)                    (* uploadFile, line 154 *)
  | AwaitDocument (name : string) (c : content)    (* overwrite, line 212 *)
  | AwaitManifest (name : string) (c : content)    (* overwrite, line 224 *)
  | Fulfilled
  | Rejected (e : error).

(** How the environment settles a pending [await]: the value a promise
    resolves with (ignored for fs callbacks), or a rejection. *)
Inductive outcome : Type :=
  | Resolve (v : value)
  | Reject (e : error).

Inductive status : Type :=
  | Running
  | Failed (e : error)
  | Completed.

Definition tasks : Type := list (string * pending).

Record config : Type := {
  cworld : world;
  cphase : phase;
  cqueue : list phase;
  ctasks : tasks;
  cstatus : status;
}.

Definition isFulfilled (p : pending) : bool :=
  match p with Fulfilled => true | _ => false end.

Definition rejection (p : pending) : option error :=
  match p with Rejected e => Some e | _ => None end.

Fixpoint firstRejection (ts : tasks) : option error :=
  match ts with
  | [] => None
  | (_, p) :: ts' =>
      match rejection p with
      | Some e => Some e
      | None => firstRejection ts'
      end
  end.

Section AfterEmit.
Context `{Host}.
Variable opts : options.
Variable assetMap : gmap string content.
Variable cls : classes.

(** [keepLocalFiles = true] by default. *)
Definition keepLocal : bool := default true (keepLocalFiles opts).

(** Lines 150-156: what [uploadFile] does once it has [url]. *)
Definition uploadFile_record (name : string) (c : content) (url : value)
    (w : world) : pending * world :=
  match url with
  | VStr u =>
      if truthy url && isString url then
        let w1 := setMaps (JSMap.set name u (urlMap w))
                          (JSMap.set (md5 c) (VStr u) (urlCacheMap w)) w in
        if keepLocal then (Fulfilled, w1)
        else (AwaitUnlink name, emit (EUnlink name) w1)
      else (Fulfilled, w)
  | _ => (Fulfilled, w)
  end.

(** Lines 142-149: the cache is consulted, and [uploadContent] called only
    when the cached value is falsy or absent. *)
Definition uploadFile_lookup (name : string) (c : content) (w : world)
    : pending * world :=
  let cacheUrl := JSMap.lookup (md5 c) (urlCacheMap w) in
  if truthy cacheUrl then uploadFile_record name c cacheUrl w
  else (AwaitUpload name c, emit (EUpload name c (path_extname name)) w).

(** [uploadFile], from its call to its first [await]. *)
Definition uploadFile (name : string) (c : content) (shouldOverwrite : bool)
    (w : world) : pending * world :=
  if shouldOverwrite then (AwaitOverwrite name c, emit (EWriteFile name c) w)
  else uploadFile_lookup name c w.

(** An activation resumes when its [await] settles.  [overwrite] and
    [unlink] reject on an fs error, and the file that the path
    [stats.outputPath + '/' + name] denotes has changed when the callback
    reports none; a rejected [await] rejects the activation. *)
Definition resume (p : pending) (o : outcome) (w : world) : pending * world :=
  match p, o with
  | AwaitOverwrite name c, Resolve _ =>
      uploadFile_lookup name c
        (setFiles (<[outputFile name := c]> (files w)) w)
  | AwaitUpload name c, Resolve url => uploadFile_record name c url w
  | AwaitUnlink name, Resolve _ =>
      (Fulfilled, setFiles (delete (outputFile name) (files w)) w)
  | AwaitDocument name c, Resolve _
  | AwaitManifest name c, Resolve _ =>
      (Fulfilled, setFiles (<[outputFile name := c]> (files w)) w)
  | (Fulfilled | Rejected _), _ => (p, w)
  | _, Reject e => (Rejected e, w)
  end.

(** One element of a phase's [Array.from(names).map(...)].  An asset name
    without content reaches md5 and the rewriters as [undefined]; the
    activation is taken to reject. *)
Definition launchOne (p : phase) (acc : tasks * world) (name : string)
    : tasks * world :=
  let '(ts, w) := acc in
  match assetMap !! name with
  | None => (ts ++ [(name, Rejected MissingContent)], w)
  | Some c =>
      let '(t, w') :=
        match p with
        | PResource => uploadFile name c false w
        | PStyle =>
            uploadFile name (Text (replaceCSSUrls name c (urlMap w))) true
                       (emit (EReplaceCSS name (urlMap w)) w)
        | PEntry =>
            let m := getManifestJSON (urlMap w) false in
            uploadFile name (Text (injectAssetManifest c m)) true
                       (emit (EInject name m) w)
        | PDocument =>
            let m := getManifestJSON (urlMap w) false in
            let c' := Text (interpolateHTMLAssets c (urlMap w) m) in
            (AwaitDocument name c',
             emit (EWriteFile name c')
                  (emit (EInterpolate name (urlMap w) m) w))
        | PManifest => (Fulfilled, w)
        end in
      (ts ++ [(name, t)], w')
  end.

(** The synchronous start of a phase: every activation runs to its first
    [await] before the next one starts. *)
Definition launch (p : phase) (w : world) : tasks * world :=
  match p with
  | PResource => foldl (launchOne p) ([], w) (resourceNames cls)
  | PStyle => foldl (launchOne p) ([], w) (styleNames cls)
  | PEntry => foldl (launchOne p) ([], w) (epNames cls)
  | PDocument => foldl (launchOne p) ([], w) (htmlNames cls)
  | PManifest =>
      let c := Text (getManifestJSON (urlMap w) true) in
      match manifestFilename opts with
      | MfFlag true =>
          ([("manifest.json", AwaitManifest "manifest.json" c)],
           emit (EWriteFile "manifest.json" c) w)
      | MfName name =>
          if bool_decide (name = "") then ([], w)
          else ([(name, AwaitManifest name c)], emit (EWriteFile name c) w)
      | _ => ([], w)
      end
  end.

(** [await Promise.all(...)]: rejected by the first rejection, resumed when
    every activation is fulfilled; the next phase then starts at once. *)
Fixpoint settlePhase (queue : list phase) (p : phase) (ts : tasks)
    (w : world) : config :=
  match firstRejection ts with
  | Some e =>
      {| cworld := w; cphase := p; cqueue := queue; ctasks := ts;
         cstatus := Failed e |}
  | None =>
      if forallb (fun t => isFulfilled t.2) ts then
        let w1 := emit (EBarrier p (urlMap w)) w in
        match queue with
        | [] =>
            {| cworld := w1; cphase := p; cqueue := []; ctasks := ts;
               cstatus := Completed |}
        | p' :: queue' =>
            let '(ts', w2) := launch p' w1 in settlePhase queue' p' ts' w2
        end
      else
        {| cworld := w; cphase := p; cqueue := queue; ctasks := ts;
           cstatus := Running |}
  end.

(** The hook, up to the first point where it waits for the environment. *)
Definition afterEmit (w : world) : config :=
  let '(ts, w') := launch PResource w in
  settlePhase [PStyle; PEntry; PDocument; PManifest] PResource ts w'.

(** The activation called [name] resumes with [o]. *)
Fixpoint resumeTask (name : string) (o : outcome) (ts : tasks) (w : world)
    : tasks * world :=
  match ts with
  | [] => ([], w)
  | (n, p) :: ts' =>
      if decide (n = name) then
        let '(p', w') := resume p o w in ((n, p') :: ts', w')
      else
        let '(ts'', w') := resumeTask name o ts' w in ((n, p) :: ts'', w')
  end.

(** One turn of the event loop.  After the hook has failed its remaining
    activations still run; they start no further phase. *)
Definition step (c : config) (ch : string * outcome) : config :=
  let '(ts, w) := resumeTask ch.1 ch.2 (ctasks c) (cworld c) in
  match cstatus c with
  | Running => settlePhase (cqueue c) (cphase c) ts w
  | st =>
      {| cworld := w; cphase := cphase c; cqueue := cqueue c; ctasks := ts;
         cstatus := st |}
  end.

(** A schedule is the environment's sequence of choices. *)
Definition run (sched : list (string * outcome)) (c : config) : config :=
  foldl step c sched.

End AfterEmit.

(** ** [JSON.parse] and [Object.entries] (the initialize hook's reading) *)

Definition isWhitespace (c : ascii) : bool :=
  let n := N_of_ascii c in
  (n =? 9)%N || (n =? 10)%N || (n =? 13)%N || (n =? 32)%N.

Fixpoint skipWs (s : string) : string :=
  match s with
  | String c r => if isWhitespace c then skipWs r else s
  | EmptyString => s
  end.

Definition hexValue (c : ascii) : option N :=
  let n := N_of_ascii c in
  if (48 <=? n)%N && (n <=? 57)%N then Some (n - 48)%N
  else if (65 <=? n)%N && (n <=? 70)%N then Some (n - 55)%N
  else if (97 <=? n)%N && (n <=? 102)%N then Some (n - 87)%N
  else None.

Definition hex4 (a b c d : ascii) : option N :=
  match hexValue a, hexValue b, hexValue c, hexValue d with
  | Some x, Some y, Some z, Some w =>
      Some (((x * 16 + y) * 16 + z) * 16 + w)%N
  | _, _, _, _ => None
  end.

Definition byte (n : N) : ascii := ascii_of_N (n mod 256).

(** The bytes of a code point; a lone surrogate gets the three-byte form. *)
Definition utf8 (n : N) : string :=
  if (n <? 128)%N then String (byte n) ""
  else if (n <? 2048)%N then
    String (byte (192 + n / 64)) (String (byte (128 + n mod 64)) "")
  else if (n <? 65536)%N then
    String (byte (224 + n / 4096))
      (String (byte (128 + (n / 64) mod 64))
         (String (byte (128 + n mod 64)) ""))
  else
    String (byte (240 + n / 262144))
      (String (byte (128 + (n / 4096) mod 64))
         (String (byte (128 + (n / 64) mod 64))
            (String (byte (128 + n mod 64)) ""))).

Definition isHighSurrogate (u : N) : bool := (55296 <=? u)%N && (u <? 56320)%N.
Definition isLowSurrogate (u : N) : bool := (56320 <=? u)%N && (u <? 57344)%N.

Definition prepend (p : string) (r : option (string * string))
  : option (string * string) :=
  match r with
  | Some (s, rest) => Some (p +:+ s, rest)
  | None => None
  end.

(** The characters of a JSON string after its opening quote: the decoded
    string and what follows the closing quote. *)
Fixpoint parseChars (s : string) : option (string * string) :=
  match s with
  | EmptyString => None
  | String c r =>
      if Ascii.eqb c dquote then Some ("", r)
      else if Ascii.eqb c "\" then
        match r with
        | String e r1 =>
            if Ascii.eqb e dquote then prepend (String dquote "") (parseChars r1)
            else if Ascii.eqb e "\" then prepend "\" (parseChars r1)
            else if Ascii.eqb e "/" then prepend "/" (parseChars r1)
            else if Ascii.eqb e "b" then prepend (String "008" "") (parseChars r1)
            else if Ascii.eqb e "f" then prepend (String "012" "") (parseChars r1)
            else if Ascii.eqb e "n" then prepend (String "010" "") (parseChars r1)
            else if Ascii.eqb e "r" then prepend (String "013" "") (parseChars r1)
            else if Ascii.eqb e "t" then prepend (String "009" "") (parseChars r1)
            else if Ascii.eqb e "u" then
              match r1 with
              | String h1 (String h2 (String h3 (String h4 r2))) =>
                  match hex4 h1 h2 h3 h4 with
                  | None => None
                  | Some u =>
                      match r2 with
                      | String b (String v (String l1 (String l2
                          (String l3 (String l4 r3))))) =>
                          match hex4 l1 l2 l3 l4 with
                          | Some lo =>
                              if isHighSurrogate u && Ascii.eqb b "\"
                                 && Ascii.eqb v "u" && isLowSurrogate lo
                              then prepend
                                     (utf8 (65536 + (u - 55296) * 1024
                                            + (lo - 56320)))
                                     (parseChars r3)
                              else prepend (utf8 u) (parseChars r2)
                          | None => prepend (utf8 u) (parseChars r2)
                          end
                      | _ => prepend (utf8 u) (parseChars r2)
                      end
                  end
              | _ => None
              end
            else None
        | EmptyString => None
        end
      else if (N_of_ascii c <? 32)%N then None
      else prepend (String c "") (parseChars r)
  end.

(** A run of decimal digits: its value continuing [acc], how many, the rest. *)
Fixpoint digits (acc : Z) (n : Z) (s : string) : Z * Z * string :=
  match s with
  | String c r =>
      match digitValue c with
      | Some d => digits (10 * acc + Z.of_N d) (n + 1) r
      | None => (acc, n, s)
      end
  | EmptyString => (acc, n, s)
  end.

(** JSON numbers: [-? int frac? exp?], no leading zero in [int]. *)
Definition parseNumber (s : string) : option (value * string) :=
  let '(neg, s1) :=
    match s with
    | String c r => if Ascii.eqb c "-" then (true, r) else (false, s)
    | EmptyString => (false, s)
    end in
  let '(int, nint, s2) :=
    match s1 with
    | String c r => if Ascii.eqb c "0" then (0, 1, r) else digits 0 0 s1
    | EmptyString => (0, 0, s1)
    end in
  if nint =? 0 then None
  else
    let frac :=
      match s2 with
      | String c r =>
          if Ascii.eqb c "." then
            let '(m, n, s3) := digits int 0 r in
            if n =? 0 then None else Some (m, n, s3)
          else Some (int, 0, s2)
      | EmptyString => Some (int, 0, s2)
      end in
    match frac with
    | None => None
    | Some (mant, nfrac, s3) =>
        let signed := if neg then - mant else mant in
        match s3 with
        | String c r =>
            if Ascii.eqb c "e" || Ascii.eqb c "E" then
              let '(eneg, r1) :=
                match r with
                | String c' r' =>
                    if Ascii.eqb c' "-" then (true, r')
                    else if Ascii.eqb c' "+" then (false, r')
                    else (false, r)
                | EmptyString => (false, r)
                end in
              let '(e, n, s4) := digits 0 0 r1 in
              if n =? 0 then None
              else Some (VNum signed ((if eneg then - e else e) - nfrac), s4)
            else Some (VNum signed (- nfrac), s3)
        | EmptyString => Some (VNum signed (- nfrac), s3)
        end
    end.

Definition literal (word : string) (v : value) (s : string)
  : option (value * string) :=
  if String.prefix word s
  then Some (v, String.substring (String.length word)
                                 (String.length s - String.length word) s)
  else None.

(** The elements of an array after [[], one per turn; [pv] parses a value
    and [n] bounds the turns by the length of the text. *)
Fixpoint parseItems (pv : string -> option (value * string)) (n : nat)
    (acc : list value) (s : string) : option (value * string) :=
  match n with
  | O => None
  | S n' =>
      match pv s with
      | Some (v, r) =>
          match skipWs r with
          | String c r' =>
              if Ascii.eqb c "," then parseItems pv n' (acc ++ [v]) (skipWs r')
              else if Ascii.eqb c "]" then Some (VArr (acc ++ [v]), r')
              else None
          | EmptyString => None
          end
      | None => None
      end
  end.

(** The members of an object after [{]; a repeated key keeps its first
    position and takes the last value. *)
Fixpoint parseMembers (pv : string -> option (value * string)) (n : nat)
    (acc : JSMap.t value) (s : string) : option (value * string) :=
  match n with
  | O => None
  | S n' =>
      match s with
      | String q r0 =>
          if Ascii.eqb q dquote then
            match parseChars r0 with
            | Some (k, r1) =>
                match skipWs r1 with
                | String c r2 =>
                    if Ascii.eqb c ":" then
                      match pv (skipWs r2) with
                      | Some (v, r3) =>
                          match skipWs r3 with
                          | String d r4 =>
                              if Ascii.eqb d "," then
                                parseMembers pv n' (JSMap.set k v acc)
                                             (skipWs r4)
                              else if Ascii.eqb d "}" then
                                Some (VObj (JSMap.set k v acc), r4)
                              else None
                          | EmptyString => None
                          end
                      | None => None
                      end
                    else None
                | EmptyString => None
                end
            | None => None
            end
          else None
      | EmptyString => None
      end
  end.

(** A JSON value at the head of [s]; [fuel] bounds the nesting. *)
Fixpoint parseValue (fuel : nat) (s : string) : option (value * string) :=
  match fuel with
  | O => None
  | S f =>
      match s with
      | String c r =>
          if Ascii.eqb c "{" then
            match skipWs r with
            | String d r' as r1 =>
                if Ascii.eqb d "}" then Some (VObj [], r')
                else parseMembers (parseValue f) (S (String.length r1)) [] r1
            | EmptyString => None
            end
          else if Ascii.eqb c "[" then
            match skipWs r with
            | String d r' as r1 =>
                if Ascii.eqb d "]" then Some (VArr [], r')
                else parseItems (parseValue f) (S (String.length r1)) [] r1
            | EmptyString => None
            end
          else if Ascii.eqb c dquote then
            match parseChars r with
            | Some (str, r') => Some (VStr str, r')
            | None => None
            end
          else if Ascii.eqb c "t" then literal "true" (VBool true) s
          else if Ascii.eqb c "f" then literal "false" (VBool false) s
          else if Ascii.eqb c "n" then literal "null" VNull s
          else parseNumber s
      | EmptyString => None
      end
  end.

(** [JSON.parse(text)]; [None] is its SyntaxError. *)
Definition JSON_parse (text : string) : option value :=
  match parseValue (S (String.length text)) (skipWs text) with
  | Some (v, r) =>
      match skipWs r with
      | EmptyString => Some v
      | String _ _ => None
      end
  | None => None
  end.

(** The UTF-16 code units of a string, each as a string of its own; a
    four-byte sequence is a pair of surrogates. *)
Fixpoint codeUnits (s : string) : list string :=
  match s with
  | EmptyString => []
  | String a r =>
      let n := N_of_ascii a in
      match r with
      | String b r1 =>
          if (192 <=? n)%N && (n <? 224)%N then
            String a (String b "") :: codeUnits r1
          else
            match r1 with
            | String c r2 =>
                if (224 <=? n)%N && (n <? 240)%N then
                  String a (String b (String c "")) :: codeUnits r2
                else
                  match r2 with
                  | String d r3 =>
                      if (240 <=? n)%N then
                        let cp := ((n - 240) * 262144
                                   + (N_of_ascii b - 128) * 4096
                                   + (N_of_ascii c - 128) * 64
                                   + (N_of_ascii d - 128) - 65536)%N in
                        utf8 (55296 + cp / 1024)
                        :: utf8 (56320 + cp mod 1024) :: codeUnits r3
                      else String a "" :: codeUnits r
                  | EmptyString => String a "" :: codeUnits r
                  end
            | EmptyString => String a "" :: codeUnits r
            end
      | EmptyString => [String a ""]
      end
  end.

(** [Object.entries(v)]; [None] is the TypeError for [null] and
    [undefined]. *)
Definition Object_entries (v : value) : option (list (string * value)) :=
  match v with
  | VUndefined | VNull => None
  | VBool _ | VNum _ _ => Some []
  | VStr s => Some (imap (fun i u => (pretty i, VStr u)) (codeUnits s))
  | VArr items => Some (imap (fun i x => (pretty i, x)) items)
  | VObj fields => Some (ownProperties fields)
  end.

(** ** The hooks (lines 30-98) *)

(** What the plugin's closure holds between hooks (lines 49-50), with the
    compilation's assets, which [updateAsset] changes. *)
Record plugin : Type := {
  pAssetMap : gmap string content;
  pCache : JSMap.t value;
  pAssets : list (string * content);
}.

(** One build, as the host presents it: the environment and the compiler
    options; what is at [cacheLocalPath] (nothing, a path that
    [fs.readFileSync] fails to read, or the text of the file); the assets of
    the compilation when the plugin's [processAssets] tap runs; what the
    stages of the compilation after that tap (minification, other plugins)
    make of the assets before they are emitted; and the stats. *)
Record build : Type := {
  NODE_ENV : option string;
  mode : option string;
  publicPath : value;
  cacheFile : option (error + string);
  compilationAssets : list (string * content);
  laterStages : list (string * content) -> list (string * content);
  buildStats : stats;
}.

(** Line 32: [(process.env.NODE_ENV || compiler.options.mode)
    === 'production']. *)
Definition isProduction (nodeEnv compilerMode : option string) : bool :=
  let chosen :=
    match nodeEnv with
    | Some v => if bool_decide (v = "") then compilerMode else Some v
    | None => compilerMode
    end in
  bool_decide (chosen = Some "production").

(** Lines 52-59: the cache file is read only when it exists; neither
    [fs.readFileSync] nor [JSON.parse] nor [Object.entries] is guarded. *)
Definition initializeHook (file : option (error + string)) (s : plugin)
  : error + plugin :=
  match file with
  | None => inr s
  | Some (inl e) => inl e
  | Some (inr text) =>
      match JSON_parse text with
      | None => inl SyntaxError
      | Some v =>
          match Object_entries v with
          | None => inl TypeError
          | Some entries =>
              inr {| pAssetMap := pAssetMap s;
                     pCache := JSMap.of_entries entries;
                     pAssets := pAssets s |}
          end
      end
  end.

(** Lines 60-66. *)
Definition thisCompilationHook (publicPath : value) (s : plugin)
  : error + plugin :=
  if truthy publicPath then inl PublicPathError else inr s.

(** [source.toString()]: a string is itself, a [Buffer] is decoded. *)
Definition toString `{Host} (c : content) : string :=
  match c with Text s => s | Buffer b => Buffer_toString b end.

(** Lines 68-87: every [.js] asset is replaced by its rewriting. *)
Definition processAssetsHook `{Host} (s : plugin) : error + plugin :=
  inr {| pAssetMap := pAssetMap s; pCache := pCache s;
         pAssets :=
           (fun '(filename, source) =>
              if endsWith filename ".js"
              then (filename, Text (replacePublicPath (toString source)))
              else (filename, source)) <$> pAssets s |}.

(** [/\.(js|css|html)$/.test(name)]. *)
Definition isText (name : string) : bool :=
  endsWith name ".js" || endsWith name ".css" || endsWith name ".html".

(** The stages of the compilation between the plugin's [processAssets] tap
    (at PROCESS_ASSETS_STAGE_OPTIMIZE) and the [emit] hook. *)
Definition hostStages
    (later : list (string * content) -> list (string * content))
    (s : plugin) : error + plugin :=
  inr {| pAssetMap := pAssetMap s; pCache := pCache s;
         pAssets := later (pAssets s) |}.

(** Lines 89-98. *)
Definition emitHook `{Host} (s : plugin) : error + plugin :=
  inr {| pAssetMap :=
           foldl (fun m '(name, source) =>
                    <[name := if isText name then Text (toString source)
                              else source]> m)
                 (pAssetMap s) (pAssets s);
         pCache := pCache s; pAssets := pAssets s |}.

(** Hooks run in order until one throws. *)
Fixpoint runHooks (hooks : list (plugin -> error + plugin)) (s : plugin)
  : option error * plugin :=
  match hooks with
  | [] => (None, s)
  | h :: hooks' =>
      match h s with
      | inl e => (Some e, s)
      | inr s' => runHooks hooks' s'
      end
  end.

Inductive buildResult : Type :=
  | Inactive                              (* apply returned at line 33 *)
  | Aborted (e : error) (s : plugin)      (* a hook threw *)
  | Publishing (s : plugin) (c : config). (* afterEmit is under way *)

(** A build, as far as the plugin takes part in it.  [apply] registers the
    hooks only in production mode (lines 30-34); the host, webpack, then fires
    them in its own order: initialize, thisCompilation, processAssets, emit,
    afterEmit (the lifecycle of the spec: Init, Validate, PreOptimizeRewrite,
    Collect, Publish); it runs its later stages between processAssets and
    emit, and writes the assets to the output directory between emit and
    afterEmit. *)
Definition startBuild `{Host} (opts : options) (b : build) : buildResult :=
  if isProduction (NODE_ENV b) (mode b) then
    let s0 := {| pAssetMap := ∅; pCache := JSMap.empty;
                 pAssets := compilationAssets b |} in
    match runHooks [initializeHook (cacheFile b);
                    thisCompilationHook (publicPath b);
                    processAssetsHook; hostStages (laterStages b);
                    emitHook] s0 with
    | (Some e, s) => Aborted e s
    | (None, s) =>
        Publishing s
          (afterEmit opts (pAssetMap s) (classify (buildStats b))
             {| urlMap := JSMap.empty; urlCacheMap := pCache s;
                files := list_to_map (prod_map outputFile id <$> pAssets s);
                trace := [] |})
    end
  else Inactive.

(** ** A stand-in host, for closed examples

    md5 is replaced by an injective tag, the collation by the order of the
    character codes, and the rewriters by functions that keep their
    arguments visible; a [Buffer] is decoded to its bytes, and every name
    denotes a file of its own. *)
Definition bytesOf (c : content) : string :=
  match c with Text s => s | Buffer b => b end.

Definition exampleHost : Host := {|
  md5 := fun c => "md5:" +:+ bytesOf c;
  localeCompare := fun a b =>
    match String.compare a b with Lt => -1 | Eq => 0 | Gt => 1 end;
  path_extname := fun name =>
    if endsWith name ".png" then ".png" else "";
  replacePublicPath := fun s => s;
  replaceCSSUrls := fun _ c _ => bytesOf c;
  injectAssetManifest := fun c m => bytesOf c +:+ m;
  interpolateHTMLAssets := fun c _ m => bytesOf c +:+ m;
  Buffer_toString := fun b => b;
  outputFile := fun name => name;
|}.

(** A whole cycle: the hook, then the environment's schedule. *)
Definition cycle `{Host} (opts : options) (assetMap : gmap string content)
    (cls : classes) (sched : list (string * outcome)) (w : world) : config :=
  run opts assetMap cls sched (afterEmit opts assetMap cls w).

(** ** Example data *)

(** A build whose entry point lists a file named [main.js.map]. *)
Definition mapEntryStats : stats := {|
  entrypoints := [("main", ["main.js"; "main.js.map"])];
  assets := ["main.js"; "main.js.map"; "logo.png"];
|}.

Definition publicPathBuild : build := {|
  NODE_ENV := Some "production";
  mode := None;
  publicPath := VStr "/static/";
  cacheFile := None;
  compilationAssets := [("main.js", Text "console.log(1)")];
  laterStages := fun emitted => emitted;
  buildStats := {| entrypoints := [("main", ["main.js"])];
                   assets := ["main.js"] |};
|}.

Definition plainOptions : options :=
  {| keepLocalFiles := None; manifestFilename := MfUnset |}.

(** Two resources with the same bytes, and nothing cached. *)
Definition twinAssets : gmap string content :=
  list_to_map [("a.png", Buffer "PNG"); ("b.png", Buffer "PNG")].

Definition twinClasses : classes :=
  classify {| entrypoints := []; assets := ["a.png"; "b.png"] |}.

Definition twinWorld : world :=
  {| urlMap := JSMap.empty; urlCacheMap := JSMap.empty; files := twinAssets;
     trace := [] |}.

Definition twinCycle : config :=
  cycle (H := exampleHost) plainOptions twinAssets twinClasses
    [("a.png", Resolve (VStr "https://cdn/1.png"));
     ("b.png", Resolve (VStr "https://cdn/2.png"))]
    twinWorld.

(** A small site: a resource, a stylesheet, an entry script, a document and
    a source map, published with [keepLocalFiles: false] and a manifest. *)
Definition siteStats : stats := {|
  entrypoints := [("main", ["main.js"])];
  assets := ["logo.png"; "app.css"; "main.js"; "index.html"; "main.js.map"];
|}.

Definition siteAssets : gmap string content :=
  list_to_map [("logo.png", Buffer "PNG");
               ("app.css", Text "body{background:url(logo.png)}");
               ("main.js", Text "run()");
               ("index.html", Text "<html>");
               ("main.js.map", Text "{}")].

Definition siteOptions : options :=
  {| keepLocalFiles := Some false; manifestFilename := MfFlag true |}.

Definition siteWorld : world :=
  {| urlMap := JSMap.empty; urlCacheMap := JSMap.empty; files := siteAssets;
     trace := [] |}.

Definition siteSchedule : list (string * outcome) :=
  [("logo.png", Resolve (VStr "https://cdn/logo.png"));
   ("logo.png", Resolve VUndefined);
   ("app.css", Resolve VUndefined);
   ("app.css", Resolve (VStr "https://cdn/app.css"));
   ("app.css", Resolve VUndefined);
   ("main.js", Resolve VUndefined);
   ("main.js", Resolve (VStr "https://cdn/main.js"));
   ("main.js", Resolve VUndefined);
   ("index.html", Resolve VUndefined);
   ("manifest.json", Resolve VUndefined)].

Definition siteManifest : string :=
  getManifestJSON (H := exampleHost)
    [("logo.png", "https://cdn/logo.png"); ("app.css", "https://cdn/app.css")]
    false.

Definition siteCycle : config :=
  cycle (H := exampleHost) siteOptions siteAssets (classify siteStats)
    siteSchedule siteWorld.

(** A second build of a logo whose fingerprint the cache file knows. *)
Definition cachedBuild : build := {|
  NODE_ENV := None;
  mode := Some "production";
  publicPath := VStr "";
  cacheFile :=
    Some (inr ("{" +:+ QuoteJSONString "md5:PNG" +:+ ": "
               +:+ QuoteJSONString "https://cdn/logo.png" +:+ "}"));
  compilationAssets := [("logo.png", Buffer "PNG")];
  laterStages := fun emitted => emitted;
  buildStats := {| entrypoints := []; assets := ["logo.png"] |};
|}.

(** The same build under [NODE_ENV=development]. *)
Definition developmentBuild : build := {|
  NODE_ENV := Some "development";
  mode := Some "production";
  publicPath := VStr "";
  cacheFile := None;
  compilationAssets := [("logo.png", Buffer "PNG")];
  laterStages := fun emitted => emitted;
  buildStats := {| entrypoints := []; assets := ["logo.png"] |};
|}.

(** The same second build with [keepLocalFiles: false]. *)
Definition cleaningOptions : options :=
  {| keepLocalFiles := Some false; manifestFilename := MfUnset |}.

(** What [afterEmit] reached, when the build got that far. *)
Definition published_config (r : buildResult) : option config :=
  match r with Publishing _ c => Some c | _ => None end.

(** ** The vocabulary of the properties *)

(** How often [uploadContent] was called with content of fingerprint [fp]. *)
Fixpoint uploadCalls `{Host} (fp : string) (tr : list event) : nat :=
  match tr with
  | [] => 0
  | EUpload _ c _ :: tr' =>
      (if String.eqb (md5 c) fp then 1 else 0) + uploadCalls fp tr'
  | _ :: tr' => uploadCalls fp tr'
  end.

(** The properties of the object that [getManifestJSON] serialises, in the
    order they are written. *)
Definition manifestProperties `{Host} (urlMap : JSMap.t string)
  : list (string * string) :=
  ownProperties
    (Object_fromEntries
       (Array_sort (fun a b => localeCompare a.1 b.1) urlMap)).

(** Where a reader of a JSON text stands: outside a string literal, inside
    one, or just after a backslash inside one. *)
Inductive lexState : Type := Outside | Inside | Escaped.

(** Insignificant whitespace removed from a JSON text: outside string
    literals tab, line feed, carriage return and space are dropped. *)
Fixpoint minify (st : lexState) (s : string) : string :=
  match s with
  | EmptyString => ""
  | String c r =>
      match st with
      | Outside =>
          if Ascii.eqb c dquote then String c (minify Inside r)
          else if (N_of_ascii c =? 9)%N || (N_of_ascii c =? 10)%N
                  || (N_of_ascii c =? 13)%N || (N_of_ascii c =? 32)%N
               then minify Outside r
               else String c (minify Outside r)
      | Inside =>
          if Ascii.eqb c "\" then String c (minify Escaped r)
          else if Ascii.eqb c dquote then String c (minify Outside r)
          else String c (minify Inside r)
      | Escaped => String c (minify Inside r)
      end
  end.

(** [w'] continues [w]: the trace grows at its end, a fingerprint with a
    truthy cached value keeps one, a fingerprint with a location (a
    non-empty string) keeps one, and every new call of [uploadContent]
    carries content whose fingerprint had no truthy value in [w]. *)
Definition continues `{Host} (w w' : world) : Prop :=
  ∃ new, trace w' = trace w ++ new
    ∧ (∀ fp, truthy (JSMap.lookup fp (urlCacheMap w)) = true →
             truthy (JSMap.lookup fp (urlCacheMap w')) = true)
    ∧ (∀ fp l, JSMap.get fp (urlCacheMap w) = Some (VStr l) → l ≠ "" →
               ∃ l', l' ≠ ""
                     ∧ JSMap.get fp (urlCacheMap w') = Some (VStr l'))
    ∧ (∀ f c e, EUpload f c e ∈ new →
                truthy (JSMap.lookup (md5 c) (urlCacheMap w)) = false).

(** [a] may stand before [b] under the comparison [cmp]. *)
Definition comesFirst {A} (cmp : A → A → Z) (a b : A) : Prop := cmp a b ≤ 0.

(** [localeCompare] is a consistent comparison of the names [names]: any
    two of them are comparable, and the comparison is transitive on them. *)
Definition collates `{Host} (names : list string) : Prop :=
  (∀ a b, a ∈ names → b ∈ names →
          localeCompare a b ≤ 0 ∨ localeCompare b a ≤ 0)
  ∧ (∀ a b c, a ∈ names → b ∈ names → c ∈ names →
              localeCompare a b ≤ 0 → localeCompare b c ≤ 0 →
              localeCompare a c ≤ 0).

(** [localeCompare] tells the names [names] apart: no two distinct ones
    compare as equal. *)
Definition tellsApart `{Host} (names : list string) : Prop :=
  ∀ a b, a ∈ names → b ∈ names →
         localeCompare a b ≤ 0 → localeCompare b a ≤ 0 → a = b.

(** The order of the phases. *)
Definition rank (p : phase) : nat :=
  match p with
  | PResource => 0 | PStyle => 1 | PEntry => 2 | PDocument => 3
  | PManifest => 4
  end.

(** The phases still to start while [p] runs. *)
Definition phasesAfter (p : phase) : list phase :=
  match p with
  | PResource => [PStyle; PEntry; PDocument; PManifest]
  | PStyle => [PEntry; PDocument; PManifest]
  | PEntry => [PDocument; PManifest]
  | PDocument => [PManifest]
  | PManifest => []
  end.

(** The names a phase hands to [uploadFile]. *)
Definition uploadNames (cls : classes) (p : phase) : list string :=
  match p with
  | PResource => resourceNames cls
  | PStyle => styleNames cls
  | PEntry => epNames cls
  | PDocument | PManifest => []
  end.

(** The names handed to [uploadFile] by phase [p] or an earlier one. *)
Definition published (cls : classes) (p : phase) (n : string) : Prop :=
  ∃ q, (rank q ≤ rank p)%nat ∧ n ∈ uploadNames cls q.

(** The events about which the invariant says nothing. *)
Definition plain (e : event) : Prop :=
  match e with
  | EUpload _ _ _ | EInject _ _ | EBarrier _ _ => False
  | _ => True
  end.

Section Invariants.
Context `{Host}.
Variable opts : options.
Variable cls : classes.

(** What holds of the world while phase [p] runs; [bound] is above the rank
    of every phase whose [Promise.all] has resumed. *)
Record world_ok (p : phase) (bound : nat) (w : world) : Prop := {
  ok_urls : ∀ k, k ∈ JSMap.keys (urlMap w) → published cls p k;
  ok_uploads : ∀ f c e, EUpload f c e ∈ trace w → published cls p f;
  ok_inject : ∀ n m, EInject n m ∈ trace w →
      ∃ um, EBarrier PStyle um ∈ trace w ∧ m = getManifestJSON um false;
  ok_barrier : ∀ q um, EBarrier q um ∈ trace w →
      (rank q < bound)%nat ∧ ∀ k, k ∈ JSMap.keys um → published cls q k;
  ok_barrier_once : ∀ q um um',
      EBarrier q um ∈ trace w → EBarrier q um' ∈ trace w → um = um';
  ok_unlink : keepLocal opts = false →
      ∀ k, k ∈ JSMap.keys (urlMap w) → EUnlink k ∈ trace w;
}.

(** An activation of phase [p] waits for what its phase allows: only the
    names of [p] are before [uploadFile], only the document phase writes
    documents. *)
Definition task_ok (p : phase) (t : string * pending) : Prop :=
  match t.2 with
  | AwaitOverwrite n _ | AwaitUpload n _ | AwaitUnlink n =>
      n ∈ uploadNames cls p
  | AwaitDocument _ _ => p = PDocument
  | AwaitManifest _ _ => p = PManifest
  | Fulfilled | Rejected _ => True
  end.

(** The invariant of the cycle. *)
Definition config_ok (c : config) : Prop :=
  world_ok (cphase c)
           (match cstatus c with Completed => 5 | _ => rank (cphase c) end)
           (cworld c)
  ∧ Forall (task_ok (cphase c)) (ctasks c)
  ∧ cqueue c = phasesAfter (cphase c).

End Invariants.

(** Case analysis on where in a trace with a new last event a member is. *)
Ltac trace_cases :=
  repeat match goal with
  | Hin : _ ∈ _ ++ [_] |- _ =>
      apply elem_of_app in Hin as [Hin | Hin%list_elem_of_singleton]
  end;
  simplify_eq/=.

(** An earlier [EInject] keeps the barrier it had when the trace grows. *)
Ltac keep_barrier Hinj :=
  match goal with
  | Hin : EInject _ _ ∈ _ |- _ =>
      let um := fresh "um" in
      destruct (Hinj _ _ Hin) as (um & ? & ?); exists um;
      rewrite elem_of_app; auto
  end.

(** ** The done hook (lines 231-239) *)

(** The cache can hold what [JSON.parse] read, and [JSON.parse] can build
    a string with a surrogate code unit that has no partner (from an escape
    such as [\ud800]); such a unit is the three bytes [237 b c] here, with
    [b] from 160 to 191 (see [utf8]).  QuoteJSONString writes it back as an
    escape. *)
Definition isLoneSurrogate (a b : ascii) : bool :=
  (N_of_ascii a =? 237)%N && (160 <=? N_of_ascii b)%N
  && (N_of_ascii b <? 192)%N.

(** UnicodeEscape: [\u] and four lowercase hexadecimal digits. *)
Definition UnicodeEscape (u : N) : string :=
  "\u" +:+ String (hexDigit (u / 4096))
             (String (hexDigit ((u / 256) mod 16))
                (String (hexDigit ((u / 16) mod 16))
                   (String (hexDigit (u mod 16)) ""))).

Fixpoint escapeUnits (s : string) : string :=
  match s with
  | EmptyString => ""
  | String a r =>
      match r with
      | String b (String c r') =>
          if isLoneSurrogate a b then
            UnicodeEscape (53248 + (N_of_ascii b mod 64) * 64
                           + N_of_ascii c mod 64)
            +:+ escapeUnits r'
          else escapeChar a +:+ escapeUnits r
      | _ => escapeChar a +:+ escapeUnits r
      end
  end.

(** QuoteJSONString for any string of the program. *)
Definition QuoteJSONUnits (s : string) : string :=
  String dquote (escapeUnits s +:+ String dquote "").

(** Whether a string holds a surrogate code unit. *)
Fixpoint hasSurrogate (s : string) : bool :=
  match s with
  | String a (String b _ as r) => isLoneSurrogate a b || hasSurrogate r
  | _ => false
  end.

Section Stringify.

(** The text [JSON.stringify] gives for the Number [m * 10^e]: [null] when
    it is not finite, the shortest decimal that reads back as the same
    Number otherwise.  The program never looks into it. *)
Variable Number_toJSON : Z → Z → string.

(** SerializeJSONProperty without a gap; [None] is [undefined], for which a
    property is left out and an array element written as [null]. *)
Fixpoint SerializeJSONProperty (v : value) : option string :=
  match v with
  | VUndefined => None
  | VNull => Some "null"
  | VBool b => Some (if b then "true" else "false")
  | VNum m e => Some (Number_toJSON m e)
  | VStr s => Some (QuoteJSONUnits s)
  | VArr items =>
      let elements :=
        (fix go (l : list value) : list string :=
           match l with
           | [] => []
           | x :: l' => default "null" (SerializeJSONProperty x) :: go l'
           end) items in
      Some ("[" +:+ join "," elements +:+ "]")
  | VObj fields =>
      let props :=
        (fix go (l : list (string * value)) : list (string * option string) :=
           match l with
           | [] => []
           | (k, x) :: l' => (k, SerializeJSONProperty x) :: go l'
           end) fields in
      Some ("{" +:+ join ","
                      (omap (fun kv : string * option string =>
                               (fun text => QuoteJSONUnits kv.1 +:+ ":" +:+ text)
                                 <$> kv.2)
                            (ownProperties props))
            +:+ "}")
  end.

(** Lines 231-239: the cache is written back as one JSON object, then the
    collected contents are dropped.  [fsError] is what [fs.writeFileSync]
    throws, if it does; the result is the text of the cache file. *)
Definition doneHook (fsError : option error) (s : plugin)
  : error + (string * plugin) :=
  match SerializeJSONProperty (VObj (Object_fromEntries (pCache s))) with
  | None => inl TypeError
  | Some text =>
      match fsError with
      | Some e => inl e
      | None =>
          inr (text,
               {| pAssetMap :=
                    map_fold (fun key _ m => delete key m) (pAssetMap s)
                             (pAssetMap s);
                  pCache := pCache s; pAssets := pAssets s |})
      end
  end.

End Stringify.

(** An entry of the cache as a build records it: a fingerprint and a
    location, both strings of well-formed text. *)
Definition textEntry (kv : string * value) : Prop :=
  hasSurrogate kv.1 = false
  ∧ match kv.2 with VStr u => hasSurrogate u = false | _ => False end.

(** A plugin state at the end of a build that published a logo, and the
    state in which the next build starts. *)
Definition publishedState : plugin :=
  {| pAssetMap := list_to_map [("logo.png", Buffer "PNG")];
     pCache := [("md5:PNG", VStr "https://cdn/logo.png")];
     pAssets := [("logo.png", Buffer "PNG")] |}.

Definition freshState : plugin :=
  {| pAssetMap := ∅; pCache := JSMap.empty; pAssets := [] |}.

(** A stand-in for the printing of Numbers, for closed examples. *)
Definition exampleNumbers : Z → Z → string := fun _ _ => "0".

(** A property [I] of the running phase, its activations and the world holds
    in a configuration, whose queue and status are in step with the phase. *)
Definition holds (I : phase → tasks → world → Prop) (c : config) : Prop :=
  I (cphase c) (ctasks c) (cworld c)
  ∧ cqueue c = phasesAfter (cphase c)
  ∧ (cstatus c = Completed →
     cphase c = PManifest ∧ Forall (fun t => t.2 = Fulfilled) (ctasks c))
  ∧ (cstatus c = Running →
     firstRejection (ctasks c) = None
     ∧ ¬ Forall (fun t => t.2 = Fulfilled) (ctasks c)).

(** [w'] has in its [urlMap] the entries of [w] but for the names [names],
    distinct keys if [w] had them, and no barrier in its trace that [w] did
    not have. *)
Definition keepsUrls (names : list string) (w w' : world) : Prop :=
  (NoDup (JSMap.keys (urlMap w)) → NoDup (JSMap.keys (urlMap w')))
  ∧ (∀ k, k ∉ names → JSMap.get k (urlMap w') = JSMap.get k (urlMap w))
  ∧ (∀ q um, EBarrier q um ∈ trace w' → EBarrier q um ∈ trace w).

(** What becomes of the [urlMap] that the style phase left: it is recorded
    when the entry phase starts, and from then on the [urlMap] keeps its
    entries for every name that is not an entry name. *)
Definition snapshot_ok (cls : classes) (p : phase) (ts : tasks) (w : world)
  : Prop :=
  Forall (task_ok cls p) ts
  ∧ NoDup (JSMap.keys (urlMap w))
  ∧ ∀ um, EBarrier PStyle um ∈ trace w →
      (2 ≤ rank p)%nat ∧ NoDup (JSMap.keys um)
      ∧ ∀ k, k ∉ epNames cls → JSMap.get k um = JSMap.get k (urlMap w).

(** Lines 223-225: the name under which the manifest is written, if any. *)
Definition manifestTarget (opts : options) : option string :=
  match manifestFilename opts with
  | MfFlag true => Some "manifest.json"
  | MfName name => if bool_decide (name = "") then None else Some name
  | _ => None
  end.

(** The names phase [p] writes to the output directory. *)
Definition writes (opts : options) (cls : classes) (p : phase) (n : string)
  : Prop :=
  match p with
  | PResource => False
  | PStyle => n ∈ styleNames cls
  | PEntry => n ∈ epNames cls
  | PDocument => n ∈ htmlNames cls
  | PManifest => manifestTarget opts = Some n
  end.

(** The content phase [p] makes for [name] (lines 183, 191, 201-204,
    214-218, 226): the collected content rewritten with the [urlMap] as it
    was when the [Promise.all] of the phase before resumed. *)
Definition prepared `{Host} (assetMap : gmap string content)
    (tr : list event) (p : phase) (name : string) (c : content) : Prop :=
  match p with
  | PResource => assetMap !! name = Some c
  | PStyle =>
      ∃ c0 um, assetMap !! name = Some c0 ∧ EBarrier PResource um ∈ tr
               ∧ c = Text (replaceCSSUrls name c0 um)
  | PEntry =>
      ∃ c0 um, assetMap !! name = Some c0 ∧ EBarrier PStyle um ∈ tr
               ∧ c = Text (injectAssetManifest c0 (getManifestJSON um false))
  | PDocument =>
      ∃ c0 um, assetMap !! name = Some c0 ∧ EBarrier PEntry um ∈ tr
               ∧ c = Text (interpolateHTMLAssets c0 um
                             (getManifestJSON um false))
  | PManifest =>
      ∃ um, EBarrier PDocument um ∈ tr ∧ c = Text (getManifestJSON um true)
  end.

Section Calls.
Context `{Host}.
Variable opts : options.
Variable assetMap : gmap string content.
Variable cls : classes.

(** What holds of an event of the trace [tr] while phase [p] runs and
    [urls] is the [urlMap]. *)
Definition call_ok (p : phase) (tr : list event) (urls : JSMap.t string)
    (e : event) : Prop :=
  match e with
  | EUpload f c x =>
      x = path_extname f
      ∧ ∃ q, (rank q ≤ rank p)%nat ∧ f ∈ uploadNames cls q
             ∧ prepared assetMap tr q f c
             ∧ (q ≠ PResource → EWriteFile f c ∈ tr)
  | EWriteFile n c =>
      ∃ q, (rank q ≤ rank p)%nat ∧ writes opts cls q n
           ∧ prepared assetMap tr q n c
  | EUnlink n => keepLocal opts = false ∧ n ∈ JSMap.keys urls
  | EReplaceCSS n um => n ∈ styleNames cls ∧ EBarrier PResource um ∈ tr
  | EInject n m =>
      n ∈ epNames cls
      ∧ ∃ um, EBarrier PStyle um ∈ tr ∧ m = getManifestJSON um false
  | EInterpolate n um m =>
      n ∈ htmlNames cls ∧ EBarrier PEntry um ∈ tr
      ∧ m = getManifestJSON um false
  | EBarrier _ _ => True
  end.

(** What an activation of phase [p] waits with. *)
Definition pending_ok (p : phase) (tr : list event) (t : string * pending)
  : Prop :=
  match t.2 with
  | AwaitOverwrite n c =>
      n ∈ uploadNames cls p ∧ p ≠ PResource ∧ prepared assetMap tr p n c
      ∧ EWriteFile n c ∈ tr
  | AwaitUnlink n => keepLocal opts = false
  | _ => True
  end.

(** The invariant, for the world: every event is in order, and no file of
    the directory [before] is missing as long as local files are kept. *)
Definition world_calls (before : gmap string content) (p : phase)
    (w : world) : Prop :=
  (∀ e, e ∈ trace w → call_ok p (trace w) (urlMap w) e)
  ∧ (keepLocal opts = true →
     ∀ name, is_Some (before !! name) → is_Some (files w !! name)).

(** The invariant: the world is in order, and every activation waits with
    what its phase prepared. *)
Definition calls_ok (before : gmap string content) (p : phase) (ts : tasks)
    (w : world) : Prop :=
  world_calls before p w ∧ Forall (pending_ok p (trace w)) ts.

End Calls.

(** The calls an activation makes when it resumes: the upload that follows
    its overwrite, the unlink that follows its upload. *)
Definition followUp (e : event) : Prop :=
  match e with
  | EUpload _ _ _ | EUnlink _ => True
  | _ => False
  end.

(** The site when its resource phase has started: the logo is being
    uploaded. *)
Definition siteStart : config :=
  cycle (H := exampleHost) siteOptions siteAssets (classify siteStats) []
    siteWorld.

(** Lines 214-218: a document with the locations and the manifest
    interpolated. *)
Definition documentOf `{Host} (c0 : content) (um : JSMap.t string)
  : content :=
  Text (interpolateHTMLAssets c0 um (getManifestJSON um false)).

Section Output.
Context `{Host}.
Variable opts : options.
Variable assetMap : gmap string content.
Variable cls : classes.

(** An activation of the document phase: it waits to write the document,
    or the document is written. *)
Definition document_task (w : world) (t : string * pending) : Prop :=
  match t.2 with
  | AwaitDocument n c =>
      n = t.1 ∧ ∃ c0, assetMap !! n = Some c0 ∧ c = documentOf c0 (urlMap w)
  | Fulfilled =>
      ∀ c0, assetMap !! t.1 = Some c0 →
            files w !! outputFile t.1 = Some (documentOf c0 (urlMap w))
  | Rejected _ => True
  | _ => False
  end.

(** The activation that writes the manifest file [name]. *)
Definition manifest_task (w : world) (name : string) (t : pending) : Prop :=
  match t with
  | AwaitManifest n c =>
      n = name ∧ c = Text (getManifestJSON (urlMap w) true)
  | Fulfilled =>
      files w !! outputFile name
      = Some (Text (getManifestJSON (urlMap w) true))
  | Rejected _ => True
  | _ => False
  end.

(** The manifest file, if one is configured, is not the file of the
    document [n]. *)
Definition apart (n : string) : Prop :=
  ∀ target, manifestTarget opts = Some target →
            outputFile target ≠ outputFile n.

(** What holds of the output directory in the last two phases; the
    [urlMap] is then the one of the end of the entry phase. *)
Definition output_ok (p : phase) (ts : tasks) (w : world) : Prop :=
  match p with
  | PDocument =>
      ts.*1 = htmlNames cls ∧ Forall (document_task w) ts
      ∧ EBarrier PEntry (urlMap w) ∈ trace w
  | PManifest =>
      (∀ n c0, n ∈ htmlNames cls → assetMap !! n = Some c0 → apart n →
               files w !! outputFile n = Some (documentOf c0 (urlMap w)))
      ∧ EBarrier PEntry (urlMap w) ∈ trace w
      ∧ EBarrier PDocument (urlMap w) ∈ trace w
      ∧ match manifestTarget opts with
        | None => ts = []
        | Some name => ∃ t, ts = [(name, t)] ∧ manifest_task w name t
        end
  | _ => True
  end.

End Output.

(** The names for which phase [p] starts an activation, in order. *)
Definition namesOf (opts : options) (cls : classes) (p : phase)
  : list string :=
  match p with
  | PResource => resourceNames cls
  | PStyle => styleNames cls
  | PEntry => epNames cls
  | PDocument => htmlNames cls
  | PManifest =>
      match manifestTarget opts with Some name => [name] | None => [] end
  end.

(** How many of its [await]s an activation may still have before it. *)
Definition weight (t : pending) : nat :=
  match t with
  | AwaitOverwrite _ _ => 3
  | AwaitUpload _ _ => 2
  | AwaitUnlink _ | AwaitDocument _ _ | AwaitManifest _ _ => 1
  | Fulfilled | Rejected _ => 0
  end.

Fixpoint weights (ts : tasks) : nat :=
  match ts with
  | [] => 0
  | (_, t) :: ts' => weight t + weights ts'
  end.

(** A bound for the phases still to start: three [await]s for each of
    their names, and one more turn for each phase. *)
Fixpoint budget (opts : options) (cls : classes) (queue : list phase)
  : nat :=
  match queue with
  | [] => 0
  | q :: queue' => S (3 * length (namesOf opts cls q)) + budget opts cls queue'
  end.

(** A bound on the [await]s that are still to settle before the hook
    resolves. *)
Definition remaining (opts : options) (cls : classes) (c : config) : nat :=
  weights (ctasks c) + budget opts cls (cqueue c).

(** How often [uploadContent] was called for the file [n]. *)
Fixpoint uploadsOf (n : string) (tr : list event) : nat :=
  match tr with
  | [] => 0
  | EUpload f _ _ :: tr' =>
      (if String.eqb f n then 1 else 0) + uploadsOf n tr'
  | _ :: tr' => uploadsOf n tr'
  end.

(** An asset has been dealt with: a location is recorded for it, or
    [uploadContent] has been called for it. *)
Definition dealtWith (w : world) (n : string) : Prop :=
  n ∈ JSMap.keys (urlMap w) ∨ (0 < uploadsOf n (trace w))%nat.

(** [w'] is [w] after the activation for [name] has moved: nothing was
    uploaded for another name, no location was lost, and the cache holds
    strings if it did. *)
Definition moved (name : string) (w w' : world) : Prop :=
  (∀ m, m ≠ name → uploadsOf m (trace w') = uploadsOf m (trace w))
  ∧ (uploadsOf name (trace w) ≤ uploadsOf name (trace w'))%nat
  ∧ (∀ k, k ∈ JSMap.keys (urlMap w) → k ∈ JSMap.keys (urlMap w'))
  ∧ (Forall (fun kv => isString kv.2 = true) (urlCacheMap w) →
     Forall (fun kv => isString kv.2 = true) (urlCacheMap w')).

(** Where an activation of phase [p] stands with respect to its upload;
    [strings] says that the cache held only strings when the cycle began. *)
Definition activation_ok (strings : Prop) (p : phase) (w : world)
    (t : string * pending) : Prop :=
  match t.2 with
  | AwaitOverwrite n _ =>
      (rank p ≤ 2)%nat ∧ n = t.1 ∧ uploadsOf n (trace w) = 0%nat
  | AwaitUpload n _ =>
      (rank p ≤ 2)%nat ∧ n = t.1 ∧ uploadsOf n (trace w) = 1%nat
  | AwaitUnlink n =>
      (rank p ≤ 2)%nat ∧ n = t.1 ∧ n ∈ JSMap.keys (urlMap w)
  | AwaitDocument _ _ | AwaitManifest _ _ => (2 < rank p)%nat
  | Fulfilled => strings → (rank p ≤ 2)%nat → dealtWith w t.1
  | Rejected _ => True
  end.

(** The invariant: no file has been uploaded twice, and only files of
    activations that have started have been uploaded; if the cache held only
    strings when the cycle began, it still does, and the assets of the
    phases that are over have been dealt with. *)
Definition once_ok (strings : Prop) (cls : classes) (p : phase) (ts : tasks)
    (w : world) : Prop :=
  (∀ n, (uploadsOf n (trace w) ≤ 1)%nat)
  ∧ (∀ n, (0 < uploadsOf n (trace w))%nat →
          ((rank p ≤ 2)%nat ∧ n ∈ ts.*1)
          ∨ ∃ q, (rank q < rank p)%nat ∧ n ∈ uploadNames cls q)
  ∧ (strings → ∀ q n, (rank q < rank p)%nat → n ∈ uploadNames cls q →
                      dealtWith w n)
  ∧ (strings → Forall (fun kv => isString kv.2 = true) (urlCacheMap w))
  ∧ NoDup ts.*1
  ∧ ((rank p ≤ 2)%nat → ∀ n, n ∈ ts.*1 → n ∈ uploadNames cls p)
  ∧ Forall (activation_ok strings p w) ts.

(** The content an upload phase hands to [uploadFile] for [name] (lines 183,
    191 and 201-204) when [um] is the [urlMap] at the start of the phase. *)
Definition preparedWith `{Host} (p : phase) (name : string) (c0 : content)
    (um : JSMap.t string) : content :=
  match p with
  | PStyle => Text (replaceCSSUrls name c0 um)
  | PEntry => Text (injectAssetManifest c0 (getManifestJSON um false))
  | _ => c0
  end.

(** A cached value that line 144 takes for the location and line 150 then
    drops: truthy, but not a string. *)
Definition unusable (v : value) : bool := truthy v && negb (isString v).

(** The trace [tr] shows that phase [p] prepares its contents with the
    [urlMap] [um]: the [Promise.all] of the phase before resumed with it
    (the resource phase prepares nothing). *)
Definition preparedFrom (p : phase) (um : JSMap.t string) (tr : list event)
  : Prop :=
  match p with
  | PStyle => EBarrier PResource um ∈ tr
  | PEntry => EBarrier PStyle um ∈ tr
  | _ => True
  end.

(** The asset [n] of phase [p] is exposed: the phase has prepared content
    for it whose fingerprint has no unusable value in the cache [cache0] of
    the start of the cycle. *)
Definition exposed `{Host} (cache0 : JSMap.t value) (p : phase) (n : string)
    (c0 : content) (tr : list event) : Prop :=
  ∃ um, preparedFrom p um tr
        ∧ unusable (JSMap.lookup (md5 (preparedWith p n c0 um)) cache0)
          = false.

(** What an activation may wait with while the asset [n] is skipped;
    [cache0] is the cache at the start of the cycle. *)
Definition skipped_task `{Host} (cache0 : JSMap.t value) (n : string)
    (t : string * pending) : Prop :=
  match t.2 with
  | AwaitOverwrite m c =>
      m = n → unusable (JSMap.lookup (md5 c) cache0) = true
  | AwaitUpload m c =>
      m ≠ n ∧ truthy (JSMap.lookup (md5 c) cache0) = false
  | AwaitUnlink m => m ≠ n
  | _ => True
  end.

(** The world while [n] is skipped: it has no location, nothing more has
    been uploaded under its name, and the fingerprints the cache knew keep
    their value. *)
Definition skipped_world (cache0 : JSMap.t value) (uploads0 : nat)
    (n : string) (w : world) : Prop :=
  n ∉ JSMap.keys (urlMap w)
  ∧ uploadsOf n (trace w) = uploads0
  ∧ (∀ k, truthy (JSMap.lookup k cache0) = true →
          JSMap.lookup k (urlCacheMap w) = JSMap.lookup k cache0).

(** The invariant: the asset is skipped so far, unless it is exposed. *)
Definition skipped_ok `{Host} (cache0 : JSMap.t value) (uploads0 : nat)
    (p : phase) (n : string) (c0 : content) (ts : tasks) (w : world)
  : Prop :=
  exposed cache0 p n c0 (trace w)
  ∨ (skipped_world cache0 uploads0 n w ∧ Forall (skipped_task cache0 n) ts).

(** The output directory of the small site and a cache file that held
    [true] for the fingerprint of the entry script with the manifest of the
    site injected. *)
Definition staleWorld : world :=
  {| urlMap := JSMap.empty;
     urlCacheMap := [("md5:run()" +:+ siteManifest, VBool true)];
     files := siteAssets; trace := [] |}.

(** * Properties *)

(** ** Containers *)

Lemma JSSet_elem_of_add x y s : x ∈ JSSet.add y s ↔ x = y ∨ x ∈ s.
Proof.
  unfold JSSet.add, JSSet.has. case_bool_decide as Hy.
  - split; [auto | intros [-> | ?]; done].
  - rewrite elem_of_app, list_elem_of_singleton. tauto.
Qed.

Lemma JSSet_NoDup_add y s : NoDup s → NoDup (JSSet.add y s).
Proof.
  intros Hs. unfold JSSet.add, JSSet.has. case_bool_decide as Hy; [done |].
  apply NoDup_app. split_and!; [done | | apply NoDup_singleton].
  intros x Hx ->%list_elem_of_singleton. done.
Qed.

Lemma JSSet_has_true x s : JSSet.has x s = true ↔ x ∈ s.
Proof. unfold JSSet.has. by rewrite bool_decide_eq_true. Qed.

(** ** Classification *)

Lemma collectEntries_from s0 eps n :
  n ∈ foldl (fun s (ep : string * list string) =>
               foldl (fun s name => JSSet.add name s) s ep.2) s0 eps
  ↔ n ∈ s0 ∨ ∃ ep, ep ∈ eps ∧ n ∈ ep.2.
Proof.
  revert s0. induction eps as [| ep eps IH]; intros s0; simpl.
  - split; [auto | intros [? | (ep & Hep & _)]; [done | inv Hep]].
  - rewrite IH. clear IH.
    assert (Hin : ∀ l s, n ∈ foldl (fun s name => JSSet.add name s) s l
                         ↔ n ∈ s ∨ n ∈ l).
    { induction l as [| x l IHl]; intros s; simpl.
      - split; [auto | intros [? | Hn]; [done | inv Hn]].
      - rewrite IHl, JSSet_elem_of_add, elem_of_cons. tauto. }
    rewrite Hin. split.
    + intros [[? | ?] | (ep' & Hep' & Hn)]; eauto.
      * right. exists ep. split; [left | done].
      * right. exists ep'. split; [by right | done].
    + intros [? | (ep' & Hep' & Hn)]; [tauto |].
      apply elem_of_cons in Hep' as [-> | ?]; [tauto | eauto].
Qed.

Lemma elem_of_collectEntries eps n :
  n ∈ collectEntries eps ↔ ∃ ep, ep ∈ eps ∧ n ∈ ep.2.
Proof.
  unfold collectEntries. rewrite collectEntries_from.
  split; [intros [Hn | ?]; [inv Hn | done] | auto].
Qed.

(** The second loop never touches [epNames], and puts a name in the set its
    suffix selects unless it is an entry name. *)
Lemma classify_loop l c0 :
  let c := foldl classifyOne c0 l in
  epNames c = epNames c0
  ∧ (∀ n, n ∈ styleNames c ↔
          n ∈ styleNames c0
          ∨ (n ∈ l ∧ (n ∉ epNames c0) ∧ endsWith n ".css" = true))
  ∧ (∀ n, n ∈ htmlNames c ↔
          n ∈ htmlNames c0
          ∨ (n ∈ l ∧ (n ∉ epNames c0) ∧ endsWith n ".css" = false
             ∧ endsWith n ".html" = true))
  ∧ (∀ n, n ∈ resourceNames c ↔
          n ∈ resourceNames c0
          ∨ (n ∈ l ∧ (n ∉ epNames c0) ∧ endsWith n ".css" = false
             ∧ endsWith n ".html" = false)).
Proof.
  revert c0. induction l as [| x l IH]; intros c0; simpl.
  - split_and!; [done | intros n; split; [auto | intros [? | [Hn _]]; [done | inv Hn]]..].
  - destruct (IH (classifyOne c0 x)) as (Hep & Hst & Hht & Hre).
    rewrite Hep. clear IH Hep.
    assert (Hx : ∀ n, n ∈ x :: l ↔ n = x ∨ n ∈ l) by (intros; apply elem_of_cons).
    unfold classifyOne in *.
    destruct (JSSet.has x (epNames c0)) eqn:Hin.
    { apply JSSet_has_true in Hin.
      split_and!; [done | intros n; rewrite ?Hst, ?Hht, ?Hre, Hx;
                          split; [tauto | intros [? | [[-> | ?] ?]]; tauto]..]. }
    assert (x ∉ epNames c0) as Hnin.
    { intros ?%JSSet_has_true. congruence. }
    destruct (endsWith x ".css") eqn:Hcss; [| destruct (endsWith x ".html") eqn:Hhtml];
      simpl in *;
      (split_and!; [done | intros n; rewrite ?Hst, ?Hht, ?Hre, ?JSSet_elem_of_add, Hx;
                           split; [intros; destruct_or?; destruct_and?; subst; tauto
                                  | intros [? | [[-> | ?] ?]]; destruct_and?; try tauto; congruence]..]).
Qed.

Lemma classify_spec st :
  let c := classify st in
  (∀ n, n ∈ epNames c ↔ ∃ ep, ep ∈ entrypoints st ∧ n ∈ ep.2)
  ∧ (∀ n, n ∈ styleNames c ↔
          n ∈ assets st ∧ endsWith n ".map" = false ∧ (n ∉ epNames c)
          ∧ endsWith n ".css" = true)
  ∧ (∀ n, n ∈ htmlNames c ↔
          n ∈ assets st ∧ endsWith n ".map" = false ∧ (n ∉ epNames c)
          ∧ endsWith n ".css" = false ∧ endsWith n ".html" = true)
  ∧ (∀ n, n ∈ resourceNames c ↔
          n ∈ assets st ∧ endsWith n ".map" = false ∧ (n ∉ epNames c)
          ∧ endsWith n ".css" = false ∧ endsWith n ".html" = false).
Proof.
  unfold classify.
  match goal with |- context [foldl classifyOne ?c0 ?l] =>
    destruct (classify_loop l c0) as (Hep & Hst & Hht & Hre) end.
  simpl in *. rewrite Hep.
  split_and!; intros n.
  - apply elem_of_collectEntries.
  - rewrite Hst, list_elem_of_filter. split; [intros [Hn | ?]; [inv Hn | tauto] | tauto].
  - rewrite Hht, list_elem_of_filter. split; [intros [Hn | ?]; [inv Hn | tauto] | tauto].
  - rewrite Hre, list_elem_of_filter. split; [intros [Hn | ?]; [inv Hn | tauto] | tauto].
Qed.

(** A name is in at most one of the four sets. *)
Lemma classify_disjoint st n :
  let c := classify st in
  (n ∈ epNames c →
     n ∉ styleNames c ∧ n ∉ htmlNames c ∧ n ∉ resourceNames c)
  ∧ (n ∈ styleNames c → n ∉ htmlNames c ∧ n ∉ resourceNames c)
  ∧ (n ∈ htmlNames c → n ∉ resourceNames c).
Proof.
  intros c. destruct (classify_spec st) as (Hep & Hst & Hht & Hre).
  fold c in Hep, Hst, Hht, Hre.
  split_and!.
  - intros Hn. rewrite Hst, Hht, Hre. tauto.
  - rewrite Hst, Hht, Hre. intros (_ & _ & _ & Hcss).
    split; intros (_ & _ & _ & Hcss' & _); congruence.
  - rewrite Hht, Hre. intros (_ & _ & _ & _ & Hhtml) (_ & _ & _ & _ & ?).
    congruence.
Qed.

Lemma classify_NoDup st :
  let c := classify st in
  NoDup (epNames c) ∧ NoDup (styleNames c) ∧ NoDup (htmlNames c)
  ∧ NoDup (resourceNames c).
Proof.
  unfold classify, collectEntries.
  assert (Hin : ∀ l s, NoDup s →
                       NoDup (foldl (fun s name => JSSet.add name s) s l)).
  { induction l as [| x l IHl]; intros s Hs; simpl; [done |].
    by apply IHl, JSSet_NoDup_add. }
  assert (Hep : ∀ eps s, NoDup s →
            NoDup (foldl (fun s (ep : string * list string) =>
                     foldl (fun s name => JSSet.add name s) s ep.2) s eps)).
  { induction eps as [| ep eps IH]; intros s Hs; simpl; [done |].
    by apply IH, Hin. }
  assert (Hloop : ∀ l c0,
            NoDup (epNames c0) ∧ NoDup (styleNames c0) ∧ NoDup (htmlNames c0)
            ∧ NoDup (resourceNames c0) →
            let c := foldl classifyOne c0 l in
            NoDup (epNames c) ∧ NoDup (styleNames c) ∧ NoDup (htmlNames c)
            ∧ NoDup (resourceNames c)).
  { induction l as [| x l IH]; intros c0 H0; simpl; [done |].
    apply IH. destruct H0 as (? & ? & ? & ?). unfold classifyOne.
    repeat case_match; simpl; split_and!; auto using JSSet_NoDup_add. }
  apply Hloop. simpl. split_and!; [apply Hep | ..]; apply NoDup_nil_2.
Qed.

(** The claim of C4 as it is written fails: a name that ends in [.map] and
    is an asset of an entry point is an entry name, hence published. *)
Lemma classify_map_entry_is_published :
  endsWith "main.js.map" ".map" = true
  ∧ "main.js.map" ∈ epNames (classify mapEntryStats).
Proof.
  split; [reflexivity |]. vm_compute.
  apply list_elem_of_further, list_elem_of_here.
Qed.

(** C4 (amended): the four sets are pairwise disjoint, with entry names
    taking precedence over the suffix rules; every asset whose name does not
    end in [.map] is in one of them; a name that ends in [.map] is in none of
    the style, document and resource sets, and is an entry name exactly when
    an entry point lists it. *)
Theorem classify_partition (st : stats) (n : string) :
  let c := classify st in
  (n ∈ epNames c →
     n ∉ styleNames c ∧ n ∉ htmlNames c ∧ n ∉ resourceNames c)
  ∧ (n ∈ styleNames c → n ∉ htmlNames c ∧ n ∉ resourceNames c)
  ∧ (n ∈ htmlNames c → n ∉ resourceNames c)
  ∧ (n ∈ assets st → endsWith n ".map" = false →
     n ∈ epNames c ∨ n ∈ styleNames c ∨ n ∈ htmlNames c
     ∨ n ∈ resourceNames c)
  ∧ (endsWith n ".map" = true →
     n ∉ styleNames c ∧ n ∉ htmlNames c ∧ n ∉ resourceNames c
     ∧ (n ∈ epNames c ↔ ∃ ep, ep ∈ entrypoints st ∧ n ∈ ep.2)).
Proof.
  intros c. destruct (classify_spec st) as (Hep & Hst & Hht & Hre).
  destruct (classify_disjoint st n) as (Hd1 & Hd2 & Hd3).
  fold c in Hep, Hst, Hht, Hre, Hd1, Hd2, Hd3.
  split_and!; [done.. | |].
  - intros Hin Hmap. rewrite Hst, Hht, Hre.
    destruct (decide (n ∈ epNames c)); [tauto |].
    destruct (endsWith n ".css"), (endsWith n ".html"); tauto.
  - intros Hmap. rewrite Hst, Hht, Hre, Hep.
    split_and!; [intros (_ & ? & _); congruence.. | done].
Qed.

(** ** Activation and configuration *)

(** C9: a non-empty NODE_ENV alone decides whether the plugin is active,
    whatever the compiler's mode: the build goes through no hook exactly when
    NODE_ENV differs from [production]; an unset or empty NODE_ENV leaves the
    decision to the mode. *)
Theorem NODE_ENV_overrides_mode :
  (∀ v md, v ≠ "" → isProduction (Some v) md = bool_decide (v = "production"))
  ∧ (∀ md, isProduction None md = bool_decide (md = Some "production"))
  ∧ (∀ md, isProduction (Some "") md = bool_decide (md = Some "production"))
  ∧ (∀ (H : Host) opts b v,
       NODE_ENV b = Some v → v ≠ "" →
       (startBuild opts b = Inactive ↔ v ≠ "production"))
  ∧ (∀ (H : Host) opts b,
       NODE_ENV b = None ∨ NODE_ENV b = Some "" →
       (startBuild opts b = Inactive ↔ mode b ≠ Some "production")).
Proof.
  assert (∀ (H : Host) opts b,
            startBuild opts b = Inactive
            ↔ isProduction (NODE_ENV b) (mode b) = false) as Hstart.
  { intros H opts b. unfold startBuild.
    destruct (isProduction (NODE_ENV b) (mode b)); [| done].
    split; [| done]. by destruct (runHooks _ _) as [[e |] s]. }
  assert (∀ v md, v ≠ "" →
            isProduction (Some v) md = bool_decide (v = "production")) as Hset.
  { intros v md Hv. unfold isProduction.
    rewrite (bool_decide_false (v = "")) by done.
    apply bool_decide_ext. split; [by intros [= ->] | by intros ->]. }
  split_and!; [done.. | |].
  - intros H opts b v Henv Hv. rewrite Hstart, Henv, Hset by done.
    by rewrite bool_decide_eq_false.
  - intros H opts b Henv. rewrite Hstart.
    assert (isProduction (NODE_ENV b) (mode b)
            = bool_decide (mode b = Some "production")) as ->.
    { by destruct Henv as [-> | ->]. }
    by rewrite bool_decide_eq_false.
Qed.

(** C8: with a truthy [publicPath] (a non-empty string in particular) the
    thisCompilation hook throws whenever it runs; in an active build this
    happens before processAssets, emit and afterEmit, so that no asset is
    rewritten, collected or published.  The error is the one of line 64
    unless reading the cache file already threw. *)
Theorem publicPath_aborts_before_assets `{Host} (opts : options) (b : build) :
  truthy (publicPath b) = true →
  (∀ s, thisCompilationHook (publicPath b) s = inl PublicPathError)
  ∧ (isProduction (NODE_ENV b) (mode b) = true →
     ∃ e s, startBuild opts b = Aborted e s
            ∧ pAssets s = compilationAssets b
            ∧ pAssetMap s = ∅
            ∧ (∀ s0 s1, initializeHook (cacheFile b) s0 = inr s1 →
                        e = PublicPathError)).
Proof.
  intros Hpath. split.
  { intros s. unfold thisCompilationHook. by rewrite Hpath. }
  intros Hprod. unfold startBuild. rewrite Hprod. simpl.
  destruct (initializeHook (cacheFile b) _) as [e | s1] eqn:Hinit.
  - eexists _, _. split_and!; [done.. |].
    intros s0 s1 Hs. exfalso. unfold initializeHook in *.
    destruct (cacheFile b) as [[e' | text] |]; [done | | done].
    destruct (JSON_parse _); [| done]. destruct (Object_entries _); done.
  - unfold thisCompilationHook. rewrite Hpath.
    eexists _, _. split_and!; [done | | | done].
    + unfold initializeHook in Hinit. repeat case_match; by simplify_eq.
    + unfold initializeHook in Hinit. repeat case_match; by simplify_eq.
Qed.

Lemma publicPath_aborts_witness :
  (∀ s, thisCompilationHook (publicPath publicPathBuild) s
        = inl PublicPathError)
  ∧ (isProduction (NODE_ENV publicPathBuild) (mode publicPathBuild) = true →
     ∃ e s, startBuild (H := exampleHost) plainOptions publicPathBuild
            = Aborted e s
            ∧ pAssets s = compilationAssets publicPathBuild
            ∧ pAssetMap s = ∅
            ∧ (∀ s0 s1,
                 initializeHook (cacheFile publicPathBuild) s0 = inr s1 →
                 e = PublicPathError)).
Proof.
  apply (publicPath_aborts_before_assets (H := exampleHost) plainOptions
           publicPathBuild).
  reflexivity.
Defined.

Example publicPath_build_is_aborted :
  startBuild (H := exampleHost) plainOptions publicPathBuild
  = Aborted PublicPathError
      {| pAssetMap := ∅; pCache := JSMap.empty;
         pAssets := [("main.js", Text "console.log(1)")] |}.
Proof. reflexivity. Qed.

(** ** Maps *)

Lemma JSMap_get_set_eq {V} k (v : V) m : JSMap.get k (JSMap.set k v m) = Some v.
Proof.
  induction m as [| [k' v'] m IH]; simpl.
  - by rewrite decide_True.
  - destruct (decide (k = k')) as [-> | Hne]; simpl.
    + by rewrite decide_True.
    + by rewrite decide_False.
Qed.

Lemma JSMap_get_set_ne {V} k k' (v : V) m :
  k ≠ k' → JSMap.get k' (JSMap.set k v m) = JSMap.get k' m.
Proof.
  intros Hne. induction m as [| [k0 v0] m IH]; simpl.
  - by rewrite decide_False.
  - destruct (decide (k = k0)) as [-> | Hne0]; simpl.
    + by rewrite !decide_False.
    + by rewrite IH.
Qed.

Lemma JSMap_keys_set {V} k (v : V) m k' :
  k' ∈ JSMap.keys (JSMap.set k v m) ↔ k' = k ∨ k' ∈ JSMap.keys m.
Proof.
  unfold JSMap.keys. induction m as [| [k0 v0] m IH]; simpl.
  - rewrite list_elem_of_singleton.
    split; [auto | intros [? | Hk]; [done | inv Hk]].
  - destruct (decide (k = k0)) as [-> | Hne]; simpl.
    + rewrite !elem_of_cons. tauto.
    + rewrite !elem_of_cons, IH. tauto.
Qed.

Lemma JSMap_get_None {V} k (m : JSMap.t V) :
  JSMap.get k m = None ↔ k ∉ JSMap.keys m.
Proof.
  unfold JSMap.keys. induction m as [| [k0 v0] m IH]; simpl.
  - split; [intros _ Hk; inv Hk | done].
  - rewrite not_elem_of_cons. destruct (decide (k = k0)); [| tauto].
    split; [done | tauto].
Qed.

Lemma JSMap_lookup_set_eq k v m : JSMap.lookup k (JSMap.set k v m) = v.
Proof. unfold JSMap.lookup. by rewrite JSMap_get_set_eq. Qed.

Lemma JSMap_lookup_set_ne k k' v m :
  k ≠ k' → JSMap.lookup k' (JSMap.set k v m) = JSMap.lookup k' m.
Proof. intros. unfold JSMap.lookup. by rewrite JSMap_get_set_ne. Qed.

Lemma JSMap_set_Forall {V} (P : string * V → Prop) k v (m : JSMap.t V) :
  P (k, v) → Forall P m → Forall P (JSMap.set k v m).
Proof.
  intros Hkv. induction 1 as [| [k' v'] m Hx Hm IH]; simpl.
  - by apply Forall_singleton.
  - destruct (decide (k = k')); constructor; auto.
Qed.

Lemma JSMap_get_elem {V} name (t : V) (ts : JSMap.t V) :
  JSMap.get name ts = Some t → (name, t) ∈ ts.
Proof.
  induction ts as [| [n p] ts IH]; simpl; [done |].
  destruct (decide (name = n)) as [-> | Hne].
  - intros [= ->]. by left.
  - intros Hget. right. auto.
Qed.

(** ** The manifest *)

Section Sorting.
Context {A : Type} (cmp : A → A → Z).

Lemma sortInsert_perm x l : sortInsert cmp x l ≡ₚ x :: l.
Proof.
  induction l as [| y l IH]; simpl; [done |].
  destruct (cmp x y <=? 0); [done |]. by rewrite IH, Permutation_swap.
Qed.

Lemma Array_sort_perm l : Array_sort cmp l ≡ₚ l.
Proof.
  induction l as [| x l IH]; simpl; [done |].
  by rewrite sortInsert_perm, IH.
Qed.

(** The sort orders a list when the comparison is total and transitive on
    the elements of that list, whatever it does elsewhere. *)
Section On.
Variable dom : A → Prop.
Hypothesis dom_total : ∀ a b,
  dom a → dom b → comesFirst cmp a b ∨ comesFirst cmp b a.
Hypothesis dom_trans : ∀ a b c,
  dom a → dom b → dom c →
  comesFirst cmp a b → comesFirst cmp b c → comesFirst cmp a c.

Lemma sortInsert_sorted_on x l :
  dom x → Forall dom l → StronglySorted (comesFirst cmp) l →
  StronglySorted (comesFirst cmp) (sortInsert cmp x l).
Proof.
  intros Hx Hl Hs. induction Hs as [| y l Hs IH Hy]; simpl.
  - repeat constructor.
  - apply Forall_cons in Hl as [Hdy Hl].
    destruct (cmp x y <=? 0) eqn:Hxy.
    + apply Z.leb_le in Hxy. constructor; [by constructor |].
      constructor; [done |]. apply Forall_forall. intros z Hz.
      apply (dom_trans x y z); auto.
      * by eapply Forall_forall in Hl.
      * by eapply Forall_forall in Hy.
    + apply Z.leb_gt in Hxy. constructor; [auto |].
      rewrite sortInsert_perm. constructor; [| done].
      destruct (dom_total x y) as [Hle | Hle]; auto.
      unfold comesFirst in Hle. lia.
Qed.

Lemma Array_sort_sorted_on l :
  Forall dom l → StronglySorted (comesFirst cmp) (Array_sort cmp l).
Proof.
  induction 1 as [| x l Hx Hl IH]; simpl; [constructor |].
  apply sortInsert_sorted_on; [done | | done].
  apply Forall_forall. intros y Hy. rewrite Array_sort_perm in Hy.
  by eapply Forall_forall in Hl.
Qed.

(** Sorting forgets the order of its input when the comparison tells the
    elements of the list apart. *)
Lemma Array_sort_unique_on l1 l2 :
  Forall dom l1 →
  (∀ a b, a ∈ l1 → b ∈ l1 → comesFirst cmp a b → comesFirst cmp b a → a = b) →
  l1 ≡ₚ l2 → Array_sort cmp l1 = Array_sort cmp l2.
Proof.
  intros Hdom Hanti Hperm.
  apply (StronglySorted_unique_strong (comesFirst cmp)).
  - intros a b Ha Hb. rewrite Array_sort_perm in Ha, Hb.
    rewrite <- Hperm in Hb. by apply Hanti.
  - by apply Array_sort_sorted_on.
  - apply Array_sort_sorted_on. by rewrite <- Hperm.
  - by rewrite !Array_sort_perm.
Qed.

End On.

Hypothesis cmp_total : ∀ a b, comesFirst cmp a b ∨ comesFirst cmp b a.
Hypothesis cmp_trans : ∀ a b c,
  comesFirst cmp a b → comesFirst cmp b c → comesFirst cmp a c.

Lemma Array_sort_sorted l : StronglySorted (comesFirst cmp) (Array_sort cmp l).
Proof.
  apply (Array_sort_sorted_on (fun _ => True)); [auto | eauto |].
  by apply Forall_forall.
Qed.

End Sorting.

Lemma StronglySorted_filter {A} (R : relation A) (P : A → Prop)
    `{∀ x, Decision (P x)} l :
  StronglySorted R l → StronglySorted R (filter P l).
Proof.
  induction 1 as [| x l Hl IH Hx]; [constructor |].
  rewrite filter_cons. case_decide; [| done].
  constructor; [done |]. apply Forall_forall.
  intros y [_ Hy]%list_elem_of_filter. by eapply Forall_forall in Hx.
Qed.

Lemma JSMap_set_fresh {V} k (v : V) m :
  k ∉ JSMap.keys m → JSMap.set k v m = m ++ [(k, v)].
Proof.
  unfold JSMap.keys. induction m as [| [k' v'] m IH]; simpl; [done |].
  intros [Hne Hk]%not_elem_of_cons.
  rewrite decide_False by done. by rewrite IH.
Qed.

(** Entries with distinct keys define their properties in order. *)
Lemma of_entries_NoDup {V} (l : list (string * V)) :
  NoDup l.*1 → JSMap.of_entries l = l.
Proof.
  unfold JSMap.of_entries, JSMap.empty.
  assert (∀ acc, NoDup (acc ++ l).*1 →
                 foldl (fun m kv => JSMap.set kv.1 kv.2 m) acc l = acc ++ l)
    as Hgen; [| apply (Hgen [])].
  induction l as [| [k v] l IH]; intros acc Hnd; simpl.
  - by rewrite app_nil_r.
  - rewrite JSMap_set_fresh.
    + rewrite IH; [by rewrite <- app_assoc |]. by rewrite <- app_assoc.
    + rewrite fmap_app in Hnd. apply NoDup_app in Hnd as (_ & Hd & _).
      intros Hk. apply (Hd k Hk). simpl. left.
Qed.

Lemma entries_same_key {V} (l : list (string * V)) a b :
  NoDup l.*1 → a ∈ l → b ∈ l → a.1 = b.1 → a = b.
Proof.
  induction l as [| x l IH]; simpl; intros Hnd Ha Hb Hk; [inv Ha |].
  apply NoDup_cons in Hnd as [Hx Hnd].
  apply elem_of_cons in Ha as [-> | Ha]; apply elem_of_cons in Hb as [-> | Hb];
    auto.
  - exfalso. apply Hx. rewrite Hk. by apply list_elem_of_fmap_2.
  - exfalso. apply Hx. rewrite <- Hk. by apply list_elem_of_fmap_2.
Qed.

Lemma ownProperties_perm {V} (o : JSMap.t V) : ownProperties o ≡ₚ o.
Proof.
  unfold ownProperties. rewrite Array_sort_perm.
  induction o as [| kv o IH]; [done |].
  rewrite !filter_cons. destruct (isArrayIndex kv.1) eqn:Hi.
  - rewrite decide_True, decide_False by done. simpl. by rewrite IH.
  - rewrite decide_False, decide_True by done.
    rewrite <- Permutation_middle. by rewrite IH.
Qed.

(** ** Whitespace *)

Lemma append_cons c s t : String c s +:+ t = String c (s +:+ t).
Proof. reflexivity. Qed.

Lemma append_assoc (a b c : string) : (a +:+ b) +:+ c = a +:+ (b +:+ c).
Proof.
  induction a as [| x a IH]; [done |]. by rewrite !append_cons, IH.
Qed.

Lemma minify_escapeChar c rest :
  minify Inside (escapeChar c +:+ rest) = escapeChar c +:+ minify Inside rest.
Proof. destruct c as [[] [] [] [] [] [] [] []]; reflexivity. Qed.

Lemma minify_escapeString s rest :
  minify Inside (escapeString s +:+ rest)
  = escapeString s +:+ minify Inside rest.
Proof.
  induction s as [| c s IH]; simpl; [done |].
  by rewrite !append_assoc, minify_escapeChar, IH.
Qed.

Lemma minify_quote s rest :
  minify Outside (QuoteJSONString s +:+ rest)
  = QuoteJSONString s +:+ minify Outside rest.
Proof.
  unfold QuoteJSONString. rewrite !append_cons, append_assoc. simpl.
  by rewrite minify_escapeString, append_assoc.
Qed.

Lemma minify_member kv rest :
  minify Outside (member true kv +:+ rest)
  = member false kv +:+ minify Outside rest.
Proof.
  unfold member. rewrite !append_assoc, minify_quote.
  change (minify Outside (": " +:+ ?x)) with (String ":" (minify Outside x)).
  by rewrite minify_quote.
Qed.

Lemma minify_join props rest :
  minify Outside
    (join ("," +:+ String newline "  ") (member true <$> props) +:+ rest)
  = join "," (member false <$> props) +:+ minify Outside rest.
Proof.
  induction props as [| kv props IH]; [done |].
  destruct props as [| kv' props].
  - simpl. apply minify_member.
  - change (join ?sep (member ?g <$> kv :: kv' :: props))
      with (member g kv +:+ sep +:+ join sep (member g <$> kv' :: props)).
    rewrite (append_assoc (member true kv)), minify_member.
    rewrite (append_assoc ("," +:+ String newline "  ")).
    change (minify Outside (("," +:+ String newline "  ") +:+ ?x))
      with (String "," (minify Outside x)).
    rewrite IH. by rewrite !append_assoc.
Qed.

Lemma minify_SerializeJSONObject props :
  minify Outside (SerializeJSONObject props true)
  = SerializeJSONObject props false.
Proof.
  unfold SerializeJSONObject. destruct props as [| kv props]; [done |].
  change ("{" +:+ String newline "  " +:+ ?x)
    with (String "{" (String newline (String " " (String " " x)))).
  change (minify Outside (String "{" (String newline (String " " (String " " ?x)))))
    with (String "{" (minify Outside x)).
  by rewrite minify_join.
Qed.

Lemma StronglySorted_weaken {A} (R R' : relation A) l :
  (∀ a b, R a b → R' a b) → StronglySorted R l → StronglySorted R' l.
Proof.
  intros HR. induction 1 as [| x l Hl IH Hx]; constructor; [done |].
  eapply Forall_impl; [exact Hx | auto].
Qed.

(** The claim of C5 as it is written fails on the key order: keys that are
    array indices are written first, in numeric order, wherever the sort put
    them; whatever the collation, [9] is written before [10], although it
    sorts after it. *)
Lemma manifest_index_keys_are_not_lexicographic :
  (∀ H : Host,
     getManifestJSON [("10", "a"); ("9", "b")] false
     = "{" +:+ QuoteJSONString "9" +:+ ":" +:+ QuoteJSONString "b" +:+ ","
       +:+ QuoteJSONString "10" +:+ ":" +:+ QuoteJSONString "a" +:+ "}")
  ∧ (∀ H : Host,
       (manifestProperties [("10", "a"); ("9", "b")]).*1 = ["9"; "10"])
  ∧ String.compare "9" "10" = Gt
  ∧ localeCompare (Host := exampleHost) "9" "10" = 1.
Proof.
  split_and!; [| | reflexivity..].
  - intros H. unfold getManifestJSON. simpl.
    destruct (localeCompare "10" "9" <=? 0); reflexivity.
  - intros H. unfold manifestProperties. simpl.
    destruct (localeCompare "10" "9" <=? 0); reflexivity.
Qed.

Lemma collates_entries `{Host} (m : JSMap.t string) :
  collates (JSMap.keys m) →
  StronglySorted (comesFirst (fun a b : string * string =>
                                localeCompare a.1 b.1))
    (Array_sort (fun a b => localeCompare a.1 b.1) m).
Proof.
  intros [Htotal Htrans].
  apply (Array_sort_sorted_on _ (fun kv => kv.1 ∈ JSMap.keys m)).
  - intros a b Ha Hb. by apply Htotal.
  - intros a b c Ha Hb Hc. by apply Htrans.
  - apply Forall_forall. intros kv Hkv. by apply list_elem_of_fmap_2.
Qed.

(** C5 (amended): for every map (its keys are distinct, as in a [Map]) the
    manifest holds exactly the entries of the map, the keys that are array
    indices first in numeric order, the other keys after them; and the
    formatted manifest differs from the compact one only by whitespace
    outside strings.  When [localeCompare] is a consistent comparison of the
    keys of the map, the other keys stand in its order; when it also tells
    the keys of the map apart, a map with the same entries gives the same
    manifest whatever the insertion order.  Nothing is asked of
    [localeCompare] on other strings. *)
Theorem manifest_is_deterministic `{Host} (m1 m2 : JSMap.t string)
    (format : bool) :
  NoDup (JSMap.keys m1) →
  getManifestJSON m1 format
  = SerializeJSONObject (manifestProperties m1) format
  ∧ manifestProperties m1 ≡ₚ m1
  ∧ (∃ idx rest,
       manifestProperties m1 = idx ++ rest
       ∧ Forall (fun kv => isArrayIndex kv.1 = true) idx
       ∧ Forall (fun kv => isArrayIndex kv.1 = false) rest
       ∧ StronglySorted (fun a b => indexOf a ≤ indexOf b) idx
       ∧ (collates (JSMap.keys m1) →
          StronglySorted (fun a b => localeCompare a.1 b.1 ≤ 0) rest))
  ∧ minify Outside (getManifestJSON m1 true) = getManifestJSON m1 false
  ∧ (collates (JSMap.keys m1) → tellsApart (JSMap.keys m1) → m1 ≡ₚ m2 →
     getManifestJSON m1 format = getManifestJSON m2 format).
Proof.
  intros Hnd.
  set (cmp := fun a b : string * string => localeCompare a.1 b.1).
  assert (Object_fromEntries (Array_sort cmp m1) = Array_sort cmp m1) as Hobj.
  { apply of_entries_NoDup. by rewrite Array_sort_perm. }
  split_and!.
  - done.
  - unfold manifestProperties. fold cmp.
    by rewrite ownProperties_perm, Hobj, Array_sort_perm.
  - unfold manifestProperties, ownProperties. fold cmp. rewrite Hobj.
    eexists _, _. split_and!; [done | | | |].
    + apply Forall_forall. intros kv Hkv. rewrite Array_sort_perm in Hkv.
      by apply list_elem_of_filter in Hkv as [? _].
    + apply Forall_forall. by intros kv [? _]%list_elem_of_filter.
    + eapply StronglySorted_weaken; [| apply Array_sort_sorted].
      * unfold comesFirst. intros a b. lia.
      * unfold comesFirst. intros a b. lia.
      * unfold comesFirst. intros a b c. lia.
    + intros Hcol. apply StronglySorted_filter. by apply collates_entries.
  - unfold getManifestJSON, JSON_stringify. apply minify_SerializeJSONObject.
  - intros [Htotal Htrans] Hanti Hperm.
    assert (Array_sort cmp m1 = Array_sort cmp m2) as Hsort.
    { apply (Array_sort_unique_on _ (fun kv => kv.1 ∈ JSMap.keys m1)).
      - intros a b Ha Hb. by apply Htotal.
      - intros a b c Ha Hb Hc. by apply Htrans.
      - apply Forall_forall. intros kv Hkv. by apply list_elem_of_fmap_2.
      - intros a b Ha Hb Hab Hba. apply (entries_same_key m1); auto.
        apply Hanti; auto; by apply list_elem_of_fmap_2.
      - done. }
    unfold getManifestJSON. fold cmp. by rewrite Hsort.
Qed.

Lemma exampleHost_compare a b :
  localeCompare (Host := exampleHost) a b ≤ 0 ↔ String.le a b.
Proof.
  unfold String.le, String.leb. simpl.
  destruct (String.compare a b); simpl; split; try done; lia.
Qed.

Lemma manifest_is_deterministic_witness :
  let m1 := [("main.js", "https://cdn/m.js");
             ("app.css", "https://cdn/a.css")] in
  let m2 := [("app.css", "https://cdn/a.css");
             ("main.js", "https://cdn/m.js")] in
  NoDup (JSMap.keys m1)
  ∧ collates (H := exampleHost) (JSMap.keys m1)
  ∧ tellsApart (H := exampleHost) (JSMap.keys m1)
  ∧ m1 ≡ₚ m2
  ∧ getManifestJSON (H := exampleHost) m1 false
    = SerializeJSONObject (manifestProperties (H := exampleHost) m1) false
  ∧ manifestProperties (H := exampleHost) m1 ≡ₚ m1
  ∧ (∃ idx rest,
       manifestProperties (H := exampleHost) m1 = idx ++ rest
       ∧ Forall (fun kv => isArrayIndex kv.1 = true) idx
       ∧ Forall (fun kv => isArrayIndex kv.1 = false) rest
       ∧ StronglySorted (fun a b => indexOf a ≤ indexOf b) idx
       ∧ StronglySorted
           (fun a b => localeCompare (Host := exampleHost) a.1 b.1 ≤ 0) rest)
  ∧ minify Outside (getManifestJSON (H := exampleHost) m1 true)
    = getManifestJSON (H := exampleHost) m1 false
  ∧ getManifestJSON (H := exampleHost) m1 false
    = getManifestJSON (H := exampleHost) m2 false.
Proof.
  intros m1 m2.
  assert (NoDup (JSMap.keys m1)) as Hnd.
  { apply NoDup_cons. split; [| apply NoDup_singleton].
    by intros [=]%list_elem_of_singleton. }
  assert (collates (H := exampleHost) (JSMap.keys m1)) as Hcol.
  { split.
    - intros a b _ _. rewrite !exampleHost_compare. apply String.le_total.
    - intros a b c _ _ _. rewrite !exampleHost_compare. apply transitivity. }
  assert (tellsApart (H := exampleHost) (JSMap.keys m1)) as Hapart.
  { intros a b _ _. rewrite !exampleHost_compare. apply anti_symm, _. }
  assert (m1 ≡ₚ m2) as Hperm by apply Permutation_swap.
  destruct (manifest_is_deterministic (H := exampleHost) m1 m2 false Hnd)
    as (Hser & Hexact & (idx & rest & Hsplit & Hidx & Hrest & Hnum & Hord)
        & Hflag & Hsame).
  split_and!; auto.
  exists idx, rest. split_and!; auto.
Defined.

(** ** Loading the cache *)

(** The claim of C3 as it is written fails: a cache file that holds
    malformed JSON makes the initialize hook throw. *)
Lemma initialize_malformed_throws :
  JSON_parse "{ not json" = None
  ∧ initializeHook (Some (inr "{ not json"))
      {| pAssetMap := ∅; pCache := JSMap.empty; pAssets := [] |}
    = inl SyntaxError.
Proof. split; reflexivity. Qed.

(** C3 (amended): a missing cache file leaves the empty cache in place and
    throws nothing; a cache file that [JSON.parse] rejects makes the
    initialize hook throw, which aborts an active build before anything
    else happens. *)
Theorem initialize_missing_or_malformed `{Host} (opts : options) (b : build) :
  (∀ s, initializeHook None s = inr s)
  ∧ (∀ text s, JSON_parse text = None →
               initializeHook (Some (inr text)) s = inl SyntaxError)
  ∧ (∀ text, isProduction (NODE_ENV b) (mode b) = true →
             cacheFile b = Some (inr text) → JSON_parse text = None →
             startBuild opts b
             = Aborted SyntaxError
                 {| pAssetMap := ∅; pCache := JSMap.empty;
                    pAssets := compilationAssets b |}).
Proof.
  split_and!.
  - done.
  - intros text s Hp. unfold initializeHook. by rewrite Hp.
  - intros text Hprod Hfile Hp. unfold startBuild. rewrite Hprod. simpl.
    rewrite Hfile. simpl. by rewrite Hp.
Qed.

Lemma JSMap_keys_set_NoDup {V} k (v : V) m :
  NoDup (JSMap.keys m) → NoDup (JSMap.keys (JSMap.set k v m)).
Proof.
  unfold JSMap.keys. induction m as [| [k' v'] m IH]; simpl.
  - intros _. apply NoDup_singleton.
  - intros [Hk Hm]%NoDup_cons. destruct (decide (k = k')) as [-> | Hne]; simpl.
    + by apply NoDup_cons.
    + apply NoDup_cons. split; [| auto].
      intros [? | ?]%(JSMap_keys_set k v m k'); [congruence | done].
Qed.

Lemma parseMembers_NoDup pv n acc s fields r :
  parseMembers pv n acc s = Some (VObj fields, r) →
  NoDup (JSMap.keys acc) → NoDup (JSMap.keys fields).
Proof.
  revert acc s. induction n as [| n IH]; intros acc s; simpl; [done |].
  intros Hp Hacc. repeat case_match; simplify_eq; eauto using JSMap_keys_set_NoDup.
Qed.

Lemma parseItems_not_object pv n acc s fields r :
  parseItems pv n acc s ≠ Some (VObj fields, r).
Proof.
  revert acc s. induction n as [| n IH]; intros acc s; simpl; [done |].
  repeat case_match; try done; apply IH.
Qed.

Lemma parseNumber_not_object s fields r :
  parseNumber s ≠ Some (VObj fields, r).
Proof. unfold parseNumber. repeat case_match; done. Qed.

Lemma parseValue_object_NoDup fuel s fields r :
  parseValue fuel s = Some (VObj fields, r) → NoDup (JSMap.keys fields).
Proof.
  destruct fuel as [| f]; [done |].
  cbn -[parseMembers parseItems parseNumber literal parseChars].
  intros Hp. repeat case_match; simplify_eq;
    try apply NoDup_nil_2;
    try (by eapply parseMembers_NoDup; [eassumption | apply NoDup_nil_2]);
    try (exfalso; by eapply parseItems_not_object);
    try (exfalso; by eapply parseNumber_not_object).
  all: unfold literal in *; repeat case_match; simplify_eq.
Qed.

Lemma JSON_parse_object_NoDup text fields :
  JSON_parse text = Some (VObj fields) → NoDup (JSMap.keys fields).
Proof.
  unfold JSON_parse. intros Hp.
  destruct (parseValue _ _) as [[v r] |] eqn:Hv; [| done].
  destruct (skipWs r); simplify_eq. by eapply parseValue_object_NoDup.
Qed.

Lemma JSMap_get_Some {V} k (v : V) m :
  NoDup (JSMap.keys m) → JSMap.get k m = Some v ↔ (k, v) ∈ m.
Proof.
  unfold JSMap.keys. induction m as [| [k' v'] m IH]; simpl.
  - intros _. split; [done | intros Hin; inv Hin].
  - intros [Hk Hm]%NoDup_cons. rewrite elem_of_cons.
    destruct (decide (k = k')) as [-> | Hne].
    + split; [intros [= ->]; by left |].
      intros [[= ->] | Hin]; [done |].
      exfalso. apply Hk. by apply (list_elem_of_fmap_2 fst) in Hin.
    + rewrite IH by done. split; [auto | intros [[= ? ?] | ?]; done].
Qed.

(** With distinct keys a lookup does not depend on the order of the
    entries. *)
Lemma JSMap_get_perm {V} k (m1 m2 : JSMap.t V) :
  NoDup (JSMap.keys m1) → m1 ≡ₚ m2 → JSMap.get k m1 = JSMap.get k m2.
Proof.
  intros Hnd Hperm.
  assert (NoDup (JSMap.keys m2)) as Hnd2.
  { unfold JSMap.keys in *. by rewrite <- Hperm. }
  destruct (JSMap.get k m1) as [v |] eqn:Hg.
  - symmetry. apply JSMap_get_Some; [done |]. rewrite <- Hperm.
    by apply JSMap_get_Some.
  - symmetry. apply JSMap_get_None. apply JSMap_get_None in Hg.
    unfold JSMap.keys in *. by rewrite <- Hperm.
Qed.

(** What the initialize hook makes of a cache file that holds an object:
    the fields of the object, looked up by key. *)
Lemma initialize_loads text fields s s' fp :
  JSON_parse text = Some (VObj fields) →
  initializeHook (Some (inr text)) s = inr s' →
  JSMap.get fp (pCache s') = JSMap.get fp fields.
Proof.
  intros Hp Hinit. pose proof (JSON_parse_object_NoDup _ _ Hp) as Hnd.
  unfold initializeHook in Hinit. rewrite Hp in Hinit. simpl in Hinit.
  simplify_eq/=.
  assert (NoDup (JSMap.keys (ownProperties fields))) as Hnd'.
  { unfold JSMap.keys in *. by rewrite ownProperties_perm. }
  rewrite of_entries_NoDup by done.
  apply JSMap_get_perm; [done | apply ownProperties_perm].
Qed.

(** ** The cycle: what a settled cache entry guarantees *)

Section Cycle.
Context `{Host}.
Variable opts : options.
Variable assetMap : gmap string content.
Variable cls : classes.

Lemma continues_refl w : continues w w.
Proof.
  exists []. rewrite app_nil_r. split_and!; [done | done | eauto |].
  intros f c e Hin. by apply elem_of_nil in Hin.
Qed.

Lemma continues_trans w1 w2 w3 :
  continues w1 w2 → continues w2 w3 → continues w1 w3.
Proof.
  intros (n1 & Ht1 & Hc1 & Hl1 & Hu1) (n2 & Ht2 & Hc2 & Hl2 & Hu2).
  exists (n1 ++ n2). split_and!.
  - by rewrite Ht2, Ht1, app_assoc.
  - auto.
  - intros fp l Hget Hl. destruct (Hl1 fp l Hget Hl) as (l' & Hl' & Hget').
    eauto.
  - intros f c e [Hin | Hin]%elem_of_app; [eauto |].
    specialize (Hu2 _ _ _ Hin).
    destruct (truthy (JSMap.lookup (md5 c) (urlCacheMap w1))) eqn:Ht; [| done].
    apply Hc1 in Ht. congruence.
Qed.

Lemma continues_emit e w :
  (∀ f c x, e = EUpload f c x →
            truthy (JSMap.lookup (md5 c) (urlCacheMap w)) = false) →
  continues w (emit e w).
Proof.
  intros He. exists [e]. split_and!; [done | done | eauto |].
  intros f c x Hin%list_elem_of_singleton. eauto.
Qed.

Lemma continues_setFiles f w : continues w (setFiles f w).
Proof.
  exists []. simpl. rewrite app_nil_r. split_and!; [done | done | eauto |].
  intros ? ? ? Hin. by apply elem_of_nil in Hin.
Qed.

Lemma continues_record name c url w :
  continues w (uploadFile_record opts name c url w).2.
Proof.
  unfold uploadFile_record. destruct url; try apply continues_refl.
  destruct (truthy (VStr s) && isString (VStr s)) eqn:Hu;
    [| apply continues_refl].
  apply andb_true_iff in Hu as [Hs _].
  assert (continues w (setMaps (JSMap.set name s (urlMap w))
                         (JSMap.set (md5 c) (VStr s) (urlCacheMap w)) w))
    as Hset.
  { exists []. simpl. rewrite app_nil_r. split_and!; [done | | |].
    - intros fp Hfp. destruct (decide (md5 c = fp)) as [<- | Hne].
      + by rewrite JSMap_lookup_set_eq.
      + by rewrite JSMap_lookup_set_ne.
    - intros fp l Hget Hl. destruct (decide (md5 c = fp)) as [<- | Hne].
      + exists s. rewrite JSMap_get_set_eq. split; [| done].
        simpl in Hs. apply negb_true_iff in Hs.
        by apply bool_decide_eq_false in Hs.
      + exists l. by rewrite JSMap_get_set_ne.
    - intros ? ? ? Hin. by apply elem_of_nil in Hin. }
  destruct (keepLocal opts); simpl; [done |].
  eapply continues_trans; [exact Hset |]. by apply continues_emit.
Qed.

Lemma continues_lookup name c w :
  continues w (uploadFile_lookup opts name c w).2.
Proof.
  unfold uploadFile_lookup.
  destruct (truthy (JSMap.lookup (md5 c) (urlCacheMap w))) eqn:Ht.
  - apply continues_record.
  - simpl. apply continues_emit. by intros f c' x [= _ <- _].
Qed.

Lemma continues_uploadFile name c ow w :
  continues w (uploadFile opts name c ow w).2.
Proof.
  unfold uploadFile. destruct ow; [| apply continues_lookup].
  simpl. by apply continues_emit.
Qed.

Lemma continues_resume p o w : continues w (resume opts p o w).2.
Proof.
  destruct p, o; simpl;
    try apply continues_refl; try apply continues_setFiles;
    try apply continues_record.
  eapply continues_trans; [apply continues_setFiles | apply continues_lookup].
Qed.

(** Resuming the activation called [name] resumes the first one of that
    name and leaves the others alone. *)
Lemma resumeTask_spec name o ts w :
  resumeTask opts name o ts w
  = match JSMap.get name ts with
    | Some t =>
        (JSMap.set name (resume opts t o w).1 ts, (resume opts t o w).2)
    | None => (ts, w)
    end.
Proof.
  induction ts as [| [n p] ts IH]; simpl; [done |].
  destruct (decide (n = name)) as [-> | Hne].
  - rewrite !decide_True by done. by destruct (resume opts p o w).
  - rewrite !decide_False by done. rewrite IH.
    destruct (JSMap.get name ts) as [t |]; [| done].
    simpl. by rewrite decide_False by done.
Qed.

Lemma continues_resumeTask name o ts w :
  continues w (resumeTask opts name o ts w).2.
Proof.
  induction ts as [| [n p] ts IH]; simpl; [apply continues_refl |].
  destruct (decide (n = name)).
  - pose proof (continues_resume p o w) as Hr.
    by destruct (resume opts p o w).
  - by destruct (resumeTask opts name o ts w).
Qed.

Lemma continues_launchOne p acc name :
  continues acc.2 (launchOne opts assetMap p acc name).2.
Proof.
  destruct acc as [ts w]. unfold launchOne. cbn [snd].
  destruct (assetMap !! name) as [c |]; [| apply continues_refl].
  destruct p.
  - pose proof (continues_uploadFile name c false w) as Hu.
    by destruct (uploadFile opts name c false w).
  - match goal with |- context [uploadFile opts name ?c' true ?w'] =>
      pose proof (continues_uploadFile name c' true w') as Hu;
      destruct (uploadFile opts name c' true w') end.
    cbn [snd] in *. eapply continues_trans; [| exact Hu].
    by apply continues_emit.
  - cbv zeta.
    match goal with |- context [uploadFile opts name ?c' true ?w'] =>
      pose proof (continues_uploadFile name c' true w') as Hu;
      destruct (uploadFile opts name c' true w') end.
    cbn [snd] in *. eapply continues_trans; [| exact Hu].
    by apply continues_emit.
  - cbn [snd]. eapply continues_trans; by apply continues_emit.
  - apply continues_refl.
Qed.

Lemma continues_launchAll p names acc :
  continues acc.2 (foldl (launchOne opts assetMap p) acc names).2.
Proof.
  revert acc. induction names as [| n names IH]; intros acc; simpl.
  - apply continues_refl.
  - eapply continues_trans; [apply continues_launchOne | apply IH].
Qed.

Lemma continues_launch p w : continues w (launch opts assetMap cls p w).2.
Proof.
  destruct p; simpl; try apply (continues_launchAll _ _ ([], w)).
  destruct (manifestFilename opts) as [| [|] | name]; simpl;
    try apply continues_refl.
  - by apply continues_emit.
  - case_bool_decide; simpl; [apply continues_refl | by apply continues_emit].
Qed.

Lemma continues_settlePhase queue p ts w :
  continues w (cworld (settlePhase opts assetMap cls queue p ts w)).
Proof.
  revert p ts w. induction queue as [| p' queue IH]; intros p ts w; simpl.
  - destruct (firstRejection ts); simpl; [apply continues_refl |].
    destruct (forallb _ ts); simpl; [by apply continues_emit |].
    apply continues_refl.
  - destruct (firstRejection ts); simpl; [apply continues_refl |].
    destruct (forallb _ ts); simpl; [| apply continues_refl].
    match goal with |- context [launch opts assetMap cls p' ?w1] =>
      pose proof (continues_launch p' w1) as Hl;
      destruct (launch opts assetMap cls p' w1) as [ts' w2] end.
    simpl in Hl.
    apply (continues_trans _ (emit (EBarrier p (urlMap w)) w));
      [by apply continues_emit |].
    eapply continues_trans; [exact Hl | apply IH].
Qed.

Lemma continues_step c ch :
  continues (cworld c) (cworld (step opts assetMap cls c ch)).
Proof.
  unfold step.
  pose proof (continues_resumeTask ch.1 ch.2 (ctasks c) (cworld c)) as Hr.
  destruct (resumeTask opts ch.1 ch.2 (ctasks c) (cworld c)) as [ts w].
  simpl in Hr. destruct (cstatus c); simpl; [| done..].
  eapply continues_trans; [exact Hr | apply continues_settlePhase].
Qed.

Lemma continues_run sched c :
  continues (cworld c) (cworld (run opts assetMap cls sched c)).
Proof.
  revert c. induction sched as [| ch sched IH]; intros c; simpl.
  - apply continues_refl.
  - eapply continues_trans; [apply continues_step | apply IH].
Qed.

Lemma continues_cycle sched w :
  continues w (cworld (cycle opts assetMap cls sched w)).
Proof.
  unfold cycle, afterEmit.
  pose proof (continues_launch PResource w) as Hl.
  destruct (launch opts assetMap cls PResource w) as [ts w1].
  eapply continues_trans; [exact Hl |].
  eapply continues_trans; [apply continues_settlePhase | apply continues_run].
Qed.

(** The lookup of a fingerprint that has a non-empty string in the cache
    reuses that string and does not call [uploadContent]. *)
Lemma lookup_hit name c l w :
  JSMap.get (md5 c) (urlCacheMap w) = Some (VStr l) → l ≠ "" →
  ∃ w', uploadFile_lookup opts name c w
        = (if keepLocal opts then Fulfilled else AwaitUnlink name, w')
      ∧ JSMap.get name (urlMap w') = Some l
      ∧ JSMap.get (md5 c) (urlCacheMap w') = Some (VStr l)
      ∧ files w' = files w
      ∧ trace w' = trace w ++ (if keepLocal opts then [] else [EUnlink name]).
Proof.
  intros Hget Hl. unfold uploadFile_lookup, JSMap.lookup. rewrite Hget. simpl.
  rewrite bool_decide_false by done. simpl.
  rewrite ?bool_decide_false by done. simpl.
  destruct (keepLocal opts); eexists; (split; [reflexivity |]); simpl;
    rewrite !JSMap_get_set_eq, ?app_nil_r; done.
Qed.

(** An upload that settles with a non-empty string records it, for the
    asset and for the fingerprint of the content. *)
Lemma settled_upload name f c l ts w :
  JSMap.get name ts = Some (AwaitUpload f c) → l ≠ "" →
  JSMap.get f (urlMap (resumeTask opts name (Resolve (VStr l)) ts w).2)
  = Some l
  ∧ JSMap.get (md5 c)
      (urlCacheMap (resumeTask opts name (Resolve (VStr l)) ts w).2)
    = Some (VStr l)
  ∧ trace (resumeTask opts name (Resolve (VStr l)) ts w).2
    = trace w ++ (if keepLocal opts then [] else [EUnlink f]).
Proof.
  intros Hget Hl. rewrite resumeTask_spec, Hget. simpl.
  unfold uploadFile_record. simpl. rewrite bool_decide_false by done. simpl.
  destruct (keepLocal opts); simpl;
    rewrite !JSMap_get_set_eq, ?app_nil_r; done.
Qed.

(** What a step leaves continues what its resumption left. *)
Lemma continues_after_resume c ch sched :
  continues (resumeTask opts ch.1 ch.2 (ctasks c) (cworld c)).2
            (cworld (run opts assetMap cls sched (step opts assetMap cls c ch))).
Proof.
  eapply continues_trans; [| apply continues_run].
  unfold step.
  destruct (resumeTask opts ch.1 ch.2 (ctasks c) (cworld c)) as [ts w].
  destruct (cstatus c); simpl;
    [apply continues_settlePhase | apply continues_refl..].
Qed.

End Cycle.

(** ** The cycle: what holds in every reachable configuration *)

Section Reachable.
Context `{Host}.
Variable opts : options.
Variable assetMap : gmap string content.
Variable cls : classes.

Lemma published_mono p p' n :
  (rank p ≤ rank p')%nat → published cls p n → published cls p' n.
Proof. intros Hle (q & Hq & Hn). exists q. split; [lia | done]. Qed.

Lemma published_here p n : n ∈ uploadNames cls p → published cls p n.
Proof. intros Hn. by exists p. Qed.

Lemma world_ok_mono p p' b b' w :
  (rank p ≤ rank p')%nat → (b ≤ b')%nat →
  world_ok opts cls p b w → world_ok opts cls p' b' w.
Proof.
  intros Hp Hb [H1 H2 H3 H4 H5 H6].
  split; eauto using published_mono.
  intros q um Hin. destruct (H4 _ _ Hin). split; [lia | done].
Qed.

Lemma world_ok_emit_plain p b e w :
  plain e → world_ok opts cls p b w → world_ok opts cls p b (emit e w).
Proof.
  intros He [H1 H2 H3 H4 H5 H6]. split; simpl; try done.
  - intros f c x Hin. trace_cases; eauto. done.
  - intros n m Hin. trace_cases; [keep_barrier H3 | done].
  - intros q um Hin. trace_cases; eauto. done.
  - intros q um um' Hin Hin'. trace_cases; eauto; done.
  - intros Hk k Hin. rewrite elem_of_app. auto.
Qed.

Lemma world_ok_emit_upload p b f c x w :
  published cls p f → world_ok opts cls p b w → world_ok opts cls p b (emit (EUpload f c x) w).
Proof.
  intros Hf [H1 H2 H3 H4 H5 H6]. split; simpl; try done.
  - intros f' c' x' Hin. trace_cases; eauto.
  - intros n m Hin. trace_cases. keep_barrier H3.
  - intros q um Hin. trace_cases; eauto.
  - intros q um um' Hin Hin'. trace_cases; eauto.
  - intros Hk k Hin. rewrite elem_of_app. auto.
Qed.

Lemma world_ok_emit_inject p b n w :
  EBarrier PStyle (urlMap w) ∈ trace w → world_ok opts cls p b w →
  world_ok opts cls p b (emit (EInject n (getManifestJSON (urlMap w) false)) w).
Proof.
  intros Hb [H1 H2 H3 H4 H5 H6]. split; simpl; try done.
  - intros f' c' x' Hin. trace_cases; eauto.
  - intros n' m Hin. trace_cases; [keep_barrier H3 |].
    exists (urlMap w). rewrite elem_of_app. auto.
  - intros q um Hin. trace_cases; eauto.
  - intros q um um' Hin Hin'. trace_cases; eauto.
  - intros Hk k Hin. rewrite elem_of_app. auto.
Qed.

Lemma world_ok_emit_barrier p w :
  world_ok opts cls p (rank p) w →
  world_ok opts cls p (S (rank p)) (emit (EBarrier p (urlMap w)) w).
Proof.
  intros [H1 H2 H3 H4 H5 H6]. split; simpl; try done.
  - intros f' c' x' Hin. trace_cases; eauto.
  - intros n' m Hin. trace_cases. keep_barrier H3.
  - intros q um Hin. trace_cases.
    + destruct (H4 _ _ Hin). split; [lia | done].
    + split; [lia | done].
  - intros q um um' Hin Hin'. trace_cases; eauto.
    + destruct (H4 _ _ Hin'). lia.
    + destruct (H4 _ _ Hin). lia.
  - intros Hk k Hin. rewrite elem_of_app. auto.
Qed.

Lemma world_ok_setFiles p b f w : world_ok opts cls p b w → world_ok opts cls p b (setFiles f w).
Proof. intros [H1 H2 H3 H4 H5 H6]. by split. Qed.

Lemma record_ok p b name c url w :
  name ∈ uploadNames cls p → world_ok opts cls p b w →
  world_ok opts cls p b (uploadFile_record opts name c url w).2
  ∧ task_ok cls p (name, (uploadFile_record opts name c url w).1).
Proof.
  intros Hn Hw. unfold uploadFile_record.
  destruct url; try done.
  destruct (truthy (VStr s) && isString (VStr s)); [| done].
  destruct (keepLocal opts) eqn:Hk; simpl.
  - split; [| done]. destruct Hw as [H1 H2 H3 H4 H5 H6]. split; simpl; try done.
    + intros k [-> | ?]%JSMap_keys_set; auto using published_here.
    + congruence.
  - split; [| done]. destruct Hw as [H1 H2 H3 H4 H5 H6]. split; simpl.
    + intros k [-> | ?]%JSMap_keys_set; auto using published_here.
    + intros f' c' x' Hin. trace_cases; eauto.
    + intros n' m Hin. trace_cases. keep_barrier H3.
    + intros q um Hin. trace_cases; eauto.
    + intros q um um' Hin Hin'. trace_cases; eauto.
    + intros _ k [-> | ?]%JSMap_keys_set; rewrite elem_of_app.
      * right. by apply list_elem_of_singleton.
      * auto.
Qed.

Lemma lookup_ok p b name c w :
  name ∈ uploadNames cls p → world_ok opts cls p b w →
  world_ok opts cls p b (uploadFile_lookup opts name c w).2
  ∧ task_ok cls p (name, (uploadFile_lookup opts name c w).1).
Proof.
  intros Hn Hw. unfold uploadFile_lookup.
  destruct (truthy _); [by apply record_ok |].
  split; [| done]. simpl. auto using world_ok_emit_upload, published_here.
Qed.

Lemma uploadFile_ok p b name c ow w :
  name ∈ uploadNames cls p → world_ok opts cls p b w →
  world_ok opts cls p b (uploadFile opts name c ow w).2
  ∧ task_ok cls p (name, (uploadFile opts name c ow w).1).
Proof.
  intros Hn Hw. unfold uploadFile. destruct ow; [| by apply lookup_ok].
  split; [| done]. simpl. by apply world_ok_emit_plain.
Qed.

Lemma resume_ok p b n t o w :
  task_ok cls p (n, t) → world_ok opts cls p b w →
  world_ok opts cls p b (resume opts t o w).2 ∧ task_ok cls p (n, (resume opts t o w).1).
Proof.
  intros Ht Hw. unfold task_ok in Ht. simpl in Ht.
  destruct t, o; simpl; try done.
  - exact (lookup_ok p b name c _ Ht (world_ok_setFiles _ _ _ _ Hw)).
  - exact (record_ok p b name c v w Ht Hw).
  - split; [by apply world_ok_setFiles | done].
  - split; [by apply world_ok_setFiles | done].
  - split; [by apply world_ok_setFiles | done].
Qed.

Lemma resumeTask_ok p b name o ts w :
  Forall (task_ok cls p) ts → world_ok opts cls p b w →
  world_ok opts cls p b (resumeTask opts name o ts w).2
  ∧ Forall (task_ok cls p) (resumeTask opts name o ts w).1.
Proof.
  intros Hts. revert w. induction Hts as [| [n t] ts Ht Hts IH]; intros w Hw.
  - done.
  - simpl. destruct (decide (n = name)).
    + destruct (resume_ok p b n t o w Ht Hw) as [? ?].
      destruct (resume opts t o w). simpl in *. auto.
    + destruct (IH w Hw) as [? ?].
      destruct (resumeTask opts name o ts w). simpl in *. auto.
Qed.

Lemma launchOne_ok p b ts w name :
  (p = PDocument ∨ name ∈ uploadNames cls p) →
  (p = PEntry → EBarrier PStyle (urlMap w) ∈ trace w) →
  world_ok opts cls p b w → Forall (task_ok cls p) ts →
  world_ok opts cls p b (launchOne opts assetMap p (ts, w) name).2
  ∧ Forall (task_ok cls p) (launchOne opts assetMap p (ts, w) name).1
  ∧ (p = PEntry →
     EBarrier PStyle (urlMap (launchOne opts assetMap p (ts, w) name).2)
     ∈ trace (launchOne opts assetMap p (ts, w) name).2).
Proof.
  intros Hn Hb Hw Hts. unfold launchOne.
  destruct (assetMap !! name) as [c |]; cbv beta iota.
  2: { split_and!; [done | | done]. apply Forall_app. split; [done |].
       by apply Forall_singleton. }
  destruct p; try (destruct Hn as [? | Hn]; [done |]).
  - destruct (uploadFile_ok PResource b name c false w Hn Hw) as [? ?].
    destruct (uploadFile opts name c false w). simpl in *.
    split_and!; [done | | done]. apply Forall_app. split; [done |].
    by apply Forall_singleton.
  - unfold uploadFile. simpl. split_and!; [| | done].
    + apply world_ok_emit_plain; [done |]. by apply world_ok_emit_plain.
    + apply Forall_app. split; [done |]. by apply Forall_singleton.
  - unfold uploadFile. simpl. specialize (Hb eq_refl). split_and!.
    + apply world_ok_emit_plain; [done |]. by apply world_ok_emit_inject.
    + apply Forall_app. split; [done |]. by apply Forall_singleton.
    + intros _. rewrite !elem_of_app. auto.
  - simpl. split_and!; [| | done].
    + apply world_ok_emit_plain; [done |]. by apply world_ok_emit_plain.
    + apply Forall_app. split; [done |]. by apply Forall_singleton.
  - inv Hn.
Qed.

Lemma launchAll_ok p b names acc :
  (∀ n, n ∈ names → p = PDocument ∨ n ∈ uploadNames cls p) →
  (p = PEntry → EBarrier PStyle (urlMap acc.2) ∈ trace acc.2) →
  world_ok opts cls p b acc.2 → Forall (task_ok cls p) acc.1 →
  world_ok opts cls p b (foldl (launchOne opts assetMap p) acc names).2
  ∧ Forall (task_ok cls p) (foldl (launchOne opts assetMap p) acc names).1.
Proof.
  revert acc. induction names as [| n names IH]; intros [ts w] Hn Hb Hw Hts;
    simpl in *; [done |].
  destruct (launchOne_ok p b ts w n) as (? & ? & ?); auto.
  { apply Hn. by left. }
  apply IH; auto. intros. apply Hn. by right.
Qed.

Lemma launch_ok p b w :
  (p = PEntry → EBarrier PStyle (urlMap w) ∈ trace w) →
  world_ok opts cls p b w →
  world_ok opts cls p b (launch opts assetMap cls p w).2
  ∧ Forall (task_ok cls p) (launch opts assetMap cls p w).1.
Proof.
  intros Hb Hw.
  destruct p; simpl; try (apply (launchAll_ok _ _ _ ([], w)); auto; fail).
  destruct (manifestFilename opts) as [| [|] | name]; simpl; try done.
  - split; [by apply world_ok_emit_plain | by apply Forall_singleton].
  - case_bool_decide; simpl; [done |].
    split; [by apply world_ok_emit_plain | by apply Forall_singleton].
Qed.

Lemma settlePhase_ok queue p ts w :
  queue = phasesAfter p → world_ok opts cls p (rank p) w → Forall (task_ok cls p) ts →
  config_ok opts cls (settlePhase opts assetMap cls queue p ts w).
Proof.
  revert p ts w. induction queue as [| p' queue IH]; intros p ts w Hq Hw Hts;
    simpl.
  - destruct (firstRejection ts); [by split_and! |].
    destruct (forallb _ ts); [| by split_and!].
    split_and!; simpl; [| done..].
    destruct p; try discriminate. by apply world_ok_emit_barrier in Hw.
  - destruct (firstRejection ts); [by split_and! |].
    destruct (forallb _ ts); [| by split_and!].
    assert (rank p' = S (rank p) ∧ queue = phasesAfter p'
            ∧ (p' = PEntry → p = PStyle)) as (Hr & Hq' & Hp).
    { destruct p; simplify_eq/=; done. }
    apply world_ok_emit_barrier in Hw.
    apply (world_ok_mono _ p' _ (rank p')) in Hw; [| lia..].
    assert (p' = PEntry →
            EBarrier PStyle (urlMap (emit (EBarrier p (urlMap w)) w))
            ∈ trace (emit (EBarrier p (urlMap w)) w)) as Hb.
    { intros ->%Hp. simpl. rewrite elem_of_app. right.
      by apply list_elem_of_singleton. }
    destruct (launch_ok p' (rank p') _ Hb Hw) as [Hw2 Hts2].
    destruct (launch opts assetMap cls p' _) as [ts' w2]. by apply IH.
Qed.

Lemma step_ok c ch : config_ok opts cls c → config_ok opts cls (step opts assetMap cls c ch).
Proof.
  intros (Hw & Hts & Hq). unfold step.
  destruct (cstatus c) eqn:Hs.
  - destruct (resumeTask_ok _ _ ch.1 ch.2 _ _ Hts Hw) as [? ?].
    destruct (resumeTask opts ch.1 ch.2 (ctasks c) (cworld c)).
    by apply settlePhase_ok.
  - destruct (resumeTask_ok _ _ ch.1 ch.2 _ _ Hts Hw) as [? ?].
    destruct (resumeTask opts ch.1 ch.2 (ctasks c) (cworld c)).
    by split_and!.
  - destruct (resumeTask_ok _ _ ch.1 ch.2 _ _ Hts Hw) as [? ?].
    destruct (resumeTask opts ch.1 ch.2 (ctasks c) (cworld c)).
    by split_and!.
Qed.

Lemma run_ok sched c :
  config_ok opts cls c → config_ok opts cls (run opts assetMap cls sched c).
Proof.
  revert c. induction sched as [| ch sched IH]; intros c Hc; simpl; [done |].
  by apply IH, step_ok.
Qed.

(** The cycle starts with a fresh [urlMap] (line 103) and nothing done. *)
Lemma afterEmit_ok w :
  urlMap w = JSMap.empty → trace w = [] →
  config_ok opts cls (afterEmit opts assetMap cls w).
Proof.
  intros Hu Ht. unfold afterEmit.
  assert (world_ok opts cls PResource 0 w) as Hw.
  { split; rewrite ?Hu, ?Ht; unfold JSMap.keys, JSMap.empty; simpl; intros;
      match goal with Hin : _ ∈ [] |- _ => inv Hin end. }
  destruct (launch_ok PResource 0 w) as [? ?]; [done.. |].
  destruct (launch opts assetMap cls PResource w). by apply settlePhase_ok.
Qed.

End Reachable.

(** ** The claims about the cycle *)

(** The claim of C1 as it is written fails: two resources of one phase
    with identical bytes are both looked up before either upload settles, so
    [uploadContent] is called twice for one fingerprint, whatever the host;
    with the stand-in host the cycle then completes with both uploads made. *)
Lemma twin_resources_are_uploaded_twice :
  (∀ H : Host,
     trace (cworld (afterEmit plainOptions twinAssets twinClasses twinWorld))
     = [EUpload "a.png" (Buffer "PNG") (path_extname "a.png");
        EUpload "b.png" (Buffer "PNG") (path_extname "b.png")])
  ∧ cstatus twinCycle = Completed
  ∧ uploadCalls (H := exampleHost) (md5 (Host := exampleHost) (Buffer "PNG"))
      (trace (cworld twinCycle)) = 2%nat.
Proof. split_and!; [intros H; reflexivity | vm_compute; reflexivity..]. Qed.

(** C1 (amended): from any configuration on, and over a whole cycle from
    the cache it starts with, every call of [uploadContent] carries content
    whose fingerprint had no truthy value in the cache at that start, a
    truthy cached value stays truthy and a cached location (a non-empty
    string) stays a location; a lookup that finds a location records it for
    the asset and calls nothing; an upload that settles with a location
    records it under the fingerprint of its content, and from then on the
    cache holds a location for that fingerprint, no call of [uploadContent]
    carries content with it, and an activation whose overwrite settles with
    content of that fingerprint takes the cached location; in particular a
    fingerprint
    that the cache file gives a non-empty string is never uploaded by the
    build that read the file.  (Activations of one phase whose lookups all
    precede the first settled upload are not covered: each of them calls
    [uploadContent].) *)
Theorem cached_fingerprint_is_not_uploaded_again `{Host} (opts : options)
    (assetMap : gmap string content) (cls : classes)
    (sched : list (string * outcome)) :
  (∀ c, ∃ new,
      trace (cworld (run opts assetMap cls sched c)) = trace (cworld c) ++ new
      ∧ (∀ fp, truthy (JSMap.lookup fp (urlCacheMap (cworld c))) = true →
               truthy (JSMap.lookup fp
                         (urlCacheMap (cworld (run opts assetMap cls sched c))))
               = true)
      ∧ (∀ fp l, JSMap.get fp (urlCacheMap (cworld c)) = Some (VStr l) →
                 l ≠ "" →
                 ∃ l', l' ≠ ""
                       ∧ JSMap.get fp
                           (urlCacheMap
                              (cworld (run opts assetMap cls sched c)))
                         = Some (VStr l'))
      ∧ (∀ f content e, EUpload f content e ∈ new →
           truthy (JSMap.lookup (md5 content) (urlCacheMap (cworld c)))
           = false))
  ∧ (∀ w, ∃ new,
      trace (cworld (cycle opts assetMap cls sched w)) = trace w ++ new
      ∧ (∀ f content e, EUpload f content e ∈ new →
           truthy (JSMap.lookup (md5 content) (urlCacheMap w)) = false))
  ∧ (∀ name content l w,
      JSMap.get (md5 content) (urlCacheMap w) = Some (VStr l) → l ≠ "" →
      ∃ w', uploadFile_lookup opts name content w
            = (if keepLocal opts then Fulfilled else AwaitUnlink name, w')
          ∧ JSMap.get name (urlMap w') = Some l
          ∧ trace w'
            = trace w ++ (if keepLocal opts then [] else [EUnlink name]))
  ∧ (∀ c name f content l,
      JSMap.get name (ctasks c) = Some (AwaitUpload f content) → l ≠ "" →
      (JSMap.get f
         (urlMap (resumeTask opts name (Resolve (VStr l)) (ctasks c)
                    (cworld c)).2) = Some l
       ∧ JSMap.get (md5 content)
           (urlCacheMap (resumeTask opts name (Resolve (VStr l)) (ctasks c)
                           (cworld c)).2) = Some (VStr l))
      ∧ ∃ l' new,
          l' ≠ ""
          ∧ JSMap.get (md5 content)
              (urlCacheMap
                 (cworld (run opts assetMap cls sched
                            (step opts assetMap cls c
                               (name, Resolve (VStr l))))))
            = Some (VStr l')
          ∧ trace (cworld (run opts assetMap cls sched
                             (step opts assetMap cls c
                                (name, Resolve (VStr l)))))
            = trace (cworld c) ++ new
          ∧ (∀ f' content' e, EUpload f' content' e ∈ new →
                              md5 content' ≠ md5 content)
          ∧ ∀ name' f' content' v,
              let c' := run opts assetMap cls sched
                          (step opts assetMap cls c
                             (name, Resolve (VStr l))) in
              JSMap.get name' (ctasks c') = Some (AwaitOverwrite f' content') →
              md5 content' = md5 content →
              (resumeTask opts name' (Resolve v) (ctasks c') (cworld c')).1
              = JSMap.set name'
                  (if keepLocal opts then Fulfilled else AwaitUnlink f')
                  (ctasks c')
              ∧ JSMap.get f'
                  (urlMap (resumeTask opts name' (Resolve v) (ctasks c')
                             (cworld c')).2) = Some l'
              ∧ trace (resumeTask opts name' (Resolve v) (ctasks c')
                         (cworld c')).2
                = trace (cworld c')
                  ++ (if keepLocal opts then [] else [EUnlink f']))
  ∧ (∀ b text fields fp l s c,
      cacheFile b = Some (inr text) → JSON_parse text = Some (VObj fields) →
      JSMap.get fp fields = Some (VStr l) → l ≠ "" →
      startBuild opts b = Publishing s c →
      ∀ f content e,
        EUpload f content e
          ∈ trace (cworld (run opts (pAssetMap s) (classify (buildStats b))
                             sched c)) →
        md5 content ≠ fp).
Proof.
  split_and!.
  - intros c. apply continues_run.
  - intros w. destruct (continues_cycle opts assetMap cls sched w)
      as (new & ? & _ & _ & ?).
    by exists new.
  - intros name content l w Hget Hl.
    destruct (lookup_hit opts name content l w Hget Hl)
      as (w' & ? & ? & _ & _ & ?).
    by exists w'.
  - intros c name f content l Hget Hl.
    destruct (settled_upload opts name f content l (ctasks c) (cworld c)
                Hget Hl) as (Hurl & Hfp & Htr).
    split; [done |].
    destruct (continues_after_resume opts assetMap cls c
                (name, Resolve (VStr l)) sched)
      as (new & Hnew & _ & Hloc & Hup).
    cbn [fst snd] in *.
    destruct (Hloc _ _ Hfp Hl) as (l' & Hl' & Hget').
    exists l', ((if keepLocal opts then [] else [EUnlink f]) ++ new).
    split_and!; [done | done | by rewrite Hnew, Htr, app_assoc | |].
    + intros f' content' e [Hin | Hin]%elem_of_app.
      * destruct (keepLocal opts); [by apply elem_of_nil in Hin |].
        by apply list_elem_of_singleton in Hin.
      * intros Heq. specialize (Hup _ _ _ Hin).
        unfold JSMap.lookup in Hup. rewrite Heq, Hfp in Hup. simpl in Hup.
        by rewrite bool_decide_false in Hup.
    + intros name' f' content' v. cbv zeta. intros Htask Heq.
      rewrite resumeTask_spec, Htask. simpl.
      match goal with |- context [uploadFile_lookup opts f' content' ?w1] =>
        destruct (lookup_hit opts f' content' l' w1)
          as (w' & Hlook & Hurl' & _ & _ & Htr') end; [by rewrite Heq | done |].
      rewrite Hlook. by split_and!.
  - intros b text fields fp l s c Hfile Hparse Hget Hl Hstart f content e Hin.
    unfold startBuild in Hstart.
    destruct (isProduction _ _); [| done]. simpl in Hstart. rewrite Hfile in Hstart.
    destruct (initializeHook (Some (inr text)) _) as [? | s1] eqn:Hinit; [done |].
    unfold thisCompilationHook in Hstart.
    destruct (truthy (publicPath b)); [done |]. simpl in Hstart.
    injection Hstart as <- <-. simpl in Hin.
    pose proof (initialize_loads _ _ _ _ fp Hparse Hinit) as Hload.
    intros Heq.
    match type of Hin with
    | _ ∈ trace (cworld (run _ ?am ?cl _ (afterEmit _ _ _ ?w0))) =>
        destruct (continues_cycle opts am cl sched w0)
          as (new & Htr & _ & _ & Hnew)
    end.
    unfold cycle in Htr. rewrite Htr in Hin. simpl in Hin.
    specialize (Hnew _ _ _ Hin). simpl in Hnew.
    unfold JSMap.lookup in Hnew. rewrite Heq, Hload, Hget in Hnew.
    simpl in Hnew. by rewrite bool_decide_false in Hnew.
Qed.





(** In the document phase and after it no activation touches the maps. *)
Lemma document_steps_keep_maps `{Host} (opts : options)
    (assetMap : gmap string content) (cls : classes) (c : config) ch :
  config_ok opts cls c → cphase c = PDocument ∨ cphase c = PManifest →
  urlMap (cworld (step opts assetMap cls c ch)) = urlMap (cworld c)
  ∧ urlCacheMap (cworld (step opts assetMap cls c ch)) = urlCacheMap (cworld c).
Proof.
  intros (_ & Hts & Hq) Hp. unfold step.
  assert (∀ ts w, Forall (task_ok cls (cphase c)) ts →
            urlMap (resumeTask opts ch.1 ch.2 ts w).2 = urlMap w
            ∧ urlCacheMap (resumeTask opts ch.1 ch.2 ts w).2 = urlCacheMap w)
    as Hres.
  { intros ts w Hok. induction Hok as [| [n t] ts Ht _ IH]; simpl; [done |].
    destruct (decide (n = ch.1)).
    - unfold task_ok in Ht. simpl in Ht.
      destruct t, (ch.2); simpl; try done;
        destruct Hp as [Hp | Hp]; rewrite Hp in Ht; simpl in Ht;
        solve [inv Ht | done].
    - by destruct (resumeTask opts ch.1 ch.2 ts w). }
  specialize (Hres (ctasks c) (cworld c) Hts).
  destruct (resumeTask opts ch.1 ch.2 (ctasks c) (cworld c)) as [ts w].
  simpl in Hres. destruct Hres as [Hu Hc].
  destruct (cstatus c); simpl; [| done..].
  rewrite Hq. destruct Hp as [-> | ->]; simpl.
  - destruct (firstRejection ts); simpl; [done |].
    destruct (forallb _ ts); simpl; [| done].
    destruct (manifestFilename opts) as [| [|] | name]; simpl;
      try case_bool_decide; simpl;
      repeat (destruct (firstRejection _); simpl; try done);
      repeat (destruct (forallb _ _); simpl; try done); auto.
  - destruct (firstRejection ts); simpl; [done |].
    destruct (forallb _ ts); simpl; auto.
Qed.

(** C7: a document name is never the file of an [uploadContent] call and
    never a key of [urlMap]; while the document phase runs, no step changes
    [urlMap] or the cache. *)
Theorem documents_are_never_uploaded `{Host} (opts : options)
    (assetMap : gmap string content) (st : stats)
    (sched : list (string * outcome)) (w : world) (n : string) :
  urlMap w = JSMap.empty → trace w = [] →
  n ∈ htmlNames (classify st) →
  (∀ c e, EUpload n c e
          ∉ trace (cworld (cycle opts assetMap (classify st) sched w)))
  ∧ JSMap.get n (urlMap (cworld (cycle opts assetMap (classify st) sched w)))
    = None
  ∧ (cphase (cycle opts assetMap (classify st) sched w) = PDocument →
     ∀ ch,
       urlMap (cworld (step opts assetMap (classify st)
                         (cycle opts assetMap (classify st) sched w) ch))
       = urlMap (cworld (cycle opts assetMap (classify st) sched w))
       ∧ urlCacheMap (cworld (step opts assetMap (classify st)
                                (cycle opts assetMap (classify st) sched w) ch))
         = urlCacheMap (cworld (cycle opts assetMap (classify st) sched w))).
Proof.
  intros Hu Ht Hn.
  pose proof (run_ok opts assetMap (classify st) sched _
                (afterEmit_ok opts assetMap (classify st) w Hu Ht)) as Hok.
  fold (cycle opts assetMap (classify st) sched w) in Hok.
  assert (∀ p, ¬ published (classify st) p n) as Hnot.
  { intros p (q & _ & Hq).
    destruct (classify_disjoint st n) as (Hep & Hst & Hht).
    destruct q; simpl in Hq; try solve [inv Hq]; tauto. }
  destruct Hok as ([Hurls Hup _ _ _ _] & Hts & Hq).
  split_and!.
  - intros c e Hin. eapply Hnot, Hup, Hin.
  - apply JSMap_get_None. intros Hin. eapply Hnot, Hurls, Hin.
  - intros Hp ch. apply document_steps_keep_maps; [| by left].
    pose proof (run_ok opts assetMap (classify st) sched _
                  (afterEmit_ok opts assetMap (classify st) w Hu Ht)) as Hok.
    exact Hok.
Qed.

Lemma documents_are_never_uploaded_witness :
  (∀ c e, EUpload "index.html" c e
          ∉ trace (cworld (cycle (H := exampleHost) siteOptions siteAssets
                             (classify siteStats) siteSchedule siteWorld)))
  ∧ JSMap.get "index.html"
      (urlMap (cworld (cycle (H := exampleHost) siteOptions siteAssets
                         (classify siteStats) siteSchedule siteWorld)))
    = None
  ∧ (cphase (cycle (H := exampleHost) siteOptions siteAssets
               (classify siteStats) siteSchedule siteWorld) = PDocument →
     ∀ ch,
       urlMap (cworld (step (H := exampleHost) siteOptions siteAssets
                         (classify siteStats)
                         (cycle (H := exampleHost) siteOptions siteAssets
                            (classify siteStats) siteSchedule siteWorld) ch))
       = urlMap (cworld (cycle (H := exampleHost) siteOptions siteAssets
                           (classify siteStats) siteSchedule siteWorld))
       ∧ urlCacheMap
           (cworld (step (H := exampleHost) siteOptions siteAssets
                      (classify siteStats)
                      (cycle (H := exampleHost) siteOptions siteAssets
                         (classify siteStats) siteSchedule siteWorld) ch))
         = urlCacheMap
             (cworld (cycle (H := exampleHost) siteOptions siteAssets
                        (classify siteStats) siteSchedule siteWorld))).
Proof.
  apply (documents_are_never_uploaded (H := exampleHost) siteOptions
           siteAssets siteStats siteSchedule siteWorld "index.html").
  - reflexivity.
  - reflexivity.
  - vm_compute. apply list_elem_of_here.
Defined.

(** ** Reading back what [JSON.stringify] wrote *)

Lemma parseChars_u h1 h2 h3 h4 u r :
  hex4 h1 h2 h3 h4 = Some u → isHighSurrogate u = false →
  parseChars (String "\" (String "u" (String h1 (String h2 (String h3
                (String h4 r))))))
  = prepend (utf8 u) (parseChars r).
Proof.
  intros Hhex Hhigh.
  change (parseChars (String "\" (String "u" (String h1 (String h2 (String h3
                (String h4 r)))))))
    with (match hex4 h1 h2 h3 h4 with
          | None => None
          | Some u =>
              match r with
              | String b (String v (String l1 (String l2
                  (String l3 (String l4 r3))))) =>
                  match hex4 l1 l2 l3 l4 with
                  | Some lo =>
                      if isHighSurrogate u && Ascii.eqb b "\"
                         && Ascii.eqb v "u" && isLowSurrogate lo
                      then prepend
                             (utf8 (65536 + (u - 55296) * 1024
                                    + (lo - 56320)))
                             (parseChars r3)
                      else prepend (utf8 u) (parseChars r)
                  | None => prepend (utf8 u) (parseChars r)
                  end
              | _ => prepend (utf8 u) (parseChars r)
              end
          end).
  rewrite Hhex, Hhigh.
  destruct r as [| b [| v [| l1 [| l2 [| l3 [| l4 r3]]]]]]; try reflexivity.
  simpl. by destruct (hex4 l1 l2 l3 l4).
Qed.

Lemma parseChars_escapeChar c t :
  parseChars (escapeChar c +:+ t) = prepend (String c "") (parseChars t).
Proof.
  destruct c as [[] [] [] [] [] [] [] []];
    try reflexivity.
  all: match goal with |- parseChars (escapeChar ?c +:+ _) = _ =>
         let s := eval vm_compute in (escapeChar c) in
         change (escapeChar c) with s end.
  all: cbv [String.append].
  all: by erewrite parseChars_u by reflexivity.
Qed.

Lemma parseChars_escapeString s rest :
  parseChars (escapeString s +:+ String dquote rest) = Some (s, rest).
Proof.
  induction s as [| c s IH]; [reflexivity |].
  simpl. by rewrite append_assoc, parseChars_escapeChar, IH.
Qed.

Lemma QuoteJSONString_append s rest :
  QuoteJSONString s +:+ rest
  = String dquote (escapeString s +:+ String dquote rest).
Proof. unfold QuoteJSONString. by rewrite append_cons, append_assoc. Qed.

Lemma parseValue_quote f s rest :
  parseValue (S f) (QuoteJSONString s +:+ rest) = Some (VStr s, rest).
Proof.
  rewrite QuoteJSONString_append.
  cbn -[parseMembers parseItems parseNumber literal parseChars].
  by rewrite parseChars_escapeString.
Qed.

Lemma skipWs_quote s rest :
  skipWs (QuoteJSONString s +:+ rest) = QuoteJSONString s +:+ rest.
Proof. by rewrite QuoteJSONString_append. Qed.


Lemma parseMembers_member pv gap k v acc Y n :
  (∀ v r, pv (QuoteJSONString v +:+ r) = Some (VStr v, r)) →
  parseMembers pv (S n) acc (member gap (k, v) +:+ Y)
  = match skipWs Y with
    | String d r4 =>
        if Ascii.eqb d "," then
          parseMembers pv n (JSMap.set k (VStr v) acc) (skipWs r4)
        else if Ascii.eqb d "}" then Some (VObj (JSMap.set k (VStr v) acc), r4)
        else None
    | EmptyString => None
    end.
Proof.
  intros Hpv. unfold member. cbn [fst snd].
  rewrite append_assoc, QuoteJSONString_append.
  cbn -[parseChars skipWs]. rewrite parseChars_escapeString.
  destruct gap.
  - rewrite (append_assoc ": ").
    change (skipWs (": " +:+ ?x)) with (String ":" (String " " x)).
    cbn -[parseChars skipWs].
    change (skipWs (String " " ?x)) with (skipWs x).
    by rewrite skipWs_quote, Hpv.
  - rewrite (append_assoc ":").
    change (skipWs (":" +:+ ?x)) with (String ":" x).
    cbn -[parseChars skipWs].
    by rewrite skipWs_quote, Hpv.
Qed.

Lemma join_cons_cons sep (x y : string) l :
  join sep (x :: y :: l) = x +:+ sep +:+ join sep (y :: l).
Proof. reflexivity. Qed.

Lemma skipWs_join gap sep kv props rest :
  skipWs (join sep (member gap <$> kv :: props) +:+ rest)
  = join sep (member gap <$> kv :: props) +:+ rest.
Proof.
  destruct props as [| kv' props]; simpl fmap.
  - simpl join. unfold member. by rewrite append_assoc, skipWs_quote.
  - rewrite join_cons_cons. generalize (member gap kv'). intros m.
    unfold member. by rewrite !append_assoc, skipWs_quote.
Qed.

Lemma parseMembers_props pv (gap : bool) props acc rest n :
  (∀ v r, pv (QuoteJSONString v +:+ r) = Some (VStr v, r)) →
  props ≠ [] → (length props ≤ n)%nat →
  parseMembers pv n acc
    (join (if gap then "," +:+ String newline "  " else ",")
          (member gap <$> props)
     +:+ (if gap then String newline "}" else "}") +:+ rest)
  = Some (VObj (foldl (fun m kv => JSMap.set kv.1 (VStr kv.2) m) acc props),
          rest).
Proof.
  intros Hpv. revert acc n.
  induction props as [| [k v] props IH]; intros acc n Hne Hn; [done |].
  destruct n as [| n]; [simpl in Hn; lia |].
  destruct props as [| kv' props].
  - simpl fmap. simpl join. rewrite parseMembers_member by done.
    by destruct gap.
  - rewrite !fmap_cons, join_cons_cons, <- (fmap_cons (member gap) kv').
    rewrite !append_assoc.
    rewrite parseMembers_member by done.
    assert (∀ X, skipWs ((if gap then "," +:+ String newline "  " else ",") +:+ X)
                 = String "," ((if gap then String newline "  " else "") +:+ X))
      as -> by (by destruct gap).
    cbn -[skipWs parseMembers join fmap].
    assert (∀ X, skipWs ((if gap then String newline "  " else "") +:+ X) = skipWs X)
      as -> by (by destruct gap).
    rewrite <- !append_assoc. rewrite (append_assoc (join _ _)).
    rewrite skipWs_join.
    rewrite IH; [done | done |]. simpl in *. lia.
Qed.

Lemma length_append (a b : string) :
  String.length (a +:+ b) = (String.length a + String.length b)%nat.
Proof.
  induction a as [| c a IH]; [done |].
  rewrite append_cons. simpl. by rewrite IH.
Qed.

Lemma length_members gap sep props rest :
  (length props
   ≤ String.length (join sep (member gap <$> props) +:+ rest))%nat.
Proof.
  induction props as [| kv props IH]; [simpl; lia |].
  assert (1 ≤ String.length (member gap kv))%nat as Hm.
  { unfold member. rewrite QuoteJSONString_append. simpl. lia. }
  destruct props as [| kv' props].
  - simpl. rewrite length_append. lia.
  - rewrite !fmap_cons, join_cons_cons, <- (fmap_cons (member gap) kv').
    rewrite !append_assoc, length_append.
    rewrite (length_append sep). simpl in *. lia.
Qed.

(** [JSON.parse] reads the text [JSON.stringify] gives for an object of
    strings back as the object with the same properties in the same
    order. *)
Lemma JSON_parse_SerializeJSONObject props gap :
  JSON_parse (SerializeJSONObject props gap)
  = Some (VObj (foldl (fun m kv => JSMap.set kv.1 (VStr kv.2) m) [] props)).
Proof.
  unfold SerializeJSONObject. destruct props as [| kv props]; [reflexivity |].
  unfold JSON_parse.
  set (ms := member gap <$> kv :: props).
  assert (∀ (text : string) X,
            text = String "{" X →
            skipWs X = join (if gap then "," +:+ String newline "  " else ",") ms
                       +:+ (if gap then String newline "}" else "}") +:+ "" →
            match parseValue (S (String.length text)) (skipWs text) with
            | Some (v, r) =>
                match skipWs r with
                | EmptyString => Some v
                | String _ _ => None
                end
            | None => None
            end
            = Some (VObj (foldl (fun m kv => JSMap.set kv.1 (VStr kv.2) m) []
                            (kv :: props)))) as Hgen.
  { intros text X -> HX.
    change (skipWs (String "{" X)) with (String "{" X).
    cbn -[parseMembers parseItems parseNumber literal parseChars skipWs
          String.length].
    rewrite HX.
    assert (∃ r', join (if gap then "," +:+ String newline "  " else ",") ms
                  = String dquote r') as [r' Hr'].
    { subst ms. rewrite fmap_cons. destruct props; simpl join;
        unfold member at 1; rewrite ?append_assoc, QuoteJSONString_append; eauto. }
    rewrite Hr', append_cons.
    cbn -[parseMembers parseItems parseNumber literal parseChars skipWs
          String.length].
    rewrite <- append_cons, <- Hr'.
    subst ms. rewrite (parseMembers_props (parseValue (String.length (String "{" X))) gap).
    - reflexivity.
    - intros v r. apply parseValue_quote.
    - done.
    - etransitivity; [apply length_members |].
      apply Nat.le_succ_diag_r. }
  destruct gap.
  - eapply Hgen; [reflexivity |]. subst ms.
    change (skipWs (String newline "  " +:+ ?X)) with (skipWs X).
    by rewrite (skipWs_join true).
  - eapply Hgen; [reflexivity |]. subst ms.
    by rewrite (skipWs_join false).
Qed.

Lemma of_entries_keys_NoDup {V} (l : list (string * V)) :
  NoDup (JSMap.keys (JSMap.of_entries l)).
Proof.
  unfold JSMap.of_entries.
  assert (∀ acc, NoDup (JSMap.keys acc) →
            NoDup (JSMap.keys (foldl (fun m (kv : string * V) =>
                                        JSMap.set kv.1 kv.2 m) acc l))) as Hgen.
  { induction l as [| kv l IH]; intros acc Hacc; simpl; [done |].
    by apply IH, JSMap_keys_set_NoDup. }
  apply Hgen, NoDup_nil_2.
Qed.

Lemma ownProperties_keys_NoDup {V} (o : JSMap.t V) :
  NoDup (JSMap.keys o) → NoDup (JSMap.keys (ownProperties o)).
Proof. unfold JSMap.keys. by rewrite ownProperties_perm. Qed.

Lemma JSMap_get_fmap {V W} (f : V → W) k (m : JSMap.t V) :
  JSMap.get k ((fun kv => (kv.1, f kv.2)) <$> m) = f <$> JSMap.get k m.
Proof.
  induction m as [| [k' v] m IH]; [done |].
  rewrite fmap_cons. simpl. by destruct (decide (k = k')).
Qed.

Lemma JSMap_keys_fmap {V W} (f : V → W) (m : JSMap.t V) :
  JSMap.keys ((fun kv => (kv.1, f kv.2)) <$> m) = JSMap.keys m.
Proof.
  unfold JSMap.keys. rewrite <- list_fmap_compose. by apply list_fmap_ext.
Qed.

(** The properties of an object of strings, as [JSON.parse] builds them. *)
Lemma parsed_properties props :
  NoDup (JSMap.keys props) →
  foldl (fun m (kv : string * string) => JSMap.set kv.1 (VStr kv.2) m) [] props
  = (fun kv => (kv.1, VStr kv.2)) <$> props.
Proof.
  intros Hnd.
  rewrite <- (of_entries_NoDup ((fun kv => (kv.1, VStr kv.2)) <$> props)).
  - unfold JSMap.of_entries, JSMap.empty. by rewrite foldl_fmap.
  - pose proof (JSMap_keys_fmap VStr props) as Hk. unfold JSMap.keys in *.
    by rewrite Hk.
Qed.

(** What a reader of the manifest of a [Map] finds: an object with the
    entries of the map. *)
Lemma manifest_fields `{Host} (um : JSMap.t string) (format : bool) :
  NoDup (JSMap.keys um) →
  ∃ fields, JSON_parse (getManifestJSON um format) = Some (VObj fields)
            ∧ ∀ k, JSMap.get k fields = VStr <$> JSMap.get k um.
Proof.
  intros Hnd. eexists. split.
  - unfold getManifestJSON, JSON_stringify.
    rewrite JSON_parse_SerializeJSONObject, parsed_properties; [done |].
    apply ownProperties_keys_NoDup, of_entries_keys_NoDup.
  - intros k. rewrite (JSMap_get_fmap VStr). f_equal.
    symmetry. apply JSMap_get_perm; [done |].
    rewrite ownProperties_perm.
    unfold Object_fromEntries. rewrite of_entries_NoDup.
    + by rewrite Array_sort_perm.
    + by rewrite Array_sort_perm.
Qed.

(** The manifest is a JSON text: [JSON.parse] reads it back, compact or
    formatted, as the object whose properties are those of the manifest, in
    the order they are written; when the names in the map are distinct that
    object maps every published name to its location and no other name to
    anything. *)
Theorem manifest_parses_back `{Host} (um : JSMap.t string) (format : bool) :
  JSON_parse (getManifestJSON um format)
  = Some (VObj ((fun kv => (kv.1, VStr kv.2)) <$> manifestProperties um))
  ∧ (NoDup (JSMap.keys um) →
     ∀ name, JSMap.get name
               ((fun kv => (kv.1, VStr kv.2)) <$> manifestProperties um)
             = VStr <$> JSMap.get name um).
Proof.
  split.
  - unfold getManifestJSON, JSON_stringify, manifestProperties.
    rewrite JSON_parse_SerializeJSONObject, parsed_properties; [done |].
    apply ownProperties_keys_NoDup, of_entries_keys_NoDup.
  - intros Hnd name. rewrite (JSMap_get_fmap VStr). f_equal.
    symmetry. apply JSMap_get_perm; [done |].
    unfold manifestProperties. rewrite ownProperties_perm.
    unfold Object_fromEntries. rewrite of_entries_NoDup.
    + by rewrite Array_sort_perm.
    + by rewrite Array_sort_perm.
Qed.

(** ** Writing the cache back *)

Lemma escapeUnits_plain s : hasSurrogate s = false → escapeUnits s = escapeString s.
Proof.
  induction s as [| a s IH]; [done |].
  destruct s as [| b [| c s']].
  - done.
  - simpl. intros [Hab _]%orb_false_iff. done.
  - intros Hs. change (hasSurrogate (String a (String b (String c s'))))
      with (isLoneSurrogate a b || hasSurrogate (String b (String c s'))) in Hs.
    apply orb_false_iff in Hs as [Hab Hs].
    change (escapeUnits (String a (String b (String c s'))))
      with (if isLoneSurrogate a b then
              UnicodeEscape (53248 + (N_of_ascii b mod 64) * 64
                             + N_of_ascii c mod 64)
              +:+ escapeUnits s'
            else escapeChar a +:+ escapeUnits (String b (String c s'))).
    rewrite Hab, IH by done. done.
Qed.

Lemma QuoteJSONUnits_plain s :
  hasSurrogate s = false → QuoteJSONUnits s = QuoteJSONString s.
Proof. intros Hs. unfold QuoteJSONUnits. by rewrite escapeUnits_plain. Qed.

Lemma sortInsert_fmap {A B} (f : A → B) (cmp : A → A → Z) (cmp' : B → B → Z)
    x l :
  (∀ a b, cmp' (f a) (f b) = cmp a b) →
  sortInsert cmp' (f x) (f <$> l) = f <$> sortInsert cmp x l.
Proof.
  intros Hf. induction l as [| y l IH]; [done |].
  rewrite fmap_cons. simpl. rewrite Hf. destruct (cmp x y <=? 0); [done |].
  by rewrite IH.
Qed.

Lemma Array_sort_fmap {A B} (f : A → B) (cmp : A → A → Z) (cmp' : B → B → Z)
    l :
  (∀ a b, cmp' (f a) (f b) = cmp a b) →
  Array_sort cmp' (f <$> l) = f <$> Array_sort cmp l.
Proof.
  intros Hf. induction l as [| x l IH]; [done |].
  rewrite fmap_cons. simpl. by rewrite IH, (sortInsert_fmap f cmp).
Qed.

Lemma filter_keys_fmap {V W} (f : V → W) (b : bool) (o : JSMap.t V) :
  filter (fun kv => isArrayIndex kv.1 = b) ((fun kv => (kv.1, f kv.2)) <$> o)
  = (fun kv => (kv.1, f kv.2)) <$> filter (fun kv => isArrayIndex kv.1 = b) o.
Proof.
  induction o as [| kv o IH]; [done |].
  rewrite fmap_cons, !filter_cons. simpl. rewrite IH.
  by destruct (decide (isArrayIndex kv.1 = b)).
Qed.

(** The order of the own properties depends on the keys only. *)
Lemma ownProperties_fmap {V W} (f : V → W) (o : JSMap.t V) :
  ownProperties ((fun kv => (kv.1, f kv.2)) <$> o)
  = (fun kv => (kv.1, f kv.2)) <$> ownProperties o.
Proof.
  unfold ownProperties. rewrite fmap_app, !filter_keys_fmap. f_equal.
  by apply Array_sort_fmap.
Qed.

(** The object case, with the recursion over the fields as a map. *)
Lemma SerializeJSONProperty_object num fields :
  SerializeJSONProperty num (VObj fields)
  = Some ("{" +:+ join ","
                    (omap (fun kv : string * option string =>
                             (fun text => QuoteJSONUnits kv.1 +:+ ":" +:+ text)
                               <$> kv.2)
                          (ownProperties
                             ((fun kv => (kv.1, SerializeJSONProperty num kv.2))
                                <$> fields)))
          +:+ "}").
Proof.
  cbn [SerializeJSONProperty]. do 6 f_equal.
  induction fields as [| [k v] fields IH]; [done |].
  rewrite fmap_cons. cbn [fst snd]. by rewrite <- IH.
Qed.

Lemma SerializeJSONProperty_strings num (o : JSMap.t string) :
  Forall (fun kv => hasSurrogate kv.1 = false ∧ hasSurrogate kv.2 = false) o →
  SerializeJSONProperty num (VObj ((fun kv => (kv.1, VStr kv.2)) <$> o))
  = Some (JSON_stringify o false).
Proof.
  intros Ho. rewrite SerializeJSONProperty_object.
  assert ((fun kv => (kv.1, SerializeJSONProperty num kv.2))
            <$> ((fun kv : string * string => (kv.1, VStr kv.2)) <$> o)
          = (fun kv => (kv.1, Some (QuoteJSONUnits kv.2))) <$> o) as ->.
  { rewrite <- list_fmap_compose. by apply list_fmap_ext. }
  rewrite (ownProperties_fmap (fun v => Some (QuoteJSONUnits v)) o).
  unfold JSON_stringify.
  assert (Forall (fun kv => hasSurrogate kv.1 = false
                            ∧ hasSurrogate kv.2 = false) (ownProperties o))
    as Hp.
  { apply Forall_forall. intros kv Hkv. rewrite ownProperties_perm in Hkv.
    by eapply Forall_forall in Ho. }
  generalize dependent (ownProperties o). intros props Hp.
  assert (omap (fun kv : string * option string =>
                  (fun text => QuoteJSONUnits kv.1 +:+ ":" +:+ text) <$> kv.2)
               ((fun kv => (kv.1, Some (QuoteJSONUnits kv.2))) <$> props)
          = member false <$> props) as ->.
  { induction Hp as [| [k v] props [Hk Hv] Hp IH]; [done |].
    rewrite !fmap_cons. cbn -[String.append]. rewrite IH. unfold member.
    simpl in *. by rewrite !QuoteJSONUnits_plain. }
  unfold SerializeJSONObject. by destruct props.
Qed.

(** [assetMap.forEach((_, key) => assetMap.delete(key))] leaves nothing. *)
Lemma forEach_delete (m : gmap string content) :
  map_fold (fun key _ acc => delete key acc) m m = ∅.
Proof.
  assert (∀ b : gmap string content,
            ∀ k, map_fold (fun key (_ : content) acc => delete key acc) b m !! k
                 = match m !! k with Some _ => None | None => b !! k end)
    as Hgen.
  { intros b.
    apply (map_fold_weak_ind
             (fun (r : gmap string content) (m : gmap string content) =>
                ∀ k, r !! k = match m !! k with
                              | Some _ => None
                              | None => b !! k
                              end)).
    - intros k. by rewrite lookup_empty.
    - intros i x m' r Hi IH k. destruct (decide (i = k)) as [-> | Hne].
      + by rewrite lookup_delete_eq, lookup_insert_eq.
      + by rewrite lookup_delete_ne, lookup_insert_ne, IH. }
  apply map_eq. intros k. rewrite Hgen, lookup_empty. by destruct (m !! k).
Qed.

Lemma SerializeJSONProperty_object_Some num fields :
  ∃ text, SerializeJSONProperty num (VObj fields) = Some text.
Proof. rewrite SerializeJSONProperty_object. eauto. Qed.

(** The done hook throws only what [fs.writeFileSync] throws; when the
    file is written the collected contents are empty afterwards, whatever
    they were, and the cache is as it was. *)
Theorem done_clears_collected_contents (Number_toJSON : Z → Z → string)
    (s : plugin) :
  (∃ text, doneHook Number_toJSON None s
           = inr (text, {| pAssetMap := ∅; pCache := pCache s;
                           pAssets := pAssets s |}))
  ∧ (∀ e, doneHook Number_toJSON (Some e) s = inl e).
Proof.
  unfold doneHook.
  destruct (SerializeJSONProperty_object_Some Number_toJSON
              (Object_fromEntries (pCache s))) as [text ->].
  split; [| done]. exists text. by rewrite forEach_delete.
Qed.

Lemma Array_sort_sorted_id {A} (cmp : A → A → Z) l :
  StronglySorted (comesFirst cmp) l → Array_sort cmp l = l.
Proof.
  induction 1 as [| x l Hl IH Hx]; [done |].
  simpl. rewrite IH. destruct Hx as [| y l Hxy _]; [done |].
  simpl. unfold comesFirst in Hxy. by rewrite (proj2 (Z.leb_le _ _) Hxy).
Qed.

Lemma filter_all {A} (P : A → Prop) `{∀ x, Decision (P x)} l :
  Forall P l → filter P l = l.
Proof.
  induction 1 as [| x l Hx _ IH]; [done |].
  by rewrite filter_cons, decide_True, IH.
Qed.

Lemma filter_none {A} (P : A → Prop) `{∀ x, Decision (P x)} l :
  Forall (fun x => ¬ P x) l → filter P l = [].
Proof.
  induction 1 as [| x l Hx _ IH]; [done |].
  by rewrite filter_cons, decide_False, IH.
Qed.

(** Enumerating the properties of an object built from an enumeration
    gives the same order again. *)
Lemma ownProperties_idemp {V} (o : JSMap.t V) :
  ownProperties (ownProperties o) = ownProperties o.
Proof.
  unfold ownProperties at 1.
  set (idx := Array_sort (fun a b => indexOf a - indexOf b)
                (filter (fun kv : string * V => isArrayIndex kv.1 = true) o)).
  set (rest := filter (fun kv : string * V => isArrayIndex kv.1 = false) o).
  change (ownProperties o) with (idx ++ rest).
  assert (Forall (fun kv : string * V => isArrayIndex kv.1 = true) idx) as Hidx.
  { apply Forall_forall. intros kv Hkv. subst idx.
    rewrite Array_sort_perm in Hkv. by apply list_elem_of_filter in Hkv as [? _]. }
  assert (Forall (fun kv : string * V => isArrayIndex kv.1 = false) rest)
    as Hrest.
  { apply Forall_forall. intros kv Hkv. by apply list_elem_of_filter in Hkv as [? _]. }
  rewrite !filter_app.
  rewrite (filter_all _ idx Hidx), (filter_all _ rest Hrest).
  rewrite (filter_none _ rest), (filter_none _ idx), app_nil_r.
  - f_equal. apply Array_sort_sorted_id. subst idx. apply Array_sort_sorted.
    + intros a b. unfold comesFirst. lia.
    + intros a b c. unfold comesFirst. lia.
  - eapply Forall_impl; [exact Hidx |]. simpl. intros kv ->. done.
  - eapply Forall_impl; [exact Hrest |]. simpl. intros kv ->. done.
Qed.

Lemma textEntry_strings (cache : JSMap.t value) :
  Forall textEntry cache →
  ∃ o : JSMap.t string,
    cache = (fun kv => (kv.1, VStr kv.2)) <$> o
    ∧ Forall (fun kv => hasSurrogate kv.1 = false ∧ hasSurrogate kv.2 = false) o.
Proof.
  induction 1 as [| [k v] cache [Hk Hv] _ (o & -> & Ho)]; [by exists [] |].
  destruct v; try done. exists ((k, s) :: o). split; [done |].
  by constructor.
Qed.

(** What the done hook writes, the initialize hook of the next build reads
    back: for a cache of distinct fingerprints with locations, the file is
    written, parsed and accepted, and the cache of the next build holds the
    same entries, in the order in which an object enumerates them, so that
    every lookup answers as it did before. *)
Theorem persisted_cache_is_read_back (Number_toJSON : Z → Z → string)
    (s s0 : plugin) :
  NoDup (JSMap.keys (pCache s)) → Forall textEntry (pCache s) →
  ∃ text s',
    doneHook Number_toJSON None s = inr (text, s')
    ∧ ∃ s1, initializeHook (Some (inr text)) s0 = inr s1
          ∧ pAssetMap s1 = pAssetMap s0
          ∧ pCache s1 = ownProperties (pCache s)
          ∧ ∀ fp, JSMap.lookup fp (pCache s1) = JSMap.lookup fp (pCache s).
Proof.
  intros Hnd Htext.
  destruct (textEntry_strings _ Htext) as (o & Ho & Hplain).
  assert (NoDup (JSMap.keys o)) as Hndo.
  { rewrite Ho, (JSMap_keys_fmap VStr) in Hnd. done. }
  unfold doneHook, Object_fromEntries.
  rewrite of_entries_NoDup by done.
  assert (SerializeJSONProperty Number_toJSON (VObj (pCache s))
          = Some (JSON_stringify o false)) as ->.
  { rewrite Ho. by apply SerializeJSONProperty_strings. }
  eexists _, _. split; [reflexivity |].
  unfold initializeHook, JSON_stringify.
  rewrite JSON_parse_SerializeJSONObject.
  rewrite parsed_properties by (by apply ownProperties_keys_NoDup).
  cbn [Object_entries].
  rewrite (ownProperties_fmap VStr), ownProperties_idemp.
  rewrite <- (ownProperties_fmap VStr), <- Ho.
  assert (NoDup (JSMap.keys (ownProperties (pCache s)))) as Hnd'
    by (by apply ownProperties_keys_NoDup).
  rewrite of_entries_NoDup by done.
  eexists. split; [reflexivity |]. cbn [pAssetMap pCache].
  split_and!; [done.. |].
  intros fp. unfold JSMap.lookup. f_equal.
  apply JSMap_get_perm; [done | apply ownProperties_perm].
Qed.

Lemma persisted_cache_witness :
  ∃ text s',
    doneHook exampleNumbers None publishedState = inr (text, s')
    ∧ ∃ s1, initializeHook (Some (inr text)) freshState = inr s1
          ∧ pAssetMap s1 = pAssetMap freshState
          ∧ pCache s1 = ownProperties (pCache publishedState)
          ∧ ∀ fp, JSMap.lookup fp (pCache s1)
                  = JSMap.lookup fp (pCache publishedState).
Proof.
  apply (persisted_cache_is_read_back exampleNumbers publishedState
           freshState).
  - apply NoDup_singleton.
  - apply Forall_singleton. split; reflexivity.
Defined.

(** ** The hooks before the cycle *)

Lemma parseMembers_defined pv n acc s r :
  parseMembers pv n acc s ≠ Some (VUndefined, r).
Proof.
  revert acc s. induction n as [| n IH]; intros acc s; simpl; [done |].
  repeat case_match; try done; apply IH.
Qed.

Lemma parseItems_defined pv n acc s r :
  parseItems pv n acc s ≠ Some (VUndefined, r).
Proof.
  revert acc s. induction n as [| n IH]; intros acc s; simpl; [done |].
  repeat case_match; try done; apply IH.
Qed.

Lemma parseNumber_number s v r :
  parseNumber s = Some (v, r) → ∃ m e, v = VNum m e.
Proof. unfold parseNumber. intros Hp. repeat case_match; simplify_eq; eauto. Qed.

(** [JSON.parse] never answers [undefined]. *)
Lemma parseValue_defined fuel s r : parseValue fuel s ≠ Some (VUndefined, r).
Proof.
  destruct fuel as [| f]; [done |].
  cbn -[parseMembers parseItems parseNumber literal parseChars].
  intros Hp. repeat case_match; simplify_eq;
    try (by eapply parseMembers_defined);
    try (by eapply parseItems_defined);
    try (apply parseNumber_number in Hp as (? & ? & ?); done).
  all: unfold literal in *; repeat case_match; simplify_eq.
Qed.

Lemma JSON_parse_defined text : JSON_parse text ≠ Some VUndefined.
Proof.
  unfold JSON_parse. intros Hp.
  destruct (parseValue _ _) as [[v r] |] eqn:Hv; [| done].
  destruct (skipWs r); simplify_eq. by eapply parseValue_defined.
Qed.

(** The initialize hook throws in three cases only: [fs.readFileSync]
    throws (whatever it throws), [JSON.parse] rejects the text of the cache
    file (a SyntaxError), or the text is the JSON [null], which
    [Object.entries] refuses (a TypeError).  Every other JSON text is
    accepted; a number or a boolean leaves the cache empty. *)
Theorem initialize_throws_on_null_or_malformed (s : plugin) :
  (∀ e, initializeHook (Some (inl e)) s = inl e)
  ∧ (∀ file e, initializeHook file s = inl e →
       file = Some (inl e)
       ∨ ∃ text, file = Some (inr text)
                 ∧ ((JSON_parse text = None ∧ e = SyntaxError)
                    ∨ (JSON_parse text = Some VNull ∧ e = TypeError)))
  ∧ ∀ text,
      (initializeHook (Some (inr text)) s = inl SyntaxError
       ↔ JSON_parse text = None)
      ∧ (initializeHook (Some (inr text)) s = inl TypeError
         ↔ JSON_parse text = Some VNull)
      ∧ (∀ v, JSON_parse text = Some v → v ≠ VNull →
              ∃ s', initializeHook (Some (inr text)) s = inr s'
                    ∧ pAssetMap s' = pAssetMap s ∧ pAssets s' = pAssets s)
      ∧ (∀ v, JSON_parse text = Some v →
              (∃ b, v = VBool b) ∨ (∃ m e, v = VNum m e) →
              initializeHook (Some (inr text)) s
              = inr {| pAssetMap := pAssetMap s; pCache := JSMap.empty;
                       pAssets := pAssets s |}).
Proof.
  assert (∀ text,
            (initializeHook (Some (inr text)) s = inl SyntaxError
             ↔ JSON_parse text = None)
            ∧ (initializeHook (Some (inr text)) s = inl TypeError
               ↔ JSON_parse text = Some VNull)
            ∧ (∀ e, initializeHook (Some (inr text)) s = inl e →
                    e = SyntaxError ∨ e = TypeError)
            ∧ (∀ v, JSON_parse text = Some v → v ≠ VNull →
                    ∃ s', initializeHook (Some (inr text)) s = inr s'
                          ∧ pAssetMap s' = pAssetMap s
                          ∧ pAssets s' = pAssets s)
            ∧ (∀ v, JSON_parse text = Some v →
                    (∃ b, v = VBool b) ∨ (∃ m e, v = VNum m e) →
                    initializeHook (Some (inr text)) s
                    = inr {| pAssetMap := pAssetMap s; pCache := JSMap.empty;
                             pAssets := pAssets s |})) as Htext.
  { intros text. pose proof (JSON_parse_defined text) as Hdef.
    unfold initializeHook.
    destruct (JSON_parse text) as [v |] eqn:Hp.
    - split_and!.
      + split; [| done]. by destruct (Object_entries v).
      + split.
        * destruct v; simpl; try done.
        * by intros [= ->].
      + intros e. destruct (Object_entries v); [done |]. intros [= <-].
        by right.
      + intros v' [= <-] Hv. destruct v; simpl; try done; eauto.
      + intros v' [= <-] [[b ->] | (m & e & ->)]; done.
    - split_and!; try done.
      intros e [= <-]. by left. }
  split_and!.
  - done.
  - intros [[e' | text] |] e Hthrow; [| | done].
    + left. simpl in Hthrow. congruence.
    + right. exists text. split; [done |].
      destruct (Htext text) as (Hsyn & Htype & Honly & _).
      destruct (Honly e Hthrow) as [-> | ->]; [left | right]; split; try done.
      * by apply Hsyn.
      * by apply Htype.
  - intros text. destruct (Htext text) as (? & ? & _ & ? & ?). by split_and!.
Qed.

Lemma collect_lookup (f : string → content → content)
    (l : list (string * content)) (m0 : gmap string content) :
  NoDup l.*1 →
  let m := foldl (fun m '(name, source) => <[name := f name source]> m) m0 l in
  (∀ name src, (name, src) ∈ l → m !! name = Some (f name src))
  ∧ (∀ name, name ∉ l.*1 → m !! name = m0 !! name).
Proof.
  revert m0. induction l as [| [n c] l IH]; intros m0 Hnd; simpl.
  - split; [intros ? ? Hin; inv Hin | done].
  - apply NoDup_cons in Hnd as [Hn Hnd].
    destruct (IH (<[n := f n c]> m0) Hnd) as [Hin Hout]. split.
    + intros name src [[= -> ->] | Hl]%elem_of_cons.
      * by rewrite Hout, lookup_insert_eq.
      * by apply Hin.
    + intros name [Hne Hl]%not_elem_of_cons.
      by rewrite Hout, lookup_insert_ne.
Qed.

(** What the publish cycle works on.  The processAssets tap replaces the
    source of every asset whose name ends in [.js] by the rewriting of its
    text and leaves the other assets alone; the later stages of the
    compilation make of the result what is emitted.  For every emitted asset
    the collected content is its text when its name ends in [.js], [.css] or
    [.html], and its source as it is otherwise; nothing else is collected;
    and the cycle starts with an empty [urlMap], an empty trace, the cache
    that initialize loaded and the emitted assets in the output
    directory. *)
Theorem publish_starts_from_collected_contents `{Host} (opts : options)
    (b : build) (s : plugin) (c : config) :
  startBuild opts b = Publishing s c →
  NoDup (pAssets s).*1 →
  (∃ optimized,
     length optimized = length (compilationAssets b)
     ∧ (∀ i name src, compilationAssets b !! i = Some (name, src) →
          optimized !! i
          = Some (name, if endsWith name ".js"
                        then Text (replacePublicPath (toString src))
                        else src))
     ∧ pAssets s = laterStages b optimized)
  ∧ (∀ name src, (name, src) ∈ pAssets s →
       pAssetMap s !! name
       = Some (if endsWith name ".js" || endsWith name ".css"
                  || endsWith name ".html"
               then Text (toString src) else src))
  ∧ (∀ name, name ∉ (pAssets s).*1 → pAssetMap s !! name = None)
  ∧ ∃ w, c = afterEmit opts (pAssetMap s) (classify (buildStats b)) w
         ∧ urlMap w = JSMap.empty ∧ trace w = []
         ∧ urlCacheMap w = pCache s
         ∧ files w = list_to_map (prod_map outputFile id <$> pAssets s).
Proof.
  intros Hstart Hnd. unfold startBuild in Hstart.
  destruct (isProduction _ _); [| done]. simpl in Hstart.
  destruct (initializeHook (cacheFile b) _) as [? | s1] eqn:Hinit; [done |].
  unfold thisCompilationHook in Hstart.
  destruct (truthy (publicPath b)); [done |]. simpl in Hstart.
  injection Hstart as <- <-. cbn [pAssetMap pCache pAssets] in *.
  assert (pAssetMap s1 = ∅ ∧ pAssets s1 = compilationAssets b) as [Hm Ha].
  { unfold initializeHook in Hinit. repeat case_match; by simplify_eq. }
  rewrite Hm, Ha in *. clear Hm Ha.
  set (g := fun kv : string * content =>
              let '(filename, source) := kv in
              if endsWith filename ".js"
              then (filename, Text (replacePublicPath (toString source)))
              else (filename, source)) in *.
  destruct (collect_lookup
              (fun name source => if isText name then Text (toString source)
                                  else source)
              (laterStages b (g <$> compilationAssets b)) ∅ Hnd)
    as [Hin Hout].
  split_and!.
  - exists (g <$> compilationAssets b). split_and!; [| | done].
    + by rewrite length_fmap.
    + intros i name src Hi. rewrite list_lookup_fmap, Hi. simpl.
      by destruct (endsWith name ".js").
  - intros name src Hsrc. by rewrite (Hin _ _ Hsrc).
  - intros name Hname. by rewrite Hout.
  - eexists. split; [reflexivity |]. done.
Qed.

Lemma publish_starts_witness :
  NoDup (pAssets publishedState).*1
  ∧ (∃ optimized,
       length optimized = length (compilationAssets cachedBuild)
       ∧ (∀ i name src,
            compilationAssets cachedBuild !! i = Some (name, src) →
            optimized !! i
            = Some (name, if endsWith name ".js"
                          then Text (replacePublicPath (Host := exampleHost)
                                       (toString (H := exampleHost) src))
                          else src))
       ∧ pAssets publishedState = laterStages cachedBuild optimized)
  ∧ (∀ name src, (name, src) ∈ pAssets publishedState →
       pAssetMap publishedState !! name
       = Some (if endsWith name ".js" || endsWith name ".css"
                  || endsWith name ".html"
               then Text (toString (H := exampleHost) src) else src))
  ∧ (∀ name, name ∉ (pAssets publishedState).*1 →
             pAssetMap publishedState !! name = None)
  ∧ ∃ w,
      afterEmit (H := exampleHost) plainOptions (pAssetMap publishedState)
        (classify (buildStats cachedBuild))
        {| urlMap := JSMap.empty; urlCacheMap := pCache publishedState;
           files := list_to_map (prod_map (outputFile (Host := exampleHost))
                                   id <$> pAssets publishedState);
           trace := [] |}
      = afterEmit (H := exampleHost) plainOptions (pAssetMap publishedState)
          (classify (buildStats cachedBuild)) w
      ∧ urlMap w = JSMap.empty ∧ trace w = []
      ∧ urlCacheMap w = pCache publishedState
      ∧ files w
        = list_to_map (prod_map (outputFile (Host := exampleHost)) id
                         <$> pAssets publishedState).
Proof.
  assert (NoDup (pAssets publishedState).*1) as Hnd by apply NoDup_singleton.
  split; [exact Hnd |].
  apply (publish_starts_from_collected_contents (H := exampleHost)
           plainOptions cachedBuild publishedState); [reflexivity | exact Hnd].
Defined.

(** ** Invariants of the cycle in general *)

Lemma forallb_fulfilled (ts : tasks) :
  forallb (fun t => isFulfilled t.2) ts = true
  ↔ Forall (fun t => t.2 = Fulfilled) ts.
Proof.
  rewrite forallb_forall, Forall_forall. split.
  - intros Hall t Ht. apply list_elem_of_In, Hall in Ht. by destruct (t.2).
  - intros Hall t Ht. apply list_elem_of_In, Hall in Ht. by rewrite Ht.
Qed.

Section Rule.
Context `{Host}.
Variable opts : options.
Variable assetMap : gmap string content.
Variable cls : classes.

(** A settled activation does not move. *)
Lemma resumeTask_fulfilled name o ts w :
  Forall (fun t => t.2 = Fulfilled) ts →
  resumeTask opts name o ts w = (ts, w).
Proof.
  induction 1 as [| [n p] ts Hp _ IH]; [done |].
  simpl in *. subst p. rewrite IH. by destruct (decide (n = name)).
Qed.

Variable I : phase → tasks → world → Prop.

Hypothesis I_resume : ∀ p ts w name o,
  I p ts w →
  I p (resumeTask opts name o ts w).1 (resumeTask opts name o ts w).2.
Hypothesis I_launch : ∀ p p' q ts w,
  phasesAfter p = p' :: q → I p ts w →
  Forall (fun t => t.2 = Fulfilled) ts →
  I p' (launch opts assetMap cls p' (emit (EBarrier p (urlMap w)) w)).1
       (launch opts assetMap cls p' (emit (EBarrier p (urlMap w)) w)).2.
Hypothesis I_end : ∀ ts w,
  I PManifest ts w → Forall (fun t => t.2 = Fulfilled) ts →
  I PManifest ts (emit (EBarrier PManifest (urlMap w)) w).

Lemma settlePhase_holds queue p ts w :
  queue = phasesAfter p → I p ts w →
  holds I (settlePhase opts assetMap cls queue p ts w).
Proof.
  revert p ts w. induction queue as [| p' queue IH]; intros p ts w Hq Hi;
    simpl.
  - destruct (firstRejection ts) eqn:Hrej; [by split_and! |].
    destruct (forallb _ ts) eqn:Hall.
    2: { split_and!; simpl; try done. intros _. split; [done |].
         rewrite <- forallb_fulfilled. congruence. }
    apply forallb_fulfilled in Hall.
    assert (p = PManifest) as -> by (by destruct p).
    split_and!; simpl; auto. done.
  - destruct (firstRejection ts) eqn:Hrej; [by split_and! |].
    destruct (forallb _ ts) eqn:Hall.
    2: { split_and!; simpl; try done. intros _. split; [done |].
         rewrite <- forallb_fulfilled. congruence. }
    apply forallb_fulfilled in Hall.
    pose proof (I_launch p p' queue ts w (eq_sym Hq) Hi Hall) as Hl.
    destruct (launch opts assetMap cls p' _) as [ts' w2]. apply IH; [| done].
    destruct p; simplify_eq/=; done.
Qed.

Lemma step_holds c ch : holds I c → holds I (step opts assetMap cls c ch).
Proof.
  intros (Hi & Hq & Hdone & Hrun). unfold step.
  pose proof (I_resume _ _ _ ch.1 ch.2 Hi) as Hr.
  destruct (cstatus c) eqn:Hs.
  - destruct (resumeTask opts ch.1 ch.2 (ctasks c) (cworld c)) as [ts w].
    by apply settlePhase_holds.
  - destruct (resumeTask opts ch.1 ch.2 (ctasks c) (cworld c)) as [ts w].
    by split_and!.
  - destruct (Hdone eq_refl) as [Hp Hall].
    rewrite resumeTask_fulfilled in * by done. by split_and!.
Qed.

Lemma run_holds sched c : holds I c → holds I (run opts assetMap cls sched c).
Proof.
  revert c. induction sched as [| ch sched IH]; intros c Hc; simpl; [done |].
  by apply IH, step_holds.
Qed.

Lemma cycle_holds sched w :
  I PResource (launch opts assetMap cls PResource w).1
              (launch opts assetMap cls PResource w).2 →
  holds I (cycle opts assetMap cls sched w).
Proof.
  intros Hl. unfold cycle, afterEmit. apply run_holds.
  destruct (launch opts assetMap cls PResource w) as [ts w1].
  by apply settlePhase_holds.
Qed.

End Rule.

(** ** What the cycle does to the world, whatever the activations *)

Section Closure.
Context `{Host}.
Variable opts : options.
Variable assetMap : gmap string content.
Variable cls : classes.
Variable Q : world → Prop.

Hypothesis Q_emit : ∀ e w,
  (∀ n, e = EUnlink n →
        keepLocal opts = false ∧ n ∈ JSMap.keys (urlMap w)) →
  Q w → Q (emit e w).
Hypothesis Q_files : ∀ f w, Q w → Q (setFiles f w).
Hypothesis Q_record : ∀ name c u w,
  u ≠ "" → Q w →
  Q (setMaps (JSMap.set name u (urlMap w))
             (JSMap.set (md5 c) (VStr u) (urlCacheMap w)) w).

Lemma closed_record name c url w :
  Q w → Q (uploadFile_record opts name c url w).2.
Proof.
  intros Hw. unfold uploadFile_record. destruct url; try done.
  destruct (truthy (VStr s) && isString (VStr s)) eqn:Hu; [| done].
  apply andb_true_iff in Hu as [Hs _]. simpl in Hs.
  apply negb_true_iff, bool_decide_eq_false in Hs.
  destruct (keepLocal opts) eqn:Hk; simpl; [by apply Q_record |].
  apply Q_emit; [| by apply Q_record].
  intros n [= <-]. split; [done |]. simpl. apply JSMap_keys_set. by left.
Qed.

Lemma closed_lookup name c w :
  Q w → Q (uploadFile_lookup opts name c w).2.
Proof.
  intros Hw. unfold uploadFile_lookup.
  destruct (truthy _); [by apply closed_record |].
  simpl. by apply Q_emit.
Qed.

Lemma closed_uploadFile name c ow w :
  Q w → Q (uploadFile opts name c ow w).2.
Proof.
  intros Hw. unfold uploadFile. destruct ow; [| by apply closed_lookup].
  simpl. by apply Q_emit.
Qed.

Lemma closed_resume p o w : Q w → Q (resume opts p o w).2.
Proof.
  intros Hw. destruct p, o; simpl; auto using closed_record, closed_lookup.
Qed.

Lemma closed_resumeTask name o ts w :
  Q w → Q (resumeTask opts name o ts w).2.
Proof.
  intros Hw. induction ts as [| [n p] ts IH]; simpl; [done |].
  destruct (decide (n = name)).
  - pose proof (closed_resume p o w Hw). by destruct (resume opts p o w).
  - by destruct (resumeTask opts name o ts w).
Qed.

Lemma closed_launchOne p acc name :
  Q acc.2 → Q (launchOne opts assetMap p acc name).2.
Proof.
  destruct acc as [ts w]. unfold launchOne. cbn [snd]. intros Hw.
  destruct (assetMap !! name) as [c |]; [| done].
  destruct p.
  - pose proof (closed_uploadFile name c false w Hw).
    by destruct (uploadFile opts name c false w).
  - unfold uploadFile. simpl. apply Q_emit; [done |]. by apply Q_emit.
  - unfold uploadFile. simpl. apply Q_emit; [done |]. by apply Q_emit.
  - simpl. apply Q_emit; [done |]. by apply Q_emit.
  - done.
Qed.

Lemma closed_launchAll p names acc :
  Q acc.2 → Q (foldl (launchOne opts assetMap p) acc names).2.
Proof.
  revert acc. induction names as [| n names IH]; intros acc Hw; simpl;
    [done |].
  by apply IH, closed_launchOne.
Qed.

Lemma closed_launch p w : Q w → Q (launch opts assetMap cls p w).2.
Proof.
  intros Hw.
  destruct p; simpl; try (by apply (closed_launchAll _ _ ([], w))).
  destruct (manifestFilename opts) as [| [|] | name]; simpl; try done.
  - by apply Q_emit.
  - case_bool_decide; simpl; [done | by apply Q_emit].
Qed.

Lemma closed_cycle sched w : Q w → Q (cworld (cycle opts assetMap cls sched w)).
Proof.
  intros Hw.
  apply (cycle_holds opts assetMap cls (fun _ _ w => Q w)).
  - intros p ts w' name o. apply closed_resumeTask.
  - intros p p' q ts w' _ Hw' _. apply closed_launch. by apply Q_emit.
  - intros ts w' Hw' _. by apply Q_emit.
  - by apply closed_launch.
Qed.

End Closure.

(** ** The manifest the entry scripts receive *)

Section Snapshot.
Context `{Host}.
Variable opts : options.
Variable assetMap : gmap string content.
Variable cls : classes.

Lemma keepsUrls_refl names w : keepsUrls names w w.
Proof. by split_and!. Qed.

Lemma keepsUrls_trans names w1 w2 w3 :
  keepsUrls names w1 w2 → keepsUrls names w2 w3 → keepsUrls names w1 w3.
Proof.
  intros (N1 & G1 & B1) (N2 & G2 & B2). split_and!; [auto | | auto].
  intros k Hk. by rewrite G2, G1.
Qed.

Lemma keepsUrls_emit names e w :
  (∀ q um, e ≠ EBarrier q um) → keepsUrls names w (emit e w).
Proof.
  intros He. split_and!; [done | done |]. simpl.
  intros q um [Hin | Hin%list_elem_of_singleton]%elem_of_app; [done |].
  by destruct (He q um).
Qed.

Lemma keepsUrls_record names name c url w :
  name ∈ names → keepsUrls names w (uploadFile_record opts name c url w).2.
Proof.
  intros Hn. unfold uploadFile_record.
  destruct url; try apply keepsUrls_refl.
  destruct (truthy (VStr s) && isString (VStr s)); [| apply keepsUrls_refl].
  assert (keepsUrls names w
            (setMaps (JSMap.set name s (urlMap w))
                     (JSMap.set (md5 c) (VStr s) (urlCacheMap w)) w)) as Hset.
  { split_and!; simpl; [apply JSMap_keys_set_NoDup | | done].
    intros k Hk. apply JSMap_get_set_ne. by intros ->. }
  destruct (keepLocal opts); simpl; [done |].
  eapply keepsUrls_trans; [exact Hset |]. by apply keepsUrls_emit.
Qed.

Lemma keepsUrls_lookup names name c w :
  name ∈ names → keepsUrls names w (uploadFile_lookup opts name c w).2.
Proof.
  intros Hn. unfold uploadFile_lookup.
  destruct (truthy _); [by apply keepsUrls_record |].
  simpl. by apply keepsUrls_emit.
Qed.

Lemma record_task p n name c url w :
  name ∈ uploadNames cls p →
  task_ok cls p (n, (uploadFile_record opts name c url w).1).
Proof.
  intros Hn. unfold uploadFile_record, task_ok.
  destruct url; try done.
  destruct (truthy (VStr s) && isString (VStr s)); [| done].
  by destruct (keepLocal opts).
Qed.

Lemma lookup_task p n name c w :
  name ∈ uploadNames cls p →
  task_ok cls p (n, (uploadFile_lookup opts name c w).1).
Proof.
  intros Hn. unfold uploadFile_lookup.
  destruct (truthy _); [by apply record_task | done].
Qed.

(** An activation moves the entry of its own name only. *)
Lemma snapshot_resume p n t o w :
  task_ok cls p (n, t) →
  task_ok cls p (n, (resume opts t o w).1)
  ∧ keepsUrls (uploadNames cls p) w (resume opts t o w).2.
Proof.
  intros Ht. pose proof Ht as Hname. unfold task_ok in Hname. simpl in Hname.
  destruct t, o; simpl;
    try (split; [done | by apply keepsUrls_refl]);
    try (split; [done | by split_and!]).
  - split; [by apply lookup_task |].
    eapply keepsUrls_trans; [| by apply keepsUrls_lookup]. by split_and!.
  - split; [by apply record_task | by apply keepsUrls_record].
Qed.

Lemma snapshot_resumeTask p name o ts w :
  Forall (task_ok cls p) ts →
  Forall (task_ok cls p) (resumeTask opts name o ts w).1
  ∧ keepsUrls (uploadNames cls p) w (resumeTask opts name o ts w).2.
Proof.
  intros Hts. rewrite resumeTask_spec.
  destruct (JSMap.get name ts) as [t |] eqn:Hget;
    [| split; [done | apply keepsUrls_refl]].
  pose proof (JSMap_get_elem _ _ _ Hget) as Hin.
  assert (task_ok cls p (name, t)) as Ht by (by eapply Forall_forall in Hts).
  destruct (snapshot_resume p name t o w Ht) as [Ht' Hw'].
  split; [by apply JSMap_set_Forall | done].
Qed.

Lemma snapshot_launchOne p ts w name :
  (p = PDocument ∨ name ∈ uploadNames cls p) →
  Forall (task_ok cls p) ts →
  Forall (task_ok cls p) (launchOne opts assetMap p (ts, w) name).1
  ∧ keepsUrls (uploadNames cls p) w (launchOne opts assetMap p (ts, w) name).2.
Proof.
  intros Hn Hts. unfold launchOne.
  assert (∀ t, task_ok cls p (name, t) →
               Forall (task_ok cls p) (ts ++ [(name, t)])) as Hadd.
  { intros t Ht. apply Forall_app. split; [done | by apply Forall_singleton]. }
  destruct (assetMap !! name) as [c |]; cbv beta iota.
  2: { split; [by apply Hadd | apply keepsUrls_refl]. }
  destruct p; try (destruct Hn as [? | Hn]; [done |]).
  - unfold uploadFile.
    pose proof (lookup_task PResource name name c w Hn) as Ht.
    pose proof (keepsUrls_lookup (uploadNames cls PResource) name c w Hn)
      as Hw.
    destruct (uploadFile_lookup opts name c w) as [t w']. simpl in *.
    split; [by apply Hadd | done].
  - unfold uploadFile. simpl. split; [by apply Hadd |].
    eapply keepsUrls_trans; by apply keepsUrls_emit.
  - unfold uploadFile. simpl. split; [by apply Hadd |].
    eapply keepsUrls_trans; by apply keepsUrls_emit.
  - simpl. split; [by apply Hadd |].
    eapply keepsUrls_trans; by apply keepsUrls_emit.
  - by apply elem_of_nil in Hn.
Qed.

Lemma snapshot_launchAll p names acc :
  (∀ n, n ∈ names → p = PDocument ∨ n ∈ uploadNames cls p) →
  Forall (task_ok cls p) acc.1 →
  Forall (task_ok cls p) (foldl (launchOne opts assetMap p) acc names).1
  ∧ keepsUrls (uploadNames cls p) acc.2
      (foldl (launchOne opts assetMap p) acc names).2.
Proof.
  revert acc. induction names as [| n names IH]; intros [ts w] Hn Hts;
    cbn [foldl].
  - split; [done | apply keepsUrls_refl].
  - destruct (snapshot_launchOne p ts w n) as [Hts' Hw']; [| done |].
    { apply Hn. by left. }
    destruct (launchOne opts assetMap p (ts, w) n) as [ts' w'].
    destruct (IH (ts', w')) as [Hts'' Hw'']; [| done |].
    { intros m Hm. apply Hn. by right. }
    split; [done |]. eapply keepsUrls_trans; [exact Hw' | exact Hw''].
Qed.

Lemma snapshot_launch p w :
  Forall (task_ok cls p) (launch opts assetMap cls p w).1
  ∧ keepsUrls (uploadNames cls p) w (launch opts assetMap cls p w).2.
Proof.
  destruct p.
  - apply (snapshot_launchAll PResource _ ([], w)); [auto | done].
  - apply (snapshot_launchAll PStyle _ ([], w)); [auto | done].
  - apply (snapshot_launchAll PEntry _ ([], w)); [auto | done].
  - apply (snapshot_launchAll PDocument _ ([], w)); [auto | done].
  - simpl. destruct (manifestFilename opts) as [| [|] | name]; simpl;
      try (split; [done | apply keepsUrls_refl]).
    + split; [by apply Forall_singleton | by apply keepsUrls_emit].
    + case_bool_decide; simpl; [split; [done | apply keepsUrls_refl] |].
      split; [by apply Forall_singleton | by apply keepsUrls_emit].
Qed.

(** After the style phase the names of the upload phase that runs are entry
    names, if there are any. *)
Lemma late_names p k :
  (2 ≤ rank p)%nat → k ∉ epNames cls → k ∉ uploadNames cls p.
Proof.
  destruct p; simpl; try lia; intros _ Hk; [done | ..];
    apply not_elem_of_nil.
Qed.

Lemma snapshot_cycle sched w :
  urlMap w = JSMap.empty → trace w = [] →
  holds (snapshot_ok cls) (cycle opts assetMap cls sched w).
Proof.
  intros Hu Ht. apply cycle_holds.
  - intros p ts w' name o (Hts & Hnd & Hsnap).
    destruct (snapshot_resumeTask p name o ts w' Hts) as (Hts' & N & G & B).
    split_and!; [done | auto |].
    intros um Hin. destruct (Hsnap um (B _ _ Hin)) as (Hp & Hum & Hfrozen).
    split_and!; [done | done |].
    intros k Hk. rewrite Hfrozen by done. rewrite G; [done |].
    by apply late_names.
  - intros p p' q ts w' Hq (Hts & Hnd & Hsnap) _.
    destruct (snapshot_launch p' (emit (EBarrier p (urlMap w')) w'))
      as (Hts' & N & G & B).
    assert (rank p' = S (rank p)) as Hr by (destruct p; simplify_eq/=; done).
    split_and!; [done | auto |].
    intros um Hin. apply B in Hin. simpl in Hin.
    apply elem_of_app in Hin as [Hin | Hin%list_elem_of_singleton].
    + destruct (Hsnap um Hin) as (Hp & Hum & Hfrozen).
      split_and!; [lia | done |].
      intros k Hk. rewrite Hfrozen by done. rewrite G; [done |].
      apply late_names; [lia | done].
    + injection Hin as <- ->. simpl in Hr.
      split_and!; [lia | done |].
      intros k Hk. rewrite G; [done |]. apply late_names; [lia | done].
  - intros ts w' (Hts & Hnd & Hsnap) _. split_and!; [done | done |].
    simpl. intros um [Hin | Hin%list_elem_of_singleton]%elem_of_app;
      [auto | done].
  - destruct (snapshot_launch PResource w) as (Hts' & N & G & B).
    split_and!; [done | |].
    + apply N. rewrite Hu. apply NoDup_nil_2.
    + intros um Hin%B. rewrite Ht in Hin. by apply elem_of_nil in Hin.
Qed.

End Snapshot.

(** C2: whenever [injectAssetManifest] is called, the manifest it receives
    is the serialisation of the [urlMap] as it was when the style phase's
    [Promise.all] resumed (there is one such point).  [JSON.parse] reads it
    as an object that has, for every name, the location that map has and
    nothing else; the map holds what the resource and style phases
    recorded: its keys are resource and style names, and for every name that
    is not an entry name it has the entry that [urlMap] has from then on;
    for an entry name neither the map nor the manifest holds anything. *)
Theorem entry_manifest_is_style_phase_snapshot `{Host} (opts : options)
    (assetMap : gmap string content) (st : stats)
    (sched : list (string * outcome)) (w : world) (n m : string) :
  urlMap w = JSMap.empty → trace w = [] →
  EInject n m ∈ trace (cworld (cycle opts assetMap (classify st) sched w)) →
  ∃ um fields,
    EBarrier PStyle um
      ∈ trace (cworld (cycle opts assetMap (classify st) sched w))
    ∧ (∀ um', EBarrier PStyle um'
                ∈ trace (cworld (cycle opts assetMap (classify st) sched w)) →
              um' = um)
    ∧ m = getManifestJSON um false
    ∧ JSON_parse m = Some (VObj fields)
    ∧ (∀ k, JSMap.get k fields = VStr <$> JSMap.get k um)
    ∧ (∀ k, k ∉ epNames (classify st) →
            JSMap.get k um
            = JSMap.get k
                (urlMap (cworld (cycle opts assetMap (classify st) sched w))))
    ∧ (∀ k, k ∈ JSMap.keys um →
            k ∈ resourceNames (classify st) ∨ k ∈ styleNames (classify st))
    ∧ (∀ k, k ∈ epNames (classify st) →
            JSMap.get k um = None ∧ JSMap.get k fields = None).
Proof.
  intros Hu Ht Hin.
  destruct (run_ok opts assetMap (classify st) sched _
              (afterEmit_ok opts assetMap (classify st) w Hu Ht))
    as ([_ _ Hinj Hbar Honce _] & _ & _).
  fold (cycle opts assetMap (classify st) sched w) in Hinj, Hbar, Honce.
  destruct (snapshot_cycle opts assetMap (classify st) sched w Hu Ht)
    as ((_ & _ & Hsnap) & _).
  destruct (Hinj _ _ Hin) as (um & Hum & ->).
  destruct (Hbar _ _ Hum) as [_ Hkeys].
  destruct (Hsnap um Hum) as (_ & Hnd & Hfrozen).
  destruct (manifest_fields um false Hnd) as (fields & Hparse & Hfields).
  assert (∀ k, k ∈ JSMap.keys um →
               k ∈ resourceNames (classify st) ∨ k ∈ styleNames (classify st))
    as Hrs.
  { intros k (q & Hq & Hk)%Hkeys. destruct q; simpl in *; auto; lia. }
  assert (∀ k, k ∈ epNames (classify st) → JSMap.get k um = None) as Hnone.
  { intros k Hk. apply JSMap_get_None. intros Hin'%Hrs.
    destruct (classify_disjoint st k) as (Hep & _).
    destruct (Hep Hk) as (? & _ & ?). tauto. }
  exists um, fields. split_and!; try done.
  - intros um' Hum'. by apply (Honce PStyle).
  - intros k Hk. split; [auto |]. by rewrite Hfields, Hnone.
Qed.

Lemma entry_manifest_witness :
  ∃ um fields,
    EBarrier PStyle um ∈ trace (cworld siteCycle)
    ∧ (∀ um', EBarrier PStyle um' ∈ trace (cworld siteCycle) → um' = um)
    ∧ siteManifest = getManifestJSON (H := exampleHost) um false
    ∧ JSON_parse siteManifest = Some (VObj fields)
    ∧ (∀ k, JSMap.get k fields = VStr <$> JSMap.get k um)
    ∧ (∀ k, k ∉ epNames (classify siteStats) →
            JSMap.get k um = JSMap.get k (urlMap (cworld siteCycle)))
    ∧ (∀ k, k ∈ JSMap.keys um →
            k ∈ resourceNames (classify siteStats)
            ∨ k ∈ styleNames (classify siteStats))
    ∧ (∀ k, k ∈ epNames (classify siteStats) →
            JSMap.get k um = None ∧ JSMap.get k fields = None).
Proof.
  apply (entry_manifest_is_style_phase_snapshot (H := exampleHost) siteOptions
           siteAssets siteStats siteSchedule siteWorld "main.js" siteManifest).
  - reflexivity.
  - reflexivity.
  - vm_compute. do 8 apply list_elem_of_further. apply list_elem_of_here.
Defined.

(** ** The calls that leave the plugin *)

Section CallsOk.
Context `{Host}.
Variable opts : options.
Variable assetMap : gmap string content.
Variable cls : classes.
Variable before : gmap string content.

Lemma prepared_mono tr new p n c :
  prepared assetMap tr p n c → prepared assetMap (tr ++ new) p n c.
Proof.
  destruct p; simpl; [done | ..].
  - intros (c0 & um & ? & ? & ?). exists c0, um. rewrite elem_of_app. auto.
  - intros (c0 & um & ? & ? & ?). exists c0, um. rewrite elem_of_app. auto.
  - intros (c0 & um & ? & ? & ?). exists c0, um. rewrite elem_of_app. auto.
  - intros (um & ? & ?). exists um. rewrite elem_of_app. auto.
Qed.

Lemma call_ok_mono p p' tr new urls urls' e :
  (rank p ≤ rank p')%nat →
  (∀ k, k ∈ JSMap.keys urls → k ∈ JSMap.keys urls') →
  call_ok opts assetMap cls p tr urls e →
  call_ok opts assetMap cls p' (tr ++ new) urls' e.
Proof.
  intros Hp Hk. destruct e; simpl; try done.
  - intros (-> & q & Hq & Hf & Hprep & Hw). split; [done |].
    exists q. split_and!; [lia | done | by apply prepared_mono |].
    intros Hne. rewrite elem_of_app. auto.
  - intros (q & Hq & Hw & Hprep). exists q.
    split_and!; [lia | done | by apply prepared_mono].
  - intros [? ?]. auto.
  - intros [? ?]. rewrite elem_of_app. auto.
  - intros (? & um & ? & ?). split; [done |]. exists um.
    rewrite elem_of_app. auto.
  - intros (? & ? & ?). rewrite elem_of_app. auto.
Qed.

Lemma pending_ok_mono p tr new t :
  pending_ok opts assetMap cls p tr t →
  pending_ok opts assetMap cls p (tr ++ new) t.
Proof.
  unfold pending_ok. destruct (t.2); try done.
  intros (? & ? & ? & ?). split_and!; [done.. | by apply prepared_mono |].
  rewrite elem_of_app. auto.
Qed.

Lemma calls_emit p e w :
  call_ok opts assetMap cls p (trace w ++ [e]) (urlMap w) e →
  world_calls opts assetMap cls before p w → world_calls opts assetMap cls before p (emit e w).
Proof.
  intros He [Hev Hfiles]. split; [| done]. simpl.
  intros e' [Hin | ->%list_elem_of_singleton]%elem_of_app; [| done].
  apply (call_ok_mono p p _ _ (urlMap w)); [lia | done | auto].
Qed.

Lemma calls_insert p name c w :
  world_calls opts assetMap cls before p w → world_calls opts assetMap cls before p (setFiles (<[name := c]> (files w)) w).
Proof.
  intros [Hev Hfiles]. split; [done |]. simpl. intros Hk n Hn.
  destruct (decide (name = n)) as [-> | Hne].
  - by rewrite lookup_insert_eq.
  - rewrite lookup_insert_ne by done. auto.
Qed.

Lemma calls_delete p name w :
  keepLocal opts = false →
  world_calls opts assetMap cls before p w → world_calls opts assetMap cls before p (setFiles (delete name (files w)) w).
Proof. intros Hk [Hev Hfiles]. split; [done |]. simpl. congruence. Qed.

Lemma calls_record p name c url w :
  world_calls opts assetMap cls before p w →
  world_calls opts assetMap cls before p (uploadFile_record opts name c url w).2
  ∧ pending_ok opts assetMap cls p
      (trace (uploadFile_record opts name c url w).2)
      (name, (uploadFile_record opts name c url w).1)
  ∧ ∃ new, trace (uploadFile_record opts name c url w).2 = trace w ++ new.
Proof.
  intros Hw. unfold uploadFile_record.
  assert (∃ new, trace w = trace w ++ new) as Hsame
    by (exists []; by rewrite app_nil_r).
  destruct url; try done.
  destruct (truthy (VStr s) && isString (VStr s)); [| done].
  assert (world_calls opts assetMap cls before p (setMaps (JSMap.set name s (urlMap w))
                           (JSMap.set (md5 c) (VStr s) (urlCacheMap w)) w))
    as Hset.
  { destruct Hw as [Hev Hfiles]. split; [| done]. simpl.
    intros e He. rewrite <- (app_nil_r (trace w)).
    apply (call_ok_mono p p _ _ (urlMap w)); [lia | | auto].
    intros k Hk. apply JSMap_keys_set. auto. }
  destruct (keepLocal opts) eqn:Hk; simpl; [done |].
  split_and!; [| done | by eexists].
  apply calls_emit; [| done]. simpl. split; [done |].
  apply JSMap_keys_set. by left.
Qed.

Lemma calls_lookup p name c w :
  name ∈ uploadNames cls p → prepared assetMap (trace w) p name c →
  (p ≠ PResource → EWriteFile name c ∈ trace w) →
  world_calls opts assetMap cls before p w →
  world_calls opts assetMap cls before p (uploadFile_lookup opts name c w).2
  ∧ pending_ok opts assetMap cls p
      (trace (uploadFile_lookup opts name c w).2)
      (name, (uploadFile_lookup opts name c w).1)
  ∧ ∃ new, trace (uploadFile_lookup opts name c w).2 = trace w ++ new.
Proof.
  intros Hn Hprep Hwr Hw. unfold uploadFile_lookup.
  destruct (truthy _); [by apply calls_record |].
  simpl. split_and!; [| done | by eexists].
  apply calls_emit; [| done]. simpl. split; [done |].
  exists p. split_and!; [lia | done | by apply prepared_mono |].
  intros Hne. rewrite elem_of_app. auto.
Qed.

Lemma calls_resume p n t o w :
  pending_ok opts assetMap cls p (trace w) (n, t) → world_calls opts assetMap cls before p w →
  world_calls opts assetMap cls before p (resume opts t o w).2
  ∧ pending_ok opts assetMap cls p (trace (resume opts t o w).2)
      (n, (resume opts t o w).1)
  ∧ ∃ new, trace (resume opts t o w).2 = trace w ++ new.
Proof.
  intros Ht Hw.
  assert (∃ new, trace w = trace w ++ new) as Hsame
    by (exists []; by rewrite app_nil_r).
  unfold pending_ok in Ht. simpl in Ht.
  destruct t, o; simpl; try done.
  - destruct Ht as (Hn & Hp & Hprep & Hwr).
    destruct (calls_lookup p name c
                (setFiles (<[outputFile name:=c]> (files w)) w))
      as (? & Hpend & ?); auto using calls_insert.
  - destruct (calls_record p name c v w Hw) as (? & Hpend & ?). done.
  - split_and!; [by apply calls_delete | done | done].
  - split_and!; [by apply calls_insert | done | done].
  - split_and!; [by apply calls_insert | done | done].
Qed.

Lemma calls_resumeTask p name o ts w :
  calls_ok opts assetMap cls before p ts w →
  calls_ok opts assetMap cls before p (resumeTask opts name o ts w).1
           (resumeTask opts name o ts w).2.
Proof.
  intros (Hw & Hts).
  assert (world_calls opts assetMap cls before p (resumeTask opts name o ts w).2
          ∧ Forall (pending_ok opts assetMap cls p
                      (trace (resumeTask opts name o ts w).2))
                   (resumeTask opts name o ts w).1
          ∧ ∃ new, trace (resumeTask opts name o ts w).2 = trace w ++ new)
    as (Hw' & Hts' & _).
  { induction Hts as [| [n t] ts Ht Hts IH]; simpl.
    - split_and!; [done.. |]. exists []. by rewrite app_nil_r.
    - destruct (decide (n = name)).
      + destruct (calls_resume p n t o w Ht Hw) as (? & ? & new & Hnew).
        destruct (resume opts t o w) as [t' w']. simpl in *.
        split_and!; [done | | by exists new].
        constructor; [done |]. rewrite Hnew.
        eapply Forall_impl; [exact Hts |]. intros. by apply pending_ok_mono.
      + destruct IH as (? & ? & new & Hnew).
        destruct (resumeTask opts name o ts w) as [ts' w']. simpl in *.
        split_and!; [done | | by exists new].
        constructor; [| done]. rewrite Hnew. by apply pending_ok_mono. }
  by split.
Qed.

(** While a phase other than the first starts, the barrier of the phase
    before it carries the [urlMap] as it still is. *)
Lemma calls_launchOne p ts w name :
  p ≠ PManifest →
  (p = PResource → name ∈ resourceNames cls) →
  (p ≠ PResource → writes opts cls p name) →
  (p ≠ PResource →
   ∃ q, rank p = S (rank q) ∧ EBarrier q (urlMap w) ∈ trace w) →
  calls_ok opts assetMap cls before p ts w →
  calls_ok opts assetMap cls before p
    (launchOne opts assetMap p (ts, w) name).1
    (launchOne opts assetMap p (ts, w) name).2
  ∧ (p ≠ PResource →
     ∃ q, rank p = S (rank q)
          ∧ EBarrier q (urlMap (launchOne opts assetMap p (ts, w) name).2)
            ∈ trace (launchOne opts assetMap p (ts, w) name).2).
Proof.
  intros Hpm Hres Hwrites Hbar [Hw Hts]. unfold launchOne.
  destruct (assetMap !! name) as [c |] eqn:Hc; cbv beta iota.
  2: { split; [| done]. split; [done |]. apply Forall_app. split; [done |].
       by apply Forall_singleton. }
  destruct p; try done.
  - specialize (Hres eq_refl).
    destruct (calls_lookup PResource name c w) as (Hw' & Hp' & new & Hnew);
      [done.. |].
    unfold uploadFile. destruct (uploadFile_lookup opts name c w) as [t w'].
    simpl in *. split; [| done]. split; [done |]. apply Forall_app.
    split; [| by apply Forall_singleton]. rewrite Hnew.
    eapply Forall_impl; [exact Hts |]. intros. by apply pending_ok_mono.
  - destruct Hbar as (q & Hq & Hb); [done |].
    assert (q = PResource) as -> by (destruct q; simpl in Hq; congruence).
    unfold uploadFile. simpl. split; [split |].
    + apply calls_emit.
      * unfold call_ok; simpl. exists PStyle. split_and!; [simpl; lia | by apply Hwrites |].
        simpl. exists c, (urlMap w). rewrite !elem_of_app. auto.
      * apply calls_emit; [| done]. unfold call_ok; simpl. split; [by apply Hwrites |].
        rewrite elem_of_app. auto.
    + apply Forall_app. split.
      * eapply Forall_impl; [exact Hts |]. intros. simpl.
        rewrite <- app_assoc. by apply pending_ok_mono.
      * apply Forall_singleton. unfold pending_ok. simpl.
        split_and!; [by apply Hwrites | done | |].
        -- simpl. exists c, (urlMap w). rewrite !elem_of_app. auto.
        -- rewrite !elem_of_app. right. by apply list_elem_of_singleton.
    + intros _. exists PResource. split; [done |]. simpl.
      rewrite !elem_of_app. auto.
  - destruct Hbar as (q & Hq & Hb); [done |].
    assert (q = PStyle) as -> by (destruct q; simpl in Hq; congruence).
    unfold uploadFile. simpl. split; [split |].
    + apply calls_emit.
      * unfold call_ok; simpl. exists PEntry. split_and!; [simpl; lia | by apply Hwrites |].
        simpl. exists c, (urlMap w). rewrite !elem_of_app. auto.
      * apply calls_emit; [| done]. unfold call_ok; simpl. split; [by apply Hwrites |].
        exists (urlMap w). rewrite elem_of_app. auto.
    + apply Forall_app. split.
      * eapply Forall_impl; [exact Hts |]. intros. simpl.
        rewrite <- app_assoc. by apply pending_ok_mono.
      * apply Forall_singleton. unfold pending_ok. simpl.
        split_and!; [by apply Hwrites | done | |].
        -- simpl. exists c, (urlMap w). rewrite !elem_of_app. auto.
        -- rewrite !elem_of_app. right. by apply list_elem_of_singleton.
    + intros _. exists PStyle. split; [done |]. simpl.
      rewrite !elem_of_app. auto.
  - destruct Hbar as (q & Hq & Hb); [done |].
    assert (q = PEntry) as -> by (destruct q; simpl in Hq; congruence).
    simpl. split; [split |].
    + apply calls_emit.
      * unfold call_ok; simpl. exists PDocument. split_and!; [simpl; lia | by apply Hwrites |].
        simpl. exists c, (urlMap w). rewrite !elem_of_app. auto.
      * apply calls_emit; [| done]. unfold call_ok; simpl. split; [by apply Hwrites |].
        rewrite elem_of_app. auto.
    + apply Forall_app. split.
      * eapply Forall_impl; [exact Hts |]. intros. simpl.
        rewrite <- app_assoc. by apply pending_ok_mono.
      * by apply Forall_singleton.
    + intros _. exists PEntry. split; [done |]. simpl.
      rewrite !elem_of_app. auto.
Qed.

Lemma calls_launchAll p names acc :
  p ≠ PManifest →
  (∀ n, n ∈ names → (p = PResource → n ∈ resourceNames cls)
                    ∧ (p ≠ PResource → writes opts cls p n)) →
  (p ≠ PResource →
   ∃ q, rank p = S (rank q) ∧ EBarrier q (urlMap acc.2) ∈ trace acc.2) →
  calls_ok opts assetMap cls before p acc.1 acc.2 →
  calls_ok opts assetMap cls before p
    (foldl (launchOne opts assetMap p) acc names).1
    (foldl (launchOne opts assetMap p) acc names).2.
Proof.
  intros Hpm. revert acc.
  induction names as [| n names IH]; intros [ts w] Hn Hbar Hok; [done |].
  cbn [foldl fst snd] in *.
  destruct (calls_launchOne p ts w n) as [Hok' Hbar']; auto.
  { apply Hn. by left. }
  { apply Hn. by left. }
  destruct (launchOne opts assetMap p (ts, w) n) as [ts' w'].
  apply IH; auto. intros. apply Hn. by right.
Qed.

Lemma calls_launch p w :
  (p ≠ PResource →
   ∃ q, rank p = S (rank q) ∧ EBarrier q (urlMap w) ∈ trace w) →
  world_calls opts assetMap cls before p w →
  calls_ok opts assetMap cls before p (launch opts assetMap cls p w).1
           (launch opts assetMap cls p w).2.
Proof.
  intros Hbar Hw.
  assert (calls_ok opts assetMap cls before p [] w) as Hok by (by split).
  destruct p; simpl;
    try (apply (calls_launchAll _ _ ([], w)); [done | | done | done];
         intros n Hn; split; intros; done).
  destruct Hbar as (q & Hq & Hb); [done |].
  assert (q = PDocument) as -> by (destruct q; simpl in Hq; congruence).
  assert (∀ name, manifestTarget opts = Some name →
            calls_ok opts assetMap cls before PManifest
              [(name, AwaitManifest name (Text (getManifestJSON (urlMap w) true)))]
              (emit (EWriteFile name (Text (getManifestJSON (urlMap w) true))) w))
    as Hwrite.
  { intros name Hname. split; [| by apply Forall_singleton].
    apply calls_emit; [| done]. unfold call_ok. simpl. exists PManifest.
    split_and!; [simpl; lia | done |]. simpl. exists (urlMap w).
    rewrite elem_of_app. auto. }
  unfold manifestTarget in Hwrite.
  destruct (manifestFilename opts) as [| [|] | name]; simpl; try done.
  - by apply Hwrite.
  - case_bool_decide; simpl; [done | by apply Hwrite].
Qed.

(** The invariant holds in every configuration of a cycle. *)
Lemma calls_cycle sched w :
  trace w = [] → before = files w →
  holds (calls_ok opts assetMap cls before)
        (cycle opts assetMap cls sched w).
Proof.
  intros Ht Hf. apply cycle_holds.
  - intros p ts w' name o. apply calls_resumeTask.
  - intros p p' q ts w' Hq [[Hev Hfiles] _] _.
    assert (rank p' = S (rank p)) as Hr by (destruct p; simplify_eq/=; done).
    apply calls_launch.
    + intros _. exists p. split; [done |]. simpl. rewrite elem_of_app.
      right. by apply list_elem_of_singleton.
    + apply calls_emit; [done |]. split; [| done].
      intros e He. rewrite <- (app_nil_r (trace w')).
      apply (call_ok_mono p p' _ _ (urlMap w'));
        [lia | done | auto].
  - intros ts w' [Hw' Hts] _. split.
    + by apply calls_emit.
    + eapply Forall_impl; [exact Hts |]. intros. by apply pending_ok_mono.
  - apply calls_launch; [done |]. split.
    + rewrite Ht. intros e He. inv He.
    + intros _ name. by rewrite Hf.
Qed.

End CallsOk.

(** What [uploadContent] is called with: the extension of the name, and
    the content of a resource as it was collected, of a style as rewritten
    with the [urlMap] at the end of the resource phase, of an entry script
    with the manifest of the [urlMap] at the end of the style phase injected;
    for a style and an entry script that content has been handed to
    [fs.writeFile] under the same name. *)
Theorem uploads_carry_prepared_content `{Host} (opts : options)
    (assetMap : gmap string content) (cls : classes)
    (sched : list (string * outcome)) (w : world) (f : string) (c : content)
    (e : string) :
  trace w = [] →
  EUpload f c e ∈ trace (cworld (cycle opts assetMap cls sched w)) →
  e = path_extname f
  ∧ ((f ∈ resourceNames cls ∧ assetMap !! f = Some c)
     ∨ (f ∈ styleNames cls
        ∧ EWriteFile f c ∈ trace (cworld (cycle opts assetMap cls sched w))
        ∧ ∃ c0 um,
            assetMap !! f = Some c0
            ∧ EBarrier PResource um
                ∈ trace (cworld (cycle opts assetMap cls sched w))
            ∧ c = Text (replaceCSSUrls f c0 um))
     ∨ (f ∈ epNames cls
        ∧ EWriteFile f c ∈ trace (cworld (cycle opts assetMap cls sched w))
        ∧ ∃ c0 um,
            assetMap !! f = Some c0
            ∧ EBarrier PStyle um
                ∈ trace (cworld (cycle opts assetMap cls sched w))
            ∧ c = Text (injectAssetManifest c0 (getManifestJSON um false)))).
Proof.
  intros Ht Hin.
  destruct (calls_cycle opts assetMap cls (files w) sched w Ht eq_refl)
    as ([[Hev _] _] & _).
  destruct (Hev _ Hin) as (-> & q & _ & Hf & Hprep & Hwr). split; [done |].
  destruct q; simpl in *; [auto | | | inv Hf | inv Hf].
  - right. left. split_and!; [done | by apply Hwr | done].
  - right. right. split_and!; [done | by apply Hwr | done].
Qed.

Lemma uploads_carry_witness :
  "" = path_extname (Host := exampleHost) "app.css"
  ∧ (("app.css" ∈ resourceNames (classify siteStats)
      ∧ siteAssets !! "app.css" = Some (Text "body{background:url(logo.png)}"))
     ∨ ("app.css" ∈ styleNames (classify siteStats)
        ∧ EWriteFile "app.css" (Text "body{background:url(logo.png)}")
            ∈ trace (cworld siteCycle)
        ∧ ∃ c0 um,
            siteAssets !! "app.css" = Some c0
            ∧ EBarrier PResource um ∈ trace (cworld siteCycle)
            ∧ Text "body{background:url(logo.png)}"
              = Text (replaceCSSUrls (Host := exampleHost) "app.css" c0 um))
     ∨ ("app.css" ∈ epNames (classify siteStats)
        ∧ EWriteFile "app.css" (Text "body{background:url(logo.png)}")
            ∈ trace (cworld siteCycle)
        ∧ ∃ c0 um,
            siteAssets !! "app.css" = Some c0
            ∧ EBarrier PStyle um ∈ trace (cworld siteCycle)
            ∧ Text "body{background:url(logo.png)}"
              = Text (injectAssetManifest (Host := exampleHost) c0
                        (getManifestJSON (H := exampleHost) um false)))).
Proof.
  apply (uploads_carry_prepared_content (H := exampleHost) siteOptions
           siteAssets (classify siteStats) siteSchedule siteWorld).
  - reflexivity.
  - vm_compute. do 5 apply list_elem_of_further. apply list_elem_of_here.
Defined.


(** What [fs.writeFile] is called with, and nothing else is written: a
    style or an entry script with the content that is then uploaded, a
    document with the [urlMap] and its manifest at the end of the entry
    phase interpolated, and the manifest file, under the configured name,
    with the formatted manifest of the [urlMap] at the end of the document
    phase. *)
Theorem writes_carry_prepared_content `{Host} (opts : options)
    (assetMap : gmap string content) (cls : classes)
    (sched : list (string * outcome)) (w : world) (n : string)
    (c : content) :
  trace w = [] →
  EWriteFile n c ∈ trace (cworld (cycle opts assetMap cls sched w)) →
  (n ∈ styleNames cls
   ∧ ∃ c0 um, assetMap !! n = Some c0
              ∧ EBarrier PResource um
                  ∈ trace (cworld (cycle opts assetMap cls sched w))
              ∧ c = Text (replaceCSSUrls n c0 um))
  ∨ (n ∈ epNames cls
     ∧ ∃ c0 um, assetMap !! n = Some c0
                ∧ EBarrier PStyle um
                    ∈ trace (cworld (cycle opts assetMap cls sched w))
                ∧ c = Text (injectAssetManifest c0
                              (getManifestJSON um false)))
  ∨ (n ∈ htmlNames cls
     ∧ ∃ c0 um, assetMap !! n = Some c0
                ∧ EBarrier PEntry um
                    ∈ trace (cworld (cycle opts assetMap cls sched w))
                ∧ c = Text (interpolateHTMLAssets c0 um
                              (getManifestJSON um false)))
  ∨ (manifestTarget opts = Some n
     ∧ ∃ um, EBarrier PDocument um
               ∈ trace (cworld (cycle opts assetMap cls sched w))
             ∧ c = Text (getManifestJSON um true)).
Proof.
  intros Ht Hin.
  destruct (calls_cycle opts assetMap cls (files w) sched w Ht eq_refl)
    as ([[Hev _] _] & _).
  destruct (Hev _ Hin) as (q & _ & Hwr & Hprep).
  destruct q; simpl in *; [done | auto..].
Qed.

Lemma writes_carry_witness :
  ("app.css" ∈ styleNames (classify siteStats)
   ∧ ∃ c0 um, siteAssets !! "app.css" = Some c0
              ∧ EBarrier PResource um ∈ trace (cworld siteCycle)
              ∧ Text "body{background:url(logo.png)}"
                = Text (replaceCSSUrls (Host := exampleHost) "app.css" c0 um))
  ∨ ("app.css" ∈ epNames (classify siteStats)
     ∧ ∃ c0 um, siteAssets !! "app.css" = Some c0
                ∧ EBarrier PStyle um ∈ trace (cworld siteCycle)
                ∧ Text "body{background:url(logo.png)}"
                  = Text (injectAssetManifest (Host := exampleHost) c0
                            (getManifestJSON (H := exampleHost) um false)))
  ∨ ("app.css" ∈ htmlNames (classify siteStats)
     ∧ ∃ c0 um, siteAssets !! "app.css" = Some c0
                ∧ EBarrier PEntry um ∈ trace (cworld siteCycle)
                ∧ Text "body{background:url(logo.png)}"
                  = Text (interpolateHTMLAssets (Host := exampleHost) c0 um
                            (getManifestJSON (H := exampleHost) um false)))
  ∨ (manifestTarget siteOptions = Some "app.css"
     ∧ ∃ um, EBarrier PDocument um ∈ trace (cworld siteCycle)
             ∧ Text "body{background:url(logo.png)}"
               = Text (getManifestJSON (H := exampleHost) um true)).
Proof.
  apply (writes_carry_prepared_content (H := exampleHost) siteOptions
           siteAssets (classify siteStats) siteSchedule siteWorld).
  - reflexivity.
  - vm_compute. do 4 apply list_elem_of_further. apply list_elem_of_here.
Defined.


(** [fs.unlink] is called only when local files are not kept, and only for
    a name that has a location in [urlMap]; when local files are kept, no
    file that was in the output directory is missing from it, at any point
    of the cycle. *)
Theorem unlink_only_when_asked `{Host} (opts : options)
    (assetMap : gmap string content) (cls : classes)
    (sched : list (string * outcome)) (w : world) :
  trace w = [] →
  (∀ n, EUnlink n ∈ trace (cworld (cycle opts assetMap cls sched w)) →
        keepLocal opts = false
        ∧ n ∈ JSMap.keys (urlMap (cworld (cycle opts assetMap cls sched w))))
  ∧ (keepLocal opts = true →
     ∀ name, is_Some (files w !! name) →
             is_Some (files (cworld (cycle opts assetMap cls sched w))
                      !! name)).
Proof.
  intros Ht.
  destruct (calls_cycle opts assetMap cls (files w) sched w Ht eq_refl)
    as ([[Hev Hfiles] _] & _).
  split; [| done]. intros n Hin. exact (Hev _ Hin).
Qed.

Lemma unlink_only_witness :
  (∀ n, EUnlink n ∈ trace (cworld siteCycle) →
        keepLocal siteOptions = false
        ∧ n ∈ JSMap.keys (urlMap (cworld siteCycle)))
  ∧ (keepLocal siteOptions = true →
     ∀ name, is_Some (files siteWorld !! name) →
             is_Some (files (cworld siteCycle) !! name)).
Proof.
  apply (unlink_only_when_asked (H := exampleHost) siteOptions siteAssets
           (classify siteStats) siteSchedule siteWorld).
  reflexivity.
Defined.


(** [replaceCSSUrls] and [interpolateHTMLAssets] are called for styles and
    documents only, with the [urlMap] as it was when the [Promise.all] of
    the resource phase, respectively of the entry phase, resumed (there is
    one such point): styles see locations of resources only, documents the
    locations of everything published, with the manifest of that same
    map. *)
Theorem rewriters_see_the_phase_before `{Host} (opts : options)
    (assetMap : gmap string content) (cls : classes)
    (sched : list (string * outcome)) (w : world) :
  urlMap w = JSMap.empty → trace w = [] →
  (∀ n um,
     EReplaceCSS n um ∈ trace (cworld (cycle opts assetMap cls sched w)) →
     n ∈ styleNames cls
     ∧ EBarrier PResource um
         ∈ trace (cworld (cycle opts assetMap cls sched w))
     ∧ (∀ um', EBarrier PResource um'
                 ∈ trace (cworld (cycle opts assetMap cls sched w)) →
               um' = um)
     ∧ (∀ k, k ∈ JSMap.keys um → k ∈ resourceNames cls))
  ∧ (∀ n um m,
       EInterpolate n um m
         ∈ trace (cworld (cycle opts assetMap cls sched w)) →
       n ∈ htmlNames cls
       ∧ EBarrier PEntry um
           ∈ trace (cworld (cycle opts assetMap cls sched w))
       ∧ (∀ um', EBarrier PEntry um'
                   ∈ trace (cworld (cycle opts assetMap cls sched w)) →
                 um' = um)
       ∧ m = getManifestJSON um false
       ∧ (∀ k, k ∈ JSMap.keys um →
               k ∈ resourceNames cls ∨ k ∈ styleNames cls
               ∨ k ∈ epNames cls)).
Proof.
  intros Hu Ht.
  destruct (calls_cycle opts assetMap cls (files w) sched w Ht eq_refl)
    as ([[Hev _] _] & _).
  destruct (run_ok opts assetMap cls sched _
              (afterEmit_ok opts assetMap cls w Hu Ht))
    as ([_ _ _ Hbar Honce _] & _ & _).
  fold (cycle opts assetMap cls sched w) in Hbar, Honce.
  split.
  - intros n um Hin. destruct (Hev _ Hin) as [Hn Hb].
    split_and!; [done.. | |].
    + intros um' Hb'. by apply (Honce PResource).
    + intros k Hk. destruct (Hbar _ _ Hb) as [_ Hkeys].
      destruct (Hkeys k Hk) as (q & Hq & Hkq).
      destruct q; simpl in *; [done | lia..].
  - intros n um m Hin. destruct (Hev _ Hin) as (Hn & Hb & Hm).
    split_and!; [done.. | | done |].
    + intros um' Hb'. by apply (Honce PEntry).
    + intros k Hk. destruct (Hbar _ _ Hb) as [_ Hkeys].
      destruct (Hkeys k Hk) as (q & Hq & Hkq).
      destruct q; simpl in *; auto; lia.
Qed.

Lemma rewriters_see_witness :
  (∀ n um,
     EReplaceCSS n um ∈ trace (cworld siteCycle) →
     n ∈ styleNames (classify siteStats)
     ∧ EBarrier PResource um ∈ trace (cworld siteCycle)
     ∧ (∀ um', EBarrier PResource um' ∈ trace (cworld siteCycle) → um' = um)
     ∧ (∀ k, k ∈ JSMap.keys um → k ∈ resourceNames (classify siteStats)))
  ∧ (∀ n um m,
       EInterpolate n um m ∈ trace (cworld siteCycle) →
       n ∈ htmlNames (classify siteStats)
       ∧ EBarrier PEntry um ∈ trace (cworld siteCycle)
       ∧ (∀ um', EBarrier PEntry um' ∈ trace (cworld siteCycle) → um' = um)
       ∧ m = getManifestJSON (H := exampleHost) um false
       ∧ (∀ k, k ∈ JSMap.keys um →
               k ∈ resourceNames (classify siteStats)
               ∨ k ∈ styleNames (classify siteStats)
               ∨ k ∈ epNames (classify siteStats))).
Proof.
  apply (rewriters_see_the_phase_before (H := exampleHost) siteOptions
           siteAssets (classify siteStats) siteSchedule siteWorld).
  - reflexivity.
  - reflexivity.
Defined.

(** ** What the cycle records *)

Lemma JSMap_get_set {V} k k' (v : V) m :
  JSMap.get k' (JSMap.set k v m)
  = if decide (k = k') then Some v else JSMap.get k' m.
Proof.
  destruct (decide (k = k')) as [-> | Hne].
  - apply JSMap_get_set_eq.
  - by apply JSMap_get_set_ne.
Qed.

(** Whatever the schedule, the cycle records only locations: an entry of
    [urlMap] that was not there before is a non-empty string; an entry of
    the cache is the one that was there before or a non-empty string; no
    fingerprint leaves the cache; and the cache keeps distinct fingerprints
    and holds only strings if it did so before. *)
Theorem cycle_records_only_locations `{Host} (opts : options)
    (assetMap : gmap string content) (cls : classes)
    (sched : list (string * outcome)) (w : world) :
  (∀ n u, JSMap.get n (urlMap (cworld (cycle opts assetMap cls sched w)))
          = Some u →
          JSMap.get n (urlMap w) = Some u ∨ u ≠ "")
  ∧ (∀ fp v,
       JSMap.get fp (urlCacheMap (cworld (cycle opts assetMap cls sched w)))
       = Some v →
       JSMap.get fp (urlCacheMap w) = Some v ∨ ∃ u, v = VStr u ∧ u ≠ "")
  ∧ (∀ fp, fp ∈ JSMap.keys (urlCacheMap w) →
           fp ∈ JSMap.keys
                  (urlCacheMap (cworld (cycle opts assetMap cls sched w))))
  ∧ (NoDup (JSMap.keys (urlCacheMap w)) →
     NoDup (JSMap.keys
              (urlCacheMap (cworld (cycle opts assetMap cls sched w)))))
  ∧ (Forall (fun kv => isString kv.2 = true) (urlCacheMap w) →
     Forall (fun kv => isString kv.2 = true)
            (urlCacheMap (cworld (cycle opts assetMap cls sched w)))).
Proof.
  apply (closed_cycle opts assetMap cls
           (fun w' =>
              (∀ n u, JSMap.get n (urlMap w') = Some u →
                      JSMap.get n (urlMap w) = Some u ∨ u ≠ "")
              ∧ (∀ fp v, JSMap.get fp (urlCacheMap w') = Some v →
                         JSMap.get fp (urlCacheMap w) = Some v
                         ∨ ∃ u, v = VStr u ∧ u ≠ "")
              ∧ (∀ fp, fp ∈ JSMap.keys (urlCacheMap w) →
                       fp ∈ JSMap.keys (urlCacheMap w'))
              ∧ (NoDup (JSMap.keys (urlCacheMap w)) →
                 NoDup (JSMap.keys (urlCacheMap w')))
              ∧ (Forall (fun kv => isString kv.2 = true) (urlCacheMap w) →
                 Forall (fun kv => isString kv.2 = true) (urlCacheMap w')))).
  - done.
  - done.
  - intros name c u w' Hu (Hurl & Hcache & Hkeys & Hnd & Hstr). simpl.
    split_and!.
    + intros n u'. rewrite JSMap_get_set. case_decide; [| auto].
      intros [= <-]. auto.
    + intros fp v. rewrite JSMap_get_set. case_decide; [| auto].
      intros [= <-]. eauto.
    + intros fp Hfp. apply JSMap_keys_set. auto.
    + intros Hw. by apply JSMap_keys_set_NoDup, Hnd.
    + intros Hw. apply JSMap_set_Forall; [done | auto].
  - split_and!; auto.
Qed.

(** ** Rejections *)

Section Rejections.
Context `{Host}.
Variable opts : options.
Variable assetMap : gmap string content.
Variable cls : classes.

Lemma resume_followUp p o w :
  ∃ new, trace (resume opts p o w).2 = trace w ++ new ∧ Forall followUp new.
Proof.
  assert (∃ new, trace w = trace w ++ new ∧ Forall followUp new) as Hsame
    by (exists []; by rewrite app_nil_r).
  assert (∀ name c url w,
            ∃ new, trace (uploadFile_record opts name c url w).2
                   = trace w ++ new ∧ Forall followUp new) as Hrec.
  { intros name c url w'. unfold uploadFile_record.
    assert (∃ new, trace w' = trace w' ++ new ∧ Forall followUp new)
      by (exists []; by rewrite app_nil_r).
    destruct url; try done.
    destruct (truthy (VStr s) && isString (VStr s)); [| done].
    destruct (keepLocal opts); simpl; [done |].
    eexists. split; [done |]. by apply Forall_singleton. }
  destruct p, o; simpl; try exact Hsame; try apply Hrec.
  unfold uploadFile_lookup. simpl.
  destruct (truthy _); [apply (Hrec name c _ (setFiles _ w)) |].
  simpl. eexists. split; [done |]. by apply Forall_singleton.
Qed.

Lemma resumeTask_followUp name o ts w :
  ∃ new, trace (resumeTask opts name o ts w).2 = trace w ++ new
         ∧ Forall followUp new.
Proof.
  induction ts as [| [n p] ts IH]; simpl.
  - exists []. by rewrite app_nil_r.
  - destruct (decide (n = name)).
    + pose proof (resume_followUp p o w). by destruct (resume opts p o w).
    + by destruct (resumeTask opts name o ts w).
Qed.

Lemma resumeTask_names name o ts w :
  (resumeTask opts name o ts w).1.*1 = ts.*1.
Proof.
  induction ts as [| [n p] ts IH]; simpl; [done |].
  destruct (decide (n = name)).
  - by destruct (resume opts p o w).
  - destruct (resumeTask opts name o ts w). simpl in *. by f_equal.
Qed.

(** Once the hook has failed it stays failed. *)
Lemma failed_run e sched c :
  cstatus c = Failed e →
  cstatus (run opts assetMap cls sched c) = Failed e
  ∧ cphase (run opts assetMap cls sched c) = cphase c
  ∧ cqueue (run opts assetMap cls sched c) = cqueue c
  ∧ (ctasks (run opts assetMap cls sched c)).*1 = (ctasks c).*1
  ∧ ∃ new, trace (cworld (run opts assetMap cls sched c))
           = trace (cworld c) ++ new
           ∧ Forall followUp new.
Proof.
  revert c. induction sched as [| ch sched IH]; intros c Hc; simpl.
  - split_and!; [done.. |]. exists []. by rewrite app_nil_r.
  - assert (cstatus (step opts assetMap cls c ch) = Failed e
            ∧ cphase (step opts assetMap cls c ch) = cphase c
            ∧ cqueue (step opts assetMap cls c ch) = cqueue c
            ∧ (ctasks (step opts assetMap cls c ch)).*1 = (ctasks c).*1
            ∧ ∃ new, trace (cworld (step opts assetMap cls c ch))
                     = trace (cworld c) ++ new ∧ Forall followUp new)
      as (Hs & Hp & Hq & Hn & new & Hnew & Hf).
    { unfold step. rewrite Hc.
      pose proof (resumeTask_followUp ch.1 ch.2 (ctasks c) (cworld c)).
      pose proof (resumeTask_names ch.1 ch.2 (ctasks c) (cworld c)).
      by destruct (resumeTask opts ch.1 ch.2 (ctasks c) (cworld c)). }
    destruct (IH _ Hs) as (? & Hp' & Hq' & Hn' & new' & Hnew' & Hf').
    split_and!; [done | congruence.. |].
    exists (new ++ new'). split; [by rewrite Hnew', Hnew, app_assoc |].
    by apply Forall_app.
Qed.

(** Rejecting the first activation of a name that has not settled leaves
    the world alone and gives the first rejection of the phase. *)
Lemma resumeTask_reject name t e ts w :
  firstRejection ts = None → JSMap.get name ts = Some t → t ≠ Fulfilled →
  ∃ ts', resumeTask opts name (Reject e) ts w = (ts', w)
         ∧ firstRejection ts' = Some e.
Proof.
  induction ts as [| [n p] ts IH]; simpl; [done |].
  intros Hrej Hget Ht.
  destruct (rejection p) eqn:Hp; [done |].
  destruct (decide (name = n)) as [-> | Hne].
  - injection Hget as ->. rewrite decide_True by done.
    destruct t; simpl in *; try done; eexists; (split; [reflexivity | done]).
  - rewrite decide_False by done.
    destruct (IH Hrej Hget Ht) as (ts' & -> & Hrej').
    eexists. split; [reflexivity |]. simpl. by rewrite Hp.
Qed.

Lemma settlePhase_rejected queue p ts w e :
  firstRejection ts = Some e →
  settlePhase opts assetMap cls queue p ts w
  = {| cworld := w; cphase := p; cqueue := queue; ctasks := ts;
       cstatus := Failed e |}.
Proof. intros Hrej. destruct queue; simpl; by rewrite Hrej. Qed.

End Rejections.

(** When an [await] of an activation is rejected while the hook is running,
    the hook fails with that rejection, at once and for good: whatever
    settles afterwards, the phase stays the same, no later phase starts, and
    the only calls that still leave the plugin are the uploads and unlinks
    of the activations of that phase that are still under way: nothing is
    written, no rewriter is called and no [Promise.all] resumes. *)
Theorem rejection_fails_the_hook `{Host} (opts : options)
    (assetMap : gmap string content) (cls : classes)
    (sched : list (string * outcome)) (w : world) (name : string)
    (t : pending) (e : error) :
  cstatus (cycle opts assetMap cls sched w) = Running →
  JSMap.get name (ctasks (cycle opts assetMap cls sched w)) = Some t →
  t ≠ Fulfilled →
  cstatus (step opts assetMap cls (cycle opts assetMap cls sched w)
             (name, Reject e)) = Failed e
  ∧ cworld (step opts assetMap cls (cycle opts assetMap cls sched w)
              (name, Reject e))
    = cworld (cycle opts assetMap cls sched w)
  ∧ ∀ sched',
      cstatus (run opts assetMap cls sched'
                 (step opts assetMap cls (cycle opts assetMap cls sched w)
                    (name, Reject e))) = Failed e
      ∧ cphase (run opts assetMap cls sched'
                  (step opts assetMap cls (cycle opts assetMap cls sched w)
                     (name, Reject e)))
        = cphase (cycle opts assetMap cls sched w)
      ∧ ∃ new,
          trace (cworld (run opts assetMap cls sched'
                           (step opts assetMap cls
                              (cycle opts assetMap cls sched w)
                              (name, Reject e))))
          = trace (cworld (cycle opts assetMap cls sched w)) ++ new
          ∧ Forall followUp new.
Proof.
  intros Hrun Hget Ht.
  destruct (cycle_holds opts assetMap cls (fun _ _ _ => True) ltac:(done)
              ltac:(done) ltac:(done) sched w I) as (_ & _ & _ & Hrej).
  destruct (Hrej Hrun) as [Hnone _]. clear Hrej. rename Hnone into Hrej.
  set (c := cycle opts assetMap cls sched w) in *.
  destruct (resumeTask_reject opts name t e (ctasks c) (cworld c) Hrej Hget Ht)
    as (ts' & Hres & Hrej').
  assert (step opts assetMap cls c (name, Reject e)
          = {| cworld := cworld c; cphase := cphase c; cqueue := cqueue c;
               ctasks := ts'; cstatus := Failed e |}) as Hstep.
  { unfold step. cbn [fst snd]. rewrite Hres, Hrun.
    by apply settlePhase_rejected. }
  rewrite Hstep. split_and!; [done.. |]. intros sched'.
  destruct (failed_run opts assetMap cls e sched'
              {| cworld := cworld c; cphase := cphase c; cqueue := cqueue c;
                 ctasks := ts'; cstatus := Failed e |} eq_refl)
    as (? & ? & _ & _ & ?).
  done.
Qed.

Lemma rejection_witness :
  cstatus (step (H := exampleHost) siteOptions siteAssets (classify siteStats)
             siteStart ("logo.png", Reject (HostError "offline")))
  = Failed (HostError "offline")
  ∧ cworld (step (H := exampleHost) siteOptions siteAssets
              (classify siteStats) siteStart
              ("logo.png", Reject (HostError "offline")))
    = cworld siteStart
  ∧ ∀ sched',
      cstatus (run (H := exampleHost) siteOptions siteAssets
                 (classify siteStats) sched'
                 (step (H := exampleHost) siteOptions siteAssets
                    (classify siteStats) siteStart
                    ("logo.png", Reject (HostError "offline"))))
      = Failed (HostError "offline")
      ∧ cphase (run (H := exampleHost) siteOptions siteAssets
                  (classify siteStats) sched'
                  (step (H := exampleHost) siteOptions siteAssets
                     (classify siteStats) siteStart
                     ("logo.png", Reject (HostError "offline"))))
        = cphase siteStart
      ∧ ∃ new,
          trace (cworld (run (H := exampleHost) siteOptions siteAssets
                           (classify siteStats) sched'
                           (step (H := exampleHost) siteOptions siteAssets
                              (classify siteStats) siteStart
                              ("logo.png", Reject (HostError "offline")))))
          = trace (cworld siteStart) ++ new
          ∧ Forall followUp new.
Proof.
  apply (rejection_fails_the_hook (H := exampleHost) siteOptions siteAssets
           (classify siteStats) [] siteWorld "logo.png"
           (AwaitUpload "logo.png" (Buffer "PNG")) (HostError "offline")).
  - reflexivity.
  - reflexivity.
  - discriminate.
Defined.

(** ** The output directory after the cycle *)

Section OutputOk.
Context `{Host}.
Variable opts : options.
Variable assetMap : gmap string content.
Variable cls : classes.
Hypothesis html_files : NoDup (outputFile <$> htmlNames cls).

Lemma document_resumeTask name o ts w :
  NoDup (outputFile <$> ts.*1) → Forall (document_task assetMap w) ts →
  Forall (document_task assetMap (resumeTask opts name o ts w).2)
         (resumeTask opts name o ts w).1
  ∧ urlMap (resumeTask opts name o ts w).2 = urlMap w
  ∧ trace (resumeTask opts name o ts w).2 = trace w
  ∧ (∀ f, (name ∈ ts.*1 → f ≠ outputFile name) →
          files (resumeTask opts name o ts w).2 !! f = files w !! f).
Proof.
  intros Hnd Hts. revert Hnd.
  induction Hts as [| [n t] ts Ht Hts IH]; intros Hnd; simpl; [done |].
  rewrite !fmap_cons in Hnd. apply NoDup_cons in Hnd as [Hn Hnd].
  cbn [fst] in Hn.
  destruct (decide (n = name)) as [-> | Hne].
  - assert (∀ f, (∀ m, m ≠ outputFile name → f !! m = files w !! m) →
              Forall (document_task assetMap (setFiles f w)) ts) as Hrest.
    { intros f Hf. apply Forall_forall. intros [m t'] Hin.
      assert (outputFile m ≠ outputFile name) as Hm.
      { intros Heq. apply Hn. rewrite <- Heq.
        apply list_elem_of_fmap_2. by apply (list_elem_of_fmap_2 fst) in Hin. }
      eapply Forall_forall in Hts; [| exact Hin].
      unfold document_task in *. simpl in *. destruct t'; try done.
      intros c0 Hc0. rewrite Hf by done. auto. }
    unfold document_task in Ht. simpl in Ht.
    destruct t, o; simpl; try done.
    + destruct Ht as (-> & c0 & Hc0 & ->). split_and!; try done.
      * constructor.
        -- unfold document_task. simpl. intros c1 Hc1.
           rewrite lookup_insert_eq. congruence.
        -- apply Hrest. intros m Hm. by rewrite lookup_insert_ne.
      * intros m Hm. rewrite lookup_insert_ne; [done |].
        intros <-. apply Hm; [left | done].
    + split_and!; try done. constructor; [done |].
      apply Forall_forall. intros x Hx. by eapply Forall_forall in Hts.
    + split_and!; try done. by constructor.
    + split_and!; try done. by constructor.
    + split_and!; try done. by constructor.
    + split_and!; try done. by constructor.
  - destruct (IH Hnd) as (Hts' & Hu & Htr & Hf).
    destruct (resumeTask opts name o ts w) as [ts' w']. simpl in *.
    split_and!; try done; [constructor; [| done] |].
    all: unfold document_task in *; simpl in *; rewrite ?Hu.
    + destruct t; try done. intros c0 Hc0. rewrite Hf; [auto |].
      intros Hin Heq. apply Hn. rewrite Heq. by apply list_elem_of_fmap_2.
    + intros f Hfile. apply Hf. intros Hin. apply Hfile. by right.
Qed.

Lemma output_resumeTask p ts w name o :
  output_ok opts assetMap cls p ts w →
  output_ok opts assetMap cls p (resumeTask opts name o ts w).1
            (resumeTask opts name o ts w).2.
Proof.
  destruct p; try done.
  - intros (Hnames & Hts & Hb).
    destruct (document_resumeTask name o ts w) as (Hts' & Hu & Htr & _);
      [by rewrite Hnames | done |].
    unfold output_ok. rewrite Hu, Htr.
    pose proof (resumeTask_names opts name o ts w) as Hsame.
    split_and!; [congruence | done | done].
  - intros (Hdocs & Hb1 & Hb2 & Hm). unfold output_ok.
    destruct (manifestTarget opts) as [target |] eqn:Htarget.
    + destruct Hm as (t & -> & Ht). simpl.
      destruct (decide (target = name)) as [-> | Hne].
      * unfold manifest_task in Ht.
        destruct t, o; simpl; try done;
          try (split_and!; [done.. |]; by eexists).
        destruct Ht as [-> ->]. split_and!; [| done | done |].
        -- intros n c0 Hn Hc0 Hapart.
           rewrite lookup_insert_ne by (by apply Hapart). auto.
        -- eexists. split; [done |]. simpl. by rewrite lookup_insert_eq.
      * simpl. split_and!; [done.. |]. by eexists.
    + subst ts. simpl. by split_and!.
Qed.

Lemma output_launch_documents names ts w :
  Forall (document_task assetMap w) ts →
  let r := foldl (launchOne opts assetMap PDocument) (ts, w) names in
  r.1.*1 = ts.*1 ++ names
  ∧ Forall (document_task assetMap r.2) r.1
  ∧ urlMap r.2 = urlMap w ∧ files r.2 = files w
  ∧ ∃ new, trace r.2 = trace w ++ new.
Proof.
  revert ts w. induction names as [| n names IH]; intros ts w Hts;
    cbn [foldl].
  - simpl. rewrite app_nil_r. split_and!; [done.. |].
    exists []. by rewrite app_nil_r.
  - assert (∃ t w', launchOne opts assetMap PDocument (ts, w) n
                    = (ts ++ [(n, t)], w')
                    ∧ document_task assetMap w' (n, t)
                    ∧ urlMap w' = urlMap w ∧ files w' = files w
                    ∧ ∃ new, trace w' = trace w ++ new)
      as (t & w' & -> & Ht & Hu & Hf & new & Hnew).
    { unfold launchOne. destruct (assetMap !! n) as [c |] eqn:Hc.
      - eexists _, _. split; [reflexivity |]. unfold document_task. simpl.
        split_and!; [done | by exists c | done | done |].
        eexists. by rewrite <- app_assoc.
      - eexists _, _. split; [reflexivity |].
        split_and!; [done.. |]. exists []. by rewrite app_nil_r. }
    destruct (IH (ts ++ [(n, t)]) w') as (Hn' & Hts' & Hu' & Hf' & new' & Hnew').
    { apply Forall_app. split; [| by apply Forall_singleton].
      eapply Forall_impl; [exact Hts |]. intros [m t'].
      unfold document_task. simpl. rewrite Hu, Hf. done. }
    cbv zeta. rewrite Hn', Hu', Hf', Hnew', Hnew.
    split_and!; [by rewrite fmap_app, <- app_assoc | done.. |].
    exists (new ++ new'). by rewrite app_assoc.
Qed.

Lemma output_cycle sched w :
  holds (output_ok opts assetMap cls) (cycle opts assetMap cls sched w).
Proof.
  apply cycle_holds.
  - intros p ts w' name o. apply output_resumeTask.
  - intros p p' q ts w' Hq Hok Hall.
    destruct p; simplify_eq/=; try done.
    + destruct (output_launch_documents (htmlNames cls) []
                  (emit (EBarrier PEntry (urlMap w')) w'))
        as (Hn & Hts & Hu & Hf & new & Hnew); [done |].
      cbv zeta in *. split_and!; [done.. |].
      rewrite Hu, Hnew. simpl. rewrite !elem_of_app. left. right.
      by apply list_elem_of_singleton.
    + destruct Hok as (Hnames & Hts & Hb).
      assert (∀ n c0, n ∈ htmlNames cls → assetMap !! n = Some c0 →
                files w' !! outputFile n
                = Some (documentOf c0 (urlMap w'))) as Hdocs.
      { intros n c0 Hn Hc0. rewrite <- Hnames in Hn.
        apply list_elem_of_fmap in Hn as ([n' t] & -> & Hin).
        eapply Forall_forall in Hts; [| exact Hin].
        eapply Forall_forall in Hall; [| exact Hin].
        simpl in *. subst t. unfold document_task in Hts. simpl in Hts.
        auto. }
      unfold apart, manifestTarget.
      destruct (manifestFilename opts) as [| [|] | name]; simpl;
        try case_bool_decide; simpl;
        (split_and!;
         [intros n c0 Hn Hc0 _; by apply Hdocs
         | rewrite ?elem_of_app; auto
         | rewrite ?elem_of_app; auto using list_elem_of_here
         | try done; by eexists]).
  - intros ts w' (Hdocs & Hb1 & Hb2 & Hm) _. unfold output_ok. simpl.
    split_and!; [done | rewrite elem_of_app; auto.. |].
    destruct (manifestTarget opts); [| done].
    destruct Hm as (t & -> & Ht). by eexists.
  - done.
Qed.

End OutputOk.

(** When the cycle has completed and no two documents denote one file,
    every document that was collected, and whose file is not the one of the
    manifest, holds its content with the final [urlMap] and the manifest of
    that map interpolated; the manifest file, if one is configured, holds
    the formatted manifest of the final [urlMap]; that map is the one with
    which the entry phase ended and the document phase ended.  (A document
    whose name denotes the file of the manifest is overwritten by it.) *)
Theorem completed_cycle_leaves_documents_and_manifest `{Host}
    (opts : options) (assetMap : gmap string content) (cls : classes)
    (sched : list (string * outcome)) (w : world) :
  NoDup (outputFile <$> htmlNames cls) →
  cstatus (cycle opts assetMap cls sched w) = Completed →
  (∀ n c0, n ∈ htmlNames cls → assetMap !! n = Some c0 →
           (∀ target, manifestTarget opts = Some target →
                      outputFile target ≠ outputFile n) →
           files (cworld (cycle opts assetMap cls sched w)) !! outputFile n
           = Some (documentOf c0
                     (urlMap (cworld (cycle opts assetMap cls sched w)))))
  ∧ (∀ name, manifestTarget opts = Some name →
       files (cworld (cycle opts assetMap cls sched w)) !! outputFile name
       = Some (Text (getManifestJSON
                       (urlMap (cworld (cycle opts assetMap cls sched w)))
                       true)))
  ∧ EBarrier PEntry (urlMap (cworld (cycle opts assetMap cls sched w)))
      ∈ trace (cworld (cycle opts assetMap cls sched w))
  ∧ EBarrier PDocument (urlMap (cworld (cycle opts assetMap cls sched w)))
      ∈ trace (cworld (cycle opts assetMap cls sched w)).
Proof.
  intros Hnd Hdone.
  destruct (output_cycle opts assetMap cls Hnd sched w)
    as (Hok & _ & Hcompleted & _).
  destruct (Hcompleted Hdone) as [Hp Hall]. rewrite Hp in Hok.
  destruct Hok as (Hdocs & Hb1 & Hb2 & Hm).
  split_and!; [exact Hdocs | | done | done].
  intros name Hname. rewrite Hname in Hm. destruct Hm as (t & Hts & Ht).
  rewrite Hts in Hall.
  eapply Forall_forall in Hall; [| apply list_elem_of_here].
  simpl in Hall. by subst t.
Qed.

Lemma completed_cycle_witness :
  (∀ n c0, n ∈ htmlNames (classify siteStats) → siteAssets !! n = Some c0 →
           (∀ target, manifestTarget siteOptions = Some target →
                      outputFile (Host := exampleHost) target
                      ≠ outputFile (Host := exampleHost) n) →
           files (cworld siteCycle) !! outputFile (Host := exampleHost) n
           = Some (documentOf (H := exampleHost) c0
                     (urlMap (cworld siteCycle))))
  ∧ (∀ name, manifestTarget siteOptions = Some name →
       files (cworld siteCycle) !! outputFile (Host := exampleHost) name
       = Some (Text (getManifestJSON (H := exampleHost)
                       (urlMap (cworld siteCycle)) true)))
  ∧ EBarrier PEntry (urlMap (cworld siteCycle)) ∈ trace (cworld siteCycle)
  ∧ EBarrier PDocument (urlMap (cworld siteCycle))
      ∈ trace (cworld siteCycle).
Proof.
  apply (completed_cycle_leaves_documents_and_manifest (H := exampleHost)
           siteOptions siteAssets (classify siteStats) siteSchedule
           siteWorld).
  - vm_compute. apply NoDup_singleton.
  - vm_compute. reflexivity.
Defined.

(** ** Progress *)

Section Progress.
Context `{Host}.
Variable opts : options.
Variable assetMap : gmap string content.
Variable cls : classes.

Lemma launchAll_names p names acc :
  (foldl (launchOne opts assetMap p) acc names).1.*1 = acc.1.*1 ++ names.
Proof.
  revert acc. induction names as [| n names IH]; intros [ts w]; cbn [foldl].
  - simpl. by rewrite app_nil_r.
  - rewrite IH. unfold launchOne.
    destruct (assetMap !! n) as [c |]; cbv beta iota.
    + destruct (match p with
                | PResource => _ | PStyle => _ | PEntry => _
                | PDocument => _ | PManifest => _ end) as [t w'].
      simpl. by rewrite fmap_app, <- app_assoc.
    + simpl. by rewrite fmap_app, <- app_assoc.
Qed.

Lemma launch_names p w :
  (launch opts assetMap cls p w).1.*1 = namesOf opts cls p.
Proof.
  destruct p; simpl; try apply (launchAll_names _ _ ([], w)).
  unfold manifestTarget.
  destruct (manifestFilename opts) as [| [|] | name]; simpl; try done.
  by case_bool_decide.
Qed.

(** The activations of a phase are those of its names, in order. *)
Lemma names_cycle sched w :
  holds (fun p ts _ => ts.*1 = namesOf opts cls p)
        (cycle opts assetMap cls sched w).
Proof.
  apply cycle_holds.
  - intros p ts w' name o <-. apply resumeTask_names.
  - intros. apply launch_names.
  - done.
  - apply launch_names.
Qed.

Lemma weights_app ts ts' : weights (ts ++ ts') = (weights ts + weights ts')%nat.
Proof.
  induction ts as [| [n t] ts IH]; simpl; [done |]. rewrite IH. lia.
Qed.

Lemma firstRejection_app ts ts' :
  firstRejection ts = None →
  firstRejection (ts ++ ts') = firstRejection ts'.
Proof.
  induction ts as [| [n p] ts IH]; simpl; [done |].
  destruct (rejection p); [done | auto].
Qed.

Lemma record_weight name c url w :
  (weight (uploadFile_record opts name c url w).1 ≤ 1)%nat
  ∧ rejection (uploadFile_record opts name c url w).1 = None.
Proof.
  unfold uploadFile_record. destruct url; simpl; auto.
  destruct (negb _ && true); simpl; auto.
  destruct (keepLocal opts); simpl; auto.
Qed.

Lemma lookup_weight name c w :
  (weight (uploadFile_lookup opts name c w).1 ≤ 2)%nat
  ∧ rejection (uploadFile_lookup opts name c w).1 = None.
Proof.
  unfold uploadFile_lookup. destruct (truthy _); simpl; [| auto].
  destruct (record_weight name c (JSMap.lookup (md5 c) (urlCacheMap w)) w).
  split; [lia | done].
Qed.

(** A resolved [await] brings its activation closer to its end. *)
Lemma resume_weight t v w :
  (0 < weight t)%nat →
  (weight (resume opts t (Resolve v) w).1 < weight t)%nat
  ∧ rejection (resume opts t (Resolve v) w).1 = None.
Proof.
  destruct t; simpl; try lia; intros _; auto.
  - destruct (lookup_weight name c
                (setFiles (<[outputFile name:=c]> (files w)) w)).
    split; [lia | done].
  - destruct (record_weight name c v w). split; [lia | done].
Qed.

Lemma resumeTask_weight name v t ts w :
  JSMap.get name ts = Some t → (0 < weight t)%nat →
  firstRejection ts = None →
  (weights (resumeTask opts name (Resolve v) ts w).1 < weights ts)%nat
  ∧ firstRejection (resumeTask opts name (Resolve v) ts w).1 = None.
Proof.
  induction ts as [| [n p] ts IH]; simpl; [done |].
  intros Hget Ht Hrej. destruct (rejection p) eqn:Hp; [done |].
  destruct (decide (name = n)) as [-> | Hne].
  - injection Hget as ->. rewrite decide_True by done.
    destruct (resume_weight t v w Ht) as [Hlt Hnone].
    destruct (resume opts t (Resolve v) w) as [t' w']. simpl in *.
    rewrite Hnone. split; [lia | done].
  - rewrite decide_False by done.
    destruct (IH Hget Ht Hrej) as [Hlt Hnone].
    destruct (resumeTask opts name (Resolve v) ts w) as [ts' w']. simpl in *.
    rewrite Hp. split; [lia | done].
Qed.

(** A phase that is not over has an activation that waits. *)
Lemma waiting_task (ts : tasks) :
  NoDup ts.*1 → firstRejection ts = None →
  ¬ Forall (fun t => t.2 = Fulfilled) ts →
  ∃ name t, JSMap.get name ts = Some t ∧ (0 < weight t)%nat.
Proof.
  induction ts as [| [n p] ts IH]; simpl; intros Hnd Hrej Hnot.
  - destruct Hnot. constructor.
  - apply NoDup_cons in Hnd as [Hn Hnd].
    destruct (rejection p) eqn:Hp; [done |].
    destruct (isFulfilled p) eqn:Hpf.
    + assert (p = Fulfilled) as -> by (by destruct p).
      destruct IH as (name & t & Hget & Ht); [done | done | |].
      { intros Hall. apply Hnot. by constructor. }
      exists name, t. split; [| done].
      rewrite decide_False; [done |]. intros ->.
      apply Hn. apply JSMap_get_Some in Hget; [| done].
      by apply (list_elem_of_fmap_2 fst) in Hget.
    + exists n, p. rewrite decide_True by done. split; [done |].
      destruct p; simpl in *; try done; lia.
Qed.

Hypothesis content : ∀ p n,
  p ≠ PManifest → n ∈ namesOf opts cls p → is_Some (assetMap !! n).

Lemma launchOne_weight p ts w name :
  p ≠ PManifest → is_Some (assetMap !! name) → firstRejection ts = None →
  (weights (launchOne opts assetMap p (ts, w) name).1 ≤ weights ts + 3)%nat
  ∧ firstRejection (launchOne opts assetMap p (ts, w) name).1 = None.
Proof.
  intros Hp [c Hc] Hrej. unfold launchOne. rewrite Hc.
  destruct p; try done; cbv beta iota zeta.
  - unfold uploadFile. destruct (lookup_weight name c w) as [Hw Hnone].
    destruct (uploadFile_lookup opts name c w) as [t w']. simpl in *.
    rewrite weights_app, firstRejection_app by done. simpl.
    rewrite Hnone. split; [lia | done].
  - simpl. rewrite weights_app, firstRejection_app by done.
    simpl. split; [lia | done].
  - simpl. rewrite weights_app, firstRejection_app by done.
    simpl. split; [lia | done].
  - simpl. rewrite weights_app, firstRejection_app by done.
    simpl. split; [lia | done].
Qed.

Lemma launchAll_weight p names ts w :
  p ≠ PManifest → (∀ n, n ∈ names → is_Some (assetMap !! n)) →
  firstRejection ts = None →
  (weights (foldl (launchOne opts assetMap p) (ts, w) names).1
   ≤ weights ts + 3 * length names)%nat
  ∧ firstRejection (foldl (launchOne opts assetMap p) (ts, w) names).1 = None.
Proof.
  intros Hp. revert ts w.
  induction names as [| n names IH]; intros ts w Hc Hrej; cbn [foldl].
  - simpl. split; [lia | done].
  - destruct (launchOne_weight p ts w n) as [Hw Hnone]; [done | | done |].
    { apply Hc. by left. }
    destruct (launchOne opts assetMap p (ts, w) n) as [ts' w'].
    destruct (IH ts' w') as [Hw' Hnone']; [| done |].
    { intros. apply Hc. by right. }
    simpl in *. split; [lia | done].
Qed.

Lemma launch_weight p w :
  (weights (launch opts assetMap cls p w).1
   ≤ 3 * length (namesOf opts cls p))%nat
  ∧ firstRejection (launch opts assetMap cls p w).1 = None.
Proof.
  destruct p.
  - apply (launchAll_weight PResource _ [] w); [done | | done].
    intros n Hn. by apply (content PResource).
  - apply (launchAll_weight PStyle _ [] w); [done | | done].
    intros n Hn. by apply (content PStyle).
  - apply (launchAll_weight PEntry _ [] w); [done | | done].
    intros n Hn. by apply (content PEntry).
  - apply (launchAll_weight PDocument _ [] w); [done | | done].
    intros n Hn. by apply (content PDocument).
  - simpl. unfold manifestTarget.
    destruct (manifestFilename opts) as [| [|] | name]; simpl;
      try case_bool_decide; simpl; split; auto; lia.
Qed.

(** Settling a phase without a rejection never fails the hook, and what
    remains to settle afterwards is bounded by what remained. *)
Lemma settlePhase_remaining queue p ts w :
  firstRejection ts = None →
  (cstatus (settlePhase opts assetMap cls queue p ts w) = Running
   ∨ cstatus (settlePhase opts assetMap cls queue p ts w) = Completed)
  ∧ (remaining opts cls (settlePhase opts assetMap cls queue p ts w)
     ≤ weights ts + budget opts cls queue)%nat.
Proof.
  revert p ts w. induction queue as [| p' queue IH]; intros p ts w Hrej;
    simpl; rewrite Hrej.
  - destruct (forallb _ ts); simpl; unfold remaining; simpl; split; auto.
  - destruct (forallb _ ts) eqn:Hall; simpl.
    2: { unfold remaining. simpl. split; auto. }
    destruct (launch_weight p' (emit (EBarrier p (urlMap w)) w))
      as [Hw Hnone].
    destruct (launch opts assetMap cls p' _) as [ts' w2].
    destruct (IH p' ts' w2 Hnone) as [Hs Hle]. split; [done |].
    simpl in *. lia.
Qed.

Lemma weights_fulfilled ts :
  Forall (fun t : string * pending => t.2 = Fulfilled) ts → weights ts = 0%nat.
Proof.
  induction 1 as [| [n t] ts Ht _ IH]; [done |]. simpl in *. by subst t.
Qed.

(** From a configuration of a cycle in which the hook is running, some
    schedule of resolutions completes it, in no more steps than what
    remains to settle. *)
Lemma running_completes n :
  ∀ c, holds (fun p ts _ => ts.*1 = namesOf opts cls p) c →
       (∀ p, NoDup (namesOf opts cls p)) →
       cstatus c = Running → (remaining opts cls c ≤ n)%nat →
       ∃ sched, cstatus (run opts assetMap cls sched c) = Completed
                ∧ Forall (fun ch => ∃ v, ch.2 = Resolve v) sched
                ∧ (length sched ≤ n)%nat.
Proof.
  induction n as [| n IH]; intros c Hc Hnd Hrun Hn.
  - exfalso. destruct Hc as (Hnames & _ & _ & Hr).
    destruct (Hr Hrun) as [Hrej Hnot].
    destruct (waiting_task (ctasks c)) as (name & t & Hget & Ht);
      [rewrite Hnames; apply Hnd | done | done |].
    assert (0 < weights (ctasks c))%nat; [| unfold remaining in Hn; lia].
    clear -Hget Ht. induction (ctasks c) as [| [m p] ts IHts]; [done |].
    simpl in Hget. simpl.
    destruct (decide (name = m)); [simplify_eq; lia |].
    specialize (IHts Hget). lia.
  - pose proof Hc as (Hnames & Hq & _ & Hr).
    destruct (Hr Hrun) as [Hrej Hnot].
    destruct (waiting_task (ctasks c)) as (name & t & Hget & Ht);
      [rewrite Hnames; apply Hnd | done | done |].
    set (c' := step opts assetMap cls c (name, Resolve VUndefined)).
    assert ((cstatus c' = Running ∨ cstatus c' = Completed)
            ∧ (remaining opts cls c' < remaining opts cls c)%nat)
      as [Hs Hlt].
    { subst c'. unfold step. cbn [fst snd]. rewrite Hrun.
      destruct (resumeTask_weight name VUndefined t (ctasks c) (cworld c)
                  Hget Ht Hrej) as [Hw Hnone].
      destruct (resumeTask opts name (Resolve VUndefined) (ctasks c)
                  (cworld c)) as [ts' w'].
      destruct (settlePhase_remaining (cqueue c) (cphase c) ts' w' Hnone)
        as [Hs Hle].
      split; [done |]. simpl in *. unfold remaining at 2. lia. }
    assert (holds (fun p ts _ => ts.*1 = namesOf opts cls p) c') as Hc'.
    { subst c'. apply step_holds; [| | | done].
      - intros p ts w' name' o <-. apply resumeTask_names.
      - intros. apply launch_names.
      - done. }
    destruct Hs as [Hs | Hs].
    + destruct (IH c' Hc' Hnd Hs) as (sched & Hdone & Hres & Hlen); [lia |].
      exists ((name, Resolve VUndefined) :: sched). simpl.
      split_and!; [done | | lia]. constructor; [by eexists | done].
    + exists [(name, Resolve VUndefined)]. simpl.
      split_and!; [done | | lia]. apply Forall_singleton. by eexists.
Qed.

End Progress.

(** The hook cannot get stuck by itself: when the names of each phase are
    distinct and every one of them has collected content, then from every
    configuration of a cycle in which nothing has been rejected the
    environment can bring the hook to its end by resolving what is awaited,
    in no more turns than three for every activation that has started or is
    still to start, plus one for every phase still to start. *)
Theorem cooperative_schedule_completes `{Host} (opts : options)
    (assetMap : gmap string content) (cls : classes)
    (sched : list (string * outcome)) (w : world) :
  (∀ p, NoDup (namesOf opts cls p)) →
  (∀ p n, p ≠ PManifest → n ∈ namesOf opts cls p →
          is_Some (assetMap !! n)) →
  (∀ e, cstatus (cycle opts assetMap cls sched w) ≠ Failed e) →
  ∃ sched',
    cstatus (run opts assetMap cls sched' (cycle opts assetMap cls sched w))
    = Completed
    ∧ Forall (fun ch => ∃ v, ch.2 = Resolve v) sched'
    ∧ (length sched'
       ≤ remaining opts cls (cycle opts assetMap cls sched w))%nat.
Proof.
  intros Hnd Hcontent Hok.
  destruct (cstatus (cycle opts assetMap cls sched w)) eqn:Hs.
  - eapply running_completes; eauto. apply names_cycle.
  - by destruct (Hok e).
  - exists []. simpl. split_and!; [done | constructor | lia].
Qed.

Lemma cooperative_schedule_witness :
  ∃ sched',
    cstatus (run (H := exampleHost) siteOptions siteAssets
               (classify siteStats) sched' siteStart) = Completed
    ∧ Forall (fun ch => ∃ v, ch.2 = Resolve v) sched'
    ∧ (length sched'
       ≤ remaining siteOptions (classify siteStats) siteStart)%nat.
Proof.
  apply (cooperative_schedule_completes (H := exampleHost) siteOptions
           siteAssets (classify siteStats) [] siteWorld).
  - intros p. destruct p; vm_compute; apply NoDup_singleton.
  - intros p n Hp Hn.
    destruct p; try done; vm_compute in Hn;
      apply list_elem_of_singleton in Hn as ->; vm_compute; eauto.
  - intros e. vm_compute. discriminate.
Defined.

(** ** Every asset once *)

Lemma uploadsOf_app n tr tr' :
  uploadsOf n (tr ++ tr') = (uploadsOf n tr + uploadsOf n tr')%nat.
Proof.
  induction tr as [| e tr IH]; [done |].
  destruct e; simpl; rewrite IH; lia.
Qed.

Lemma uploadsOf_upload n f c x :
  uploadsOf n [EUpload f c x] = if decide (f = n) then 1%nat else 0%nat.
Proof.
  simpl. destruct (String.eqb_spec f n); case_decide; done.
Qed.

Lemma moved_refl name w : moved name w w.
Proof. by split_and!. Qed.

Lemma moved_files name f w : moved name w (setFiles f w).
Proof. by split_and!. Qed.

Lemma moved_trans name w1 w2 w3 :
  moved name w1 w2 → moved name w2 w3 → moved name w1 w3.
Proof.
  intros (Hm1 & Hn1 & Hk1 & Hc1) (Hm2 & Hn2 & Hk2 & Hc2). split_and!.
  - intros m Hm. by rewrite Hm2, Hm1.
  - lia.
  - auto.
  - auto.
Qed.

Lemma moved_emit name e w :
  (∀ f c x, e ≠ EUpload f c x) → moved name w (emit e w).
Proof.
  intros He.
  assert (∀ n, uploadsOf n (trace w ++ [e]) = uploadsOf n (trace w)) as Hu.
  { intros n. rewrite uploadsOf_app. destruct e; simpl; try lia.
    by destruct (He file c extname). }
  split_and!; simpl; try done. by rewrite Hu.
Qed.

Lemma dealtWith_moved name w w' n :
  moved name w w' → dealtWith w n → dealtWith w' n.
Proof.
  intros (Hm & Hn & Hk & _) [Hkey | Hup]; [left; auto |].
  right. destruct (decide (n = name)) as [-> | Hne]; [lia |].
  by rewrite Hm.
Qed.

Lemma activation_moved strings p name w w' t :
  t.1 ≠ name → moved name w w' →
  activation_ok strings p w t → activation_ok strings p w' t.
Proof.
  intros Hne Hmoved. pose proof Hmoved as (Hm & Hn & Hk & _).
  unfold activation_ok. destruct (t.2); try done.
  - intros (? & -> & ?). by rewrite Hm.
  - intros (? & -> & ?). by rewrite Hm.
  - intros (? & -> & ?). auto.
  - intros Hd Hs Hp. eapply dealtWith_moved; eauto.
Qed.

Lemma activation_quiet strings p w w' t :
  (∀ n, uploadsOf n (trace w') = uploadsOf n (trace w)) →
  urlMap w' = urlMap w →
  activation_ok strings p w t → activation_ok strings p w' t.
Proof.
  intros Hu Hk. unfold activation_ok, dealtWith.
  destruct (t.2); rewrite ?Hu, ?Hk; done.
Qed.

Lemma cached_location k (cache : JSMap.t value) :
  Forall (fun kv => isString kv.2 = true) cache →
  truthy (JSMap.lookup k cache) = true →
  truthy (JSMap.lookup k cache) && isString (JSMap.lookup k cache) = true.
Proof.
  intros Hc Ht. rewrite Ht. simpl. unfold JSMap.lookup in *.
  destruct (JSMap.get k cache) as [v |] eqn:Hget; [| done]. simpl.
  induction Hc as [| [k' v'] cache Hv _ IH]; [done |].
  simpl in Hget. destruct (decide (k = k')); [by simplify_eq | auto].
Qed.

Section OnceOk.
Context `{Host}.
Variable opts : options.
Variable assetMap : gmap string content.
Variable cls : classes.
Variable strings : Prop.

Hypothesis names_NoDup : ∀ p, NoDup (namesOf opts cls p).
Hypothesis names_disjoint : ∀ p q n,
  n ∈ uploadNames cls p → n ∈ uploadNames cls q → p = q.

Lemma record_once name c url w :
  moved name w (uploadFile_record opts name c url w).2
  ∧ uploadsOf name (trace (uploadFile_record opts name c url w).2)
    = uploadsOf name (trace w)
  ∧ match (uploadFile_record opts name c url w).1 with
    | Fulfilled =>
        truthy url && isString url = true →
        name ∈ JSMap.keys (urlMap (uploadFile_record opts name c url w).2)
    | AwaitUnlink n =>
        n = name
        ∧ name ∈ JSMap.keys (urlMap (uploadFile_record opts name c url w).2)
    | _ => False
    end.
Proof.
  unfold uploadFile_record.
  destruct url;
    try (split_and!;
         [apply moved_refl | done | simpl; rewrite ?andb_false_r; done]).
  destruct (truthy (VStr s) && isString (VStr s));
    [| split_and!; [apply moved_refl | done | done]].
  assert (moved name w (setMaps (JSMap.set name s (urlMap w))
                          (JSMap.set (md5 c) (VStr s) (urlCacheMap w)) w))
    as Hset.
  { split_and!; simpl; [done | done | |].
    - intros k Hk. apply JSMap_keys_set. auto.
    - intros Hc. by apply JSMap_set_Forall. }
  assert (name ∈ JSMap.keys (JSMap.set name s (urlMap w))) as Hkey.
  { apply JSMap_keys_set. by left. }
  destruct (keepLocal opts); simpl.
  - by split_and!.
  - split_and!; [| by rewrite uploadsOf_app, Nat.add_0_r | done | done].
    eapply moved_trans; [exact Hset | by apply moved_emit].
Qed.

Lemma lookup_once name c w :
  moved name w (uploadFile_lookup opts name c w).2
  ∧ match (uploadFile_lookup opts name c w).1 with
    | AwaitUpload n _ =>
        n = name
        ∧ uploadsOf name (trace (uploadFile_lookup opts name c w).2)
          = S (uploadsOf name (trace w))
    | AwaitUnlink n =>
        n = name
        ∧ name ∈ JSMap.keys (urlMap (uploadFile_lookup opts name c w).2)
        ∧ uploadsOf name (trace (uploadFile_lookup opts name c w).2)
          = uploadsOf name (trace w)
    | Fulfilled =>
        (Forall (fun kv => isString kv.2 = true) (urlCacheMap w) →
         name ∈ JSMap.keys (urlMap (uploadFile_lookup opts name c w).2))
        ∧ uploadsOf name (trace (uploadFile_lookup opts name c w).2)
          = uploadsOf name (trace w)
    | _ => False
    end.
Proof.
  unfold uploadFile_lookup.
  destruct (truthy (JSMap.lookup (md5 c) (urlCacheMap w))) eqn:Ht.
  - destruct (record_once name c (JSMap.lookup (md5 c) (urlCacheMap w)) w)
      as (Hm & Hu & Hr).
    split; [done |].
    destruct (uploadFile_record opts name c _ w) as [t w']. simpl in *.
    destruct t; try done.
    + destruct Hr. by split_and!.
    + split; [| done]. intros Hc. apply Hr. by apply cached_location.
  - simpl. split_and!; try done.
    + split_and!; simpl; try done.
      * intros m Hm. rewrite uploadsOf_app, uploadsOf_upload.
        rewrite decide_False by done. lia.
      * rewrite uploadsOf_app. lia.
    + rewrite uploadsOf_app, uploadsOf_upload, decide_True by done. lia.
Qed.

Lemma resume_once p n t o w :
  activation_ok strings p w (n, t) →
  (strings → Forall (fun kv => isString kv.2 = true) (urlCacheMap w)) →
  (uploadsOf n (trace w) ≤ 1)%nat →
  moved n w (resume opts t o w).2
  ∧ activation_ok strings p (resume opts t o w).2
      (n, (resume opts t o w).1)
  ∧ (uploadsOf n (trace (resume opts t o w).2) ≤ 1)%nat
  ∧ ((2 < rank p)%nat →
     uploadsOf n (trace (resume opts t o w).2) = uploadsOf n (trace w)).
Proof.
  intros Ht Hc Hle. unfold activation_ok in Ht. simpl in Ht.
  destruct t, o; simpl;
    try (split_and!; [apply moved_refl || apply moved_files | done..]).
  - destruct Ht as (Hp & -> & Hzero).
    destruct (lookup_once n c (setFiles (<[outputFile n:=c]> (files w)) w))
      as [Hm Hr].
    destruct (uploadFile_lookup opts n c _) as [t' w']. simpl in *.
    split; [done |]. unfold activation_ok. simpl.
    destruct t'; try done.
    + destruct Hr as [-> Hu]. split_and!; try done; lia.
    + destruct Hr as (-> & Hk & Hu). split_and!; try done; lia.
    + destruct Hr as [Hk Hu]. split_and!; [| lia | lia].
      intros Hs _. left. apply Hk. by apply Hc.
  - destruct Ht as (Hp & -> & Hone).
    destruct (record_once n c v w) as (Hm & Hu & Hr).
    destruct (uploadFile_record opts n c v w) as [t' w']. simpl in *.
    split; [done |]. unfold activation_ok. simpl.
    destruct t'; try done.
    + destruct Hr as [-> Hk]. split_and!; try done; lia.
    + split_and!; [intros _ _; right; lia | lia | lia].
  - destruct Ht as (Hp & -> & Hk).
    split_and!; [apply moved_files | | done | done].
    unfold activation_ok. simpl. intros _ _. by left.
  - split_and!; [apply moved_files | | done | done].
    unfold activation_ok. simpl. lia.
  - split_and!; [apply moved_files | | done | done].
    unfold activation_ok. simpl. lia.
Qed.

Lemma JSMap_set_names {V} name (t t' : V) (ts : JSMap.t V) :
  JSMap.get name ts = Some t → (JSMap.set name t' ts).*1 = ts.*1.
Proof.
  induction ts as [| [n p] ts IH]; simpl; [done |].
  destruct (decide (name = n)) as [-> | Hne]; [done |].
  intros Hget. simpl. f_equal. auto.
Qed.

Lemma JSMap_set_elem {V} name (t' : V) (ts : JSMap.t V) x :
  NoDup ts.*1 → x ∈ JSMap.set name t' ts →
  x = (name, t') ∨ (x ∈ ts ∧ x.1 ≠ name).
Proof.
  induction ts as [| [n p] ts IH]; simpl.
  - intros _ ->%list_elem_of_singleton. by left.
  - intros [Hn Hnd]%NoDup_cons.
    destruct (decide (name = n)) as [-> | Hne].
    + intros [-> | Hx]%elem_of_cons; [by left |]. right.
      split; [by right |]. intros <-. apply Hn.
      by apply (list_elem_of_fmap_2 fst) in Hx.
    + intros [-> | Hx]%elem_of_cons.
      * right. split; [by left | done].
      * destruct (IH Hnd Hx) as [-> | [? ?]]; [by left |].
        right. split; [by right | done].
Qed.

Lemma once_resumeTask p ts w name o :
  once_ok strings cls p ts w →
  once_ok strings cls p (resumeTask opts name o ts w).1
          (resumeTask opts name o ts w).2.
Proof.
  intros (H1 & H2 & H3 & Hc & Hnd & Hsub & Hts). rewrite resumeTask_spec.
  destruct (JSMap.get name ts) as [t |] eqn:Hget; [| by split_and!].
  pose proof (JSMap_get_elem _ _ _ Hget) as Hin.
  assert (activation_ok strings p w (name, t)) as Ht
    by (by eapply Forall_forall in Hts).
  destruct (resume_once p name t o w Ht Hc (H1 name))
    as (Hm & Ht' & Hle & Hsame).
  destruct (resume opts t o w) as [t' w']. cbn [fst snd] in *.
  pose proof Hm as (Hother & _ & _ & Hcache).
  unfold once_ok. rewrite (JSMap_set_names _ t) by done.
  split_and!; try done.
  - intros n. destruct (decide (n = name)) as [-> | Hne]; [done |].
    by rewrite Hother.
  - intros n Hn. destruct (decide (n = name)) as [-> | Hne].
    + destruct (decide (rank p ≤ 2)%nat) as [Hp | Hp].
      * left. split; [done |]. by apply (list_elem_of_fmap_2 fst) in Hin.
      * apply H2. rewrite <- Hsame by lia. done.
    + apply H2. by rewrite <- Hother.
  - intros Hs q n Hq Hn. eapply dealtWith_moved; eauto.
  - auto.
  - apply Forall_forall. intros x Hx.
    destruct (JSMap_set_elem _ _ _ _ Hnd Hx) as [-> | [Hx' Hne]]; [done |].
    eapply activation_moved; eauto. by eapply Forall_forall in Hts.
Qed.

(** A world that has only moved keeps the invariant of the activations
    that have another name. *)
Lemma once_moved p ts w w' name t :
  name ∉ ts.*1 → moved name w w' →
  ((rank p ≤ 2)%nat → name ∈ uploadNames cls p) →
  (uploadsOf name (trace w') ≤ 1)%nat →
  ((2 < rank p)%nat → uploadsOf name (trace w') = uploadsOf name (trace w)) →
  activation_ok strings p w' (name, t) →
  once_ok strings cls p ts w → once_ok strings cls p (ts ++ [(name, t)]) w'.
Proof.
  intros Hfresh Hm Hname Hle Hsame Ht (H1 & H2 & H3 & Hc & Hnd & Hsub & Hts).
  pose proof Hm as (Hother & _ & _ & Hcache).
  unfold once_ok. rewrite fmap_app. simpl. split_and!.
  - intros n. destruct (decide (n = name)) as [-> | Hne]; [done |].
    by rewrite Hother.
  - intros n Hn. destruct (decide (n = name)) as [-> | Hne].
    + destruct (decide (rank p ≤ 2)%nat) as [Hp | Hp].
      * left. split; [done |]. rewrite elem_of_app. right.
        by apply list_elem_of_singleton.
      * rewrite Hsame in Hn by lia. destruct (H2 _ Hn) as [[? ?] | ?]; [lia |].
        by right.
    + rewrite Hother in Hn by done.
      destruct (H2 _ Hn) as [[? ?] | ?]; [| by right].
      left. split; [done |]. rewrite elem_of_app. by left.
  - intros Hs q n Hq Hn. eapply dealtWith_moved; eauto.
  - auto.
  - apply NoDup_app. split_and!; [done | | apply NoDup_singleton].
    intros x Hx ->%list_elem_of_singleton. done.
  - intros Hp n [Hn | ->%list_elem_of_singleton]%elem_of_app; auto.
  - apply Forall_app. split; [| by apply Forall_singleton].
    apply Forall_forall. intros x Hx. eapply activation_moved; eauto.
    + intros <-. apply Hfresh. by apply (list_elem_of_fmap_2 fst) in Hx.
    + by eapply Forall_forall in Hts.
Qed.

Lemma fresh_not_uploaded p ts w name :
  once_ok strings cls p ts w → name ∉ ts.*1 →
  ((rank p ≤ 2)%nat → name ∈ uploadNames cls p) →
  (rank p ≤ 2)%nat → uploadsOf name (trace w) = 0%nat.
Proof.
  intros (_ & H2 & _) Hfresh Hname Hp.
  destruct (uploadsOf name (trace w)) as [| k] eqn:Hk; [done |].
  destruct (H2 name) as [[_ ?] | (q & Hq & Hn)]; [lia | done |].
  pose proof (names_disjoint _ _ _ (Hname Hp) Hn) as <-. lia.
Qed.

Lemma once_launchOne p ts w name :
  p ≠ PManifest → name ∉ ts.*1 →
  ((rank p ≤ 2)%nat → name ∈ uploadNames cls p) →
  once_ok strings cls p ts w →
  once_ok strings cls p (launchOne opts assetMap p (ts, w) name).1
          (launchOne opts assetMap p (ts, w) name).2.
Proof.
  intros Hpm Hfresh Hname Hok. unfold launchOne.
  destruct (assetMap !! name) as [c |]; cbv beta iota.
  2: { simpl. apply (once_moved p ts w w name); auto using moved_refl.
       - by destruct Hok as (H1 & _).
       - done. }
  pose proof Hok as (H1 & _ & _ & Hc & _).
  destruct p; try done.
  - pose proof (fresh_not_uploaded _ _ _ _ Hok Hfresh Hname) as Hzero.
    simpl in Hzero. specialize (Hzero ltac:(lia)).
    unfold uploadFile. destruct (lookup_once name c w) as [Hm Hr].
    destruct (uploadFile_lookup opts name c w) as [t' w']. simpl in *.
    apply (once_moved PResource ts w w' name); auto.
    + destruct t'; try done; destruct_and?; lia.
    + simpl. lia.
    + unfold activation_ok. simpl. destruct t'; try done.
      * destruct Hr as [-> Hu]. split_and!; [lia | done | lia].
      * destruct Hr as (-> & Hk & Hu). split_and!; [lia | done | done].
      * destruct Hr as [Hk Hu]. intros Hs _. left. by apply Hk, Hc.
  - pose proof (fresh_not_uploaded _ _ _ _ Hok Hfresh Hname) as Hzero.
    simpl in Hzero. specialize (Hzero ltac:(lia)).
    unfold uploadFile. simpl.
    match goal with |- once_ok _ _ _ _ (emit ?e2 (emit ?e1 w)) =>
      assert (moved name w (emit e2 (emit e1 w))) as Hm
        by (eapply moved_trans; by apply moved_emit) end.
    pose proof Hm as (_ & _ & _ & _).
    apply (once_moved PStyle ts w _ name); auto.
    + simpl. rewrite !uploadsOf_app. simpl. lia.
    + simpl. lia.
    + unfold activation_ok. simpl.
      split_and!; [lia | done |]. rewrite !uploadsOf_app. simpl. lia.
  - pose proof (fresh_not_uploaded _ _ _ _ Hok Hfresh Hname) as Hzero.
    simpl in Hzero. specialize (Hzero ltac:(lia)).
    unfold uploadFile. simpl.
    match goal with |- once_ok _ _ _ _ (emit ?e2 (emit ?e1 w)) =>
      assert (moved name w (emit e2 (emit e1 w))) as Hm
        by (eapply moved_trans; by apply moved_emit) end.
    apply (once_moved PEntry ts w _ name); auto.
    + simpl. rewrite !uploadsOf_app. simpl. lia.
    + simpl. lia.
    + unfold activation_ok. simpl.
      split_and!; [lia | done |]. rewrite !uploadsOf_app. simpl. lia.
  - simpl.
    match goal with |- once_ok _ _ _ _ (emit ?e2 (emit ?e1 w)) =>
      assert (moved name w (emit e2 (emit e1 w))) as Hm
        by (eapply moved_trans; by apply moved_emit) end.
    apply (once_moved PDocument ts w _ name); auto.
    + simpl. rewrite !uploadsOf_app. simpl.
      specialize (H1 name). lia.
    + intros _. simpl. rewrite !uploadsOf_app. simpl. lia.
    + unfold activation_ok. simpl. lia.
Qed.

Lemma once_launchAll p names ts w :
  p ≠ PManifest → NoDup (ts.*1 ++ names) →
  ((rank p ≤ 2)%nat → ∀ n, n ∈ names → n ∈ uploadNames cls p) →
  once_ok strings cls p ts w →
  once_ok strings cls p (foldl (launchOne opts assetMap p) (ts, w) names).1
          (foldl (launchOne opts assetMap p) (ts, w) names).2.
Proof.
  intros Hpm. revert ts w.
  induction names as [| n names IH]; intros ts w Hnd Hn Hok; cbn [foldl];
    [done |].
  pose proof (once_launchOne p ts w n Hpm) as Hone.
  pose proof (launchAll_names opts assetMap p [n] (ts, w)) as Hnames.
  cbn [foldl fst] in Hnames.
  destruct (launchOne opts assetMap p (ts, w) n) as [ts' w'].
  cbn [fst snd] in *. apply IH.
  - by rewrite Hnames, <- app_assoc.
  - intros Hp m Hm. apply Hn; [done | by right].
  - apply Hone; [| | done].
    + apply NoDup_app in Hnd as (_ & Hd & _). intros Hin.
      apply (Hd _ Hin). by left.
    + intros Hp. apply Hn; [done | by left].
Qed.

Lemma once_launch p w :
  once_ok strings cls p [] w →
  once_ok strings cls p (launch opts assetMap cls p w).1
          (launch opts assetMap cls p w).2.
Proof.
  intros Hok.
  destruct p; simpl.
  - apply once_launchAll; [done | apply (names_NoDup PResource) | | done].
    by intros.
  - apply once_launchAll; [done | apply (names_NoDup PStyle) | | done].
    by intros.
  - apply once_launchAll; [done | apply (names_NoDup PEntry) | | done].
    by intros.
  - apply once_launchAll; [done | apply (names_NoDup PDocument) | | done].
    simpl. lia.
  - assert (∀ name c,
              once_ok strings cls PManifest [(name, AwaitManifest name c)]
                (emit (EWriteFile name c) w)) as Hwrite.
    { intros name c.
      apply (once_moved PManifest [] w _ name); auto.
      - apply not_elem_of_nil.
      - by apply moved_emit.
      - simpl. lia.
      - simpl. rewrite uploadsOf_app. simpl.
        destruct Hok as (H1 & _). specialize (H1 name). lia.
      - intros _. simpl. rewrite uploadsOf_app. simpl. lia.
      - unfold activation_ok. simpl. lia. }
    destruct (manifestFilename opts) as [| [|] | name]; simpl; try done.
    case_bool_decide; simpl; done.
Qed.

Lemma upload_phase_names p :
  (rank p ≤ 2)%nat → namesOf opts cls p = uploadNames cls p.
Proof. destruct p; simpl; try done; lia. Qed.

(** The invariant holds in every configuration of a cycle that starts with
    an empty trace. *)
Lemma once_cycle sched w :
  trace w = [] →
  (strings → Forall (fun kv => isString kv.2 = true) (urlCacheMap w)) →
  holds (fun p ts w' =>
           once_ok strings cls p ts w' ∧ ts.*1 = namesOf opts cls p)
        (cycle opts assetMap cls sched w).
Proof.
  intros Ht Hc. apply cycle_holds.
  - intros p ts w' name o [Hok Hnames]. split.
    + by apply once_resumeTask.
    + rewrite <- Hnames. apply resumeTask_names.
  - intros p p' q ts w' Hq [Hok Hnames] Hall.
    split; [| apply launch_names].
    assert (rank p' = S (rank p)) as Hr by (destruct p; simplify_eq/=; done).
    apply once_launch.
    destruct Hok as (H1 & H2 & H3 & Hcache & Hnd & Hsub & Hts).
    assert (moved "" w' (emit (EBarrier p (urlMap w')) w')) as Hm
      by (by apply moved_emit).
    assert (∀ n, uploadsOf n (trace (emit (EBarrier p (urlMap w')) w'))
                 = uploadsOf n (trace w')) as Hu.
    { intros n. simpl. rewrite uploadsOf_app. simpl. lia. }
    split_and!; try done.
    + intros n. by rewrite Hu.
    + intros n Hn. rewrite Hu in Hn. right.
      destruct (H2 _ Hn) as [[Hp Hin] | (q' & Hq' & Hin)].
      * exists p. split; [lia | auto].
      * exists q'. split; [lia | done].
    + intros Hs q' n Hq' Hn.
      assert (dealtWith w' n) as Hd.
      { destruct (decide (rank q' < rank p)%nat) as [Hlt | Hge]; [eauto |].
        assert (q' = p) as -> by (destruct q', p; simpl in *; lia || done).
        assert (rank p ≤ 2)%nat as Hp.
        { destruct p; simpl in *; try lia; inv Hn. }
        rewrite <- upload_phase_names, <- Hnames in Hn by done.
        apply list_elem_of_fmap in Hn as ([n' t] & -> & Hin).
        eapply Forall_forall in Hts; [| exact Hin].
        eapply Forall_forall in Hall; [| exact Hin].
        simpl in *. subst t. unfold activation_ok in Hts. simpl in Hts.
        auto. }
      destruct Hd as [Hk | Hup]; [by left | right]. by rewrite Hu.
    + apply NoDup_nil_2.
    + intros _ n Hn. inv Hn.
  - intros ts w' [Hok Hnames] _. split; [| done].
    destruct Hok as (H1 & H2 & H3 & Hcache & Hnd & Hsub & Hts).
    assert (∀ n, uploadsOf n (trace (emit (EBarrier PManifest (urlMap w')) w'))
                 = uploadsOf n (trace w')) as Hu.
    { intros n. simpl. rewrite uploadsOf_app. simpl. lia. }
    split_and!; try done.
    + intros n. by rewrite Hu.
    + intros n. rewrite Hu. apply H2.
    + intros Hs q n Hq Hn.
      destruct (H3 Hs q n Hq Hn) as [Hk | Hup]; [by left |].
      right. by rewrite Hu.
    + eapply Forall_impl; [exact Hts |]. intros x.
      apply activation_quiet; [done | done].
  - split; [| apply launch_names]. apply once_launch.
    split_and!; try done.
    + intros n. rewrite Ht. simpl. lia.
    + intros n. rewrite Ht. simpl. lia.
    + simpl. intros _ q n Hq. lia.
    + apply NoDup_nil_2.
    + intros _ n Hn. inv Hn.
Qed.

End OnceOk.

Lemma classify_names_NoDup opts st p : NoDup (namesOf opts (classify st) p).
Proof.
  destruct (classify_NoDup st) as (Hep & Hst & Hht & Hre).
  destruct p; simpl; try done.
  destruct (manifestTarget opts); [apply NoDup_singleton | apply NoDup_nil_2].
Qed.

Lemma classify_uploadNames_disjoint st p q n :
  n ∈ uploadNames (classify st) p → n ∈ uploadNames (classify st) q → p = q.
Proof.
  destruct (classify_disjoint st n) as (Hep & Hst & Hht).
  destruct p, q; simpl; intros Hp Hq; try done;
    try (by apply elem_of_nil in Hp); try (by apply elem_of_nil in Hq);
    exfalso; tauto.
Qed.

(** Whatever the outcomes and their order, and whatever the cache
    holds, one [afterEmit] cycle calls [uploadContent] at most once for a
    file name. *)
Theorem no_file_is_uploaded_twice `{Host} (opts : options)
    (assetMap : gmap string content) (st : stats)
    (sched : list (string * outcome)) (w : world) (n : string) :
  trace w = [] →
  (uploadsOf n (trace (cworld (cycle opts assetMap (classify st) sched w)))
   ≤ 1)%nat.
Proof.
  intros Ht.
  destruct (once_cycle opts assetMap (classify st) False
              (classify_names_NoDup opts st)
              (classify_uploadNames_disjoint st) sched w Ht)
    as ([Hok _] & _); [done |].
  destruct Hok as (H1 & _). apply H1.
Qed.

Lemma no_file_is_uploaded_twice_witness :
  trace siteWorld = []
  ∧ (uploadsOf "app.css" (trace (cworld siteCycle)) ≤ 1)%nat.
Proof.
  split; [reflexivity |].
  apply (no_file_is_uploaded_twice (H := exampleHost) siteOptions siteAssets
           siteStats siteSchedule siteWorld "app.css").
  reflexivity.
Defined.

(** When the cache held only strings and the cycle completes, every
    resource, style sheet and entry file has a recorded location or has been
    handed to [uploadContent] exactly once. *)
Theorem completed_cycle_has_dealt_with_every_asset `{Host} (opts : options)
    (assetMap : gmap string content) (st : stats)
    (sched : list (string * outcome)) (w : world) (n : string) :
  trace w = [] →
  Forall (fun kv => isString kv.2 = true) (urlCacheMap w) →
  cstatus (cycle opts assetMap (classify st) sched w) = Completed →
  n ∈ resourceNames (classify st) ∨ n ∈ styleNames (classify st)
    ∨ n ∈ epNames (classify st) →
  n ∈ JSMap.keys (urlMap (cworld (cycle opts assetMap (classify st) sched w)))
  ∨ uploadsOf n (trace (cworld (cycle opts assetMap (classify st) sched w)))
    = 1%nat.
Proof.
  intros Ht Hc Hdone Hn.
  destruct (once_cycle opts assetMap (classify st) True
              (classify_names_NoDup opts st)
              (classify_uploadNames_disjoint st) sched w Ht)
    as ([Hok _] & _ & Hend & _); [done |].
  destruct (Hend Hdone) as [Hp _].
  destruct Hok as (H1 & _ & H3 & _). rewrite Hp in H3.
  assert (∃ q, (rank q < rank PManifest)%nat
               ∧ n ∈ uploadNames (classify st) q) as (q & Hq & Hin).
  { destruct Hn as [Hn | [Hn | Hn]];
      [exists PResource | exists PStyle | exists PEntry]; simpl; split;
      (lia || done). }
  destruct (H3 I q n Hq Hin) as [Hk | Hup]; [by left | right].
  specialize (H1 n). lia.
Qed.

Lemma completed_cycle_dealt_with_witness :
  trace siteWorld = []
  ∧ ("main.js" ∈ JSMap.keys (urlMap (cworld siteCycle))
     ∨ uploadsOf "main.js" (trace (cworld siteCycle)) = 1%nat).
Proof.
  split; [reflexivity |].
  apply (completed_cycle_has_dealt_with_every_asset (H := exampleHost)
           siteOptions siteAssets siteStats siteSchedule siteWorld "main.js").
  - reflexivity.
  - apply Forall_nil_2.
  - by vm_compute.
  - right. right. vm_compute. apply list_elem_of_here.
Defined.

(** ** Cached values that are not locations *)

Section Skipped.
Context `{Host}.
Variable opts : options.
Variable assetMap : gmap string content.
Variable cls : classes.
Variable cache0 : JSMap.t value.
Variable uploads0 : nat.
Variable p : phase.
Variable n : string.
Variable c0 : content.

Hypothesis collected : assetMap !! n = Some c0.
Hypothesis one_phase : ∀ q, n ∈ uploadNames cls q → q = p.

Lemma preparedFrom_mono q um tr new :
  preparedFrom q um tr → preparedFrom q um (tr ++ new).
Proof. destruct q; simpl; try done; rewrite elem_of_app; auto. Qed.

Lemma exposed_continues w w' :
  continues w w' →
  exposed cache0 p n c0 (trace w) → exposed cache0 p n c0 (trace w').
Proof.
  intros (new & -> & _) (um & Hum & Hbad). exists um.
  split; [by apply preparedFrom_mono | done].
Qed.

Lemma skipped_emit e w :
  (∀ c x, e ≠ EUpload n c x) →
  skipped_world cache0 uploads0 n w →
  skipped_world cache0 uploads0 n (emit e w).
Proof.
  intros He (Hk & Hu & Hc). split_and!; try done.
  simpl. rewrite uploadsOf_app, <- Hu.
  destruct e; simpl; try lia.
  destruct (String.eqb_spec file n) as [-> | _]; [| lia].
  by destruct (He c extname).
Qed.

Lemma skipped_record x m c url w :
  m ≠ n →
  (truthy (JSMap.lookup (md5 c) cache0) = true →
   url = JSMap.lookup (md5 c) cache0) →
  skipped_world cache0 uploads0 n w →
  skipped_world cache0 uploads0 n (uploadFile_record opts m c url w).2
  ∧ skipped_task cache0 n (x, (uploadFile_record opts m c url w).1).
Proof.
  intros Hm Hurl Hw. unfold uploadFile_record.
  destruct url as [| | | | u | |]; try done.
  destruct (truthy (VStr u) && isString (VStr u)); [| done].
  assert (skipped_world cache0 uploads0 n
            (setMaps (JSMap.set m u (urlMap w))
                     (JSMap.set (md5 c) (VStr u) (urlCacheMap w)) w)) as Hw'.
  { destruct Hw as (Hk & Hu & Hc). split_and!; simpl; try done.
    - rewrite JSMap_keys_set. intros [-> | Hin]; done.
    - intros k Hknown. destruct (decide (md5 c = k)) as [<- | Hne].
      + rewrite JSMap_lookup_set_eq. auto.
      + rewrite JSMap_lookup_set_ne by done. auto. }
  destruct (keepLocal opts); simpl; [done |].
  split; [| done]. apply skipped_emit; [done | done].
Qed.

(** The skipped asset: its lookup finds the unusable value and leaves the
    world as it is. *)
Lemma skipped_blocked m c w :
  unusable (JSMap.lookup (md5 c) cache0) = true →
  skipped_world cache0 uploads0 n w →
  uploadFile_lookup opts m c w = (Fulfilled, w).
Proof.
  intros Hbad (_ & _ & Hc). unfold uploadFile_lookup.
  apply andb_true_iff in Hbad as [Ht Hs]. rewrite (Hc _ Ht), Ht.
  unfold uploadFile_record.
  by destruct (JSMap.lookup (md5 c) cache0).
Qed.

Lemma skipped_lookup x m c w :
  (m = n → unusable (JSMap.lookup (md5 c) cache0) = true) →
  skipped_world cache0 uploads0 n w →
  skipped_world cache0 uploads0 n (uploadFile_lookup opts m c w).2
  ∧ skipped_task cache0 n (x, (uploadFile_lookup opts m c w).1).
Proof.
  intros Hbad Hw. destruct (decide (m = n)) as [-> | Hne].
  { by rewrite skipped_blocked by auto. }
  unfold uploadFile_lookup.
  destruct (truthy (JSMap.lookup (md5 c) (urlCacheMap w))) eqn:Ht.
  - apply skipped_record; [done | | done].
    intros Hknown. destruct Hw as (_ & _ & Hc). auto.
  - simpl. split.
    + apply skipped_emit; [| done]. intros c' x' [= -> _ _]. done.
    + unfold skipped_task. simpl. split; [done |].
      destruct (truthy (JSMap.lookup (md5 c) cache0)) eqn:Hk; [| done].
      destruct Hw as (_ & _ & Hc). by rewrite (Hc _ Hk), Hk in Ht.
Qed.

Lemma skipped_resume x t o w :
  skipped_task cache0 n (x, t) →
  skipped_world cache0 uploads0 n w →
  skipped_world cache0 uploads0 n (resume opts t o w).2
  ∧ skipped_task cache0 n (x, (resume opts t o w).1).
Proof.
  intros Ht Hw. unfold skipped_task in Ht. simpl in Ht.
  destruct t, o; simpl; try done.
  - by apply skipped_lookup.
  - destruct Ht as [Hne Hnew]. apply skipped_record; [done | | done].
    intros Hknown. congruence.
Qed.

Lemma skipped_resumeTask ts w name o :
  skipped_ok cache0 uploads0 p n c0 ts w →
  skipped_ok cache0 uploads0 p n c0 (resumeTask opts name o ts w).1
             (resumeTask opts name o ts w).2.
Proof.
  intros [Hex | [Hw Hts]].
  { left. eapply exposed_continues; [| exact Hex].
    apply continues_resumeTask. }
  right. rewrite resumeTask_spec.
  destruct (JSMap.get name ts) as [t |] eqn:Hget; [| done].
  pose proof (JSMap_get_elem _ _ _ Hget) as Hin.
  assert (skipped_task cache0 n (name, t)) as Ht
    by (by eapply Forall_forall in Hts).
  destruct (skipped_resume name t o w Ht Hw) as [Hw' Ht'].
  split; [done |]. by apply JSMap_set_Forall.
Qed.

(** While a phase starts, the [urlMap] stays the one its contents are
    prepared with. *)
Lemma skipped_launchOne q ts w m :
  ((rank q ≤ 2)%nat → m = n → q = p) →
  preparedFrom q (urlMap w) (trace w) →
  skipped_ok cache0 uploads0 p n c0 ts w →
  skipped_ok cache0 uploads0 p n c0
             (launchOne opts assetMap q (ts, w) m).1
             (launchOne opts assetMap q (ts, w) m).2
  ∧ preparedFrom q (urlMap (launchOne opts assetMap q (ts, w) m).2)
                 (trace (launchOne opts assetMap q (ts, w) m).2).
Proof.
  intros Hq Hprep Hok.
  assert (preparedFrom q (urlMap (launchOne opts assetMap q (ts, w) m).2)
                       (trace (launchOne opts assetMap q (ts, w) m).2))
    as Hprep'.
  { destruct q; try done; unfold launchOne;
      destruct (assetMap !! m); cbv beta iota; try done; simpl in *;
      rewrite !elem_of_app; auto. }
  split; [| exact Hprep'].
  destruct Hok as [Hex | [Hw Hts]].
  { left. eapply exposed_continues; [| exact Hex].
    apply (continues_launchOne opts assetMap q (ts, w) m). }
  unfold launchOne in *.
  destruct (assetMap !! m) as [c |] eqn:Hc; cbv beta iota in *.
  2: { right. split; [done |]. apply Forall_app. split; [done |].
       by apply Forall_singleton. }
  assert (∀ t w', skipped_world cache0 uploads0 n w' →
                  skipped_task cache0 n (m, t) →
                  skipped_ok cache0 uploads0 p n c0 (ts ++ [(m, t)]) w')
    as Hadd.
  { intros t w' Hw' Ht. right. split; [done |]. apply Forall_app.
    split; [done | by apply Forall_singleton]. }
  assert (m = n → c = c0) as Hsame by (intros ->; congruence).
  destruct q.
  - unfold uploadFile in *.
    destruct (unusable (JSMap.lookup (md5 c) cache0)) eqn:Hbad.
    + destruct (skipped_lookup m m c w) as [Hw' Ht']; [done | done |].
      destruct (uploadFile_lookup opts m c w) as [t w']. by apply Hadd.
    + destruct (decide (m = n)) as [Hm | Hm].
      * left. rewrite <- (Hq ltac:(simpl; lia) Hm). exists [].
        split; [done |]. simpl. by rewrite <- (Hsame Hm).
      * destruct (skipped_lookup m m c w) as [Hw' Ht']; [done | done |].
        destruct (uploadFile_lookup opts m c w) as [t w']. by apply Hadd.
  - unfold uploadFile in *. simpl in *.
    destruct (decide (m = n ∧ unusable
                (JSMap.lookup (md5 (Text (replaceCSSUrls m c (urlMap w))))
                   cache0) = false)) as [[Hm Hbad] | Hgood].
    + left. rewrite <- (Hq ltac:(simpl; lia) Hm). exists (urlMap w).
      split; [exact Hprep' |]. simpl. by rewrite <- Hm, <- (Hsame Hm).
    + apply Hadd.
      * apply skipped_emit; [done |]. by apply skipped_emit.
      * unfold skipped_task. simpl. intros Hm.
        destruct (unusable _) eqn:Hbad; [done |]. by destruct Hgood.
  - unfold uploadFile in *. simpl in *.
    destruct (decide (m = n ∧ unusable
                (JSMap.lookup
                   (md5 (Text (injectAssetManifest c
                                 (getManifestJSON (urlMap w) false))))
                   cache0) = false)) as [[Hm Hbad] | Hgood].
    + left. rewrite <- (Hq ltac:(simpl; lia) Hm). exists (urlMap w).
      split; [exact Hprep' |]. simpl. by rewrite <- (Hsame Hm).
    + apply Hadd.
      * apply skipped_emit; [done |]. by apply skipped_emit.
      * unfold skipped_task. simpl. intros Hm.
        destruct (unusable _) eqn:Hbad; [done |]. by destruct Hgood.
  - simpl. apply Hadd; [| done].
    apply skipped_emit; [done |]. by apply skipped_emit.
  - simpl. by apply Hadd.
Qed.

Lemma skipped_launchAll q names acc :
  (∀ m, m ∈ names → (rank q ≤ 2)%nat → m = n → q = p) →
  preparedFrom q (urlMap acc.2) (trace acc.2) →
  skipped_ok cache0 uploads0 p n c0 acc.1 acc.2 →
  skipped_ok cache0 uploads0 p n c0
             (foldl (launchOne opts assetMap q) acc names).1
             (foldl (launchOne opts assetMap q) acc names).2.
Proof.
  revert acc. induction names as [| m names IH]; intros [ts w] Hq Hprep Hok;
    cbn [foldl]; [done |].
  destruct (skipped_launchOne q ts w m) as [Hok' Hprep']; [| done | done |].
  { apply Hq. by left. }
  destruct (launchOne opts assetMap q (ts, w) m) as [ts' w'].
  apply IH; [| done | done]. intros m' Hm'. apply Hq. by right.
Qed.

Lemma skipped_launch q w :
  preparedFrom q (urlMap w) (trace w) →
  exposed cache0 p n c0 (trace w) ∨ skipped_world cache0 uploads0 n w →
  skipped_ok cache0 uploads0 p n c0 (launch opts assetMap cls q w).1
             (launch opts assetMap cls q w).2.
Proof.
  intros Hprep Hw.
  assert (skipped_ok cache0 uploads0 p n c0 [] w) as Hnil.
  { destruct Hw as [Hex | Hw]; [by left | by right]. }
  destruct q; simpl.
  - apply (skipped_launchAll PResource _ ([], w)); [| done | done].
    intros m Hm _ ->. by apply one_phase.
  - apply (skipped_launchAll PStyle _ ([], w)); [| done | done].
    intros m Hm _ ->. by apply one_phase.
  - apply (skipped_launchAll PEntry _ ([], w)); [| done | done].
    intros m Hm _ ->. by apply one_phase.
  - apply (skipped_launchAll PDocument _ ([], w)); [| done | done].
    simpl. lia.
  - pose proof (continues_launch opts assetMap cls PManifest w) as Hcont.
    simpl in Hcont.
    destruct Hw as [Hex | Hw].
    { left. eapply exposed_continues; [exact Hcont | exact Hex]. }
    right.
    destruct (manifestFilename opts) as [| [|] | name]; simpl; try done.
    + split; [by apply skipped_emit |]. by apply Forall_singleton.
    + case_bool_decide; simpl; [done |].
      split; [by apply skipped_emit |]. by apply Forall_singleton.
Qed.

Lemma skipped_cycle sched w :
  skipped_world cache0 uploads0 n w →
  holds (fun _ => skipped_ok cache0 uploads0 p n c0)
        (cycle opts assetMap cls sched w).
Proof.
  intros Hw. apply cycle_holds.
  - intros q ts w' name o. apply skipped_resumeTask.
  - intros q q' queue ts w' Hq Hok _. apply skipped_launch.
    + destruct q; simplify_eq/=; try done; rewrite elem_of_app; right;
        by apply list_elem_of_singleton.
    + destruct Hok as [Hex | [Hw' _]].
      * left. eapply exposed_continues; [| exact Hex].
        by apply continues_emit.
      * right. by apply skipped_emit.
  - intros ts w' [Hex | [Hw' Hts]] _.
    + left. eapply exposed_continues; [| exact Hex]. by apply continues_emit.
    + right. split; [by apply skipped_emit | done].
  - apply skipped_launch; [done | by right].
Qed.

End Skipped.

(** A cache entry that is truthy but not a string silently takes its assets
    out of the publication.  When every content that the phase of an asset
    prepares for it in the cycle (the collected content of a resource; for a
    style or an entry script the rewriting with the [urlMap] with which the
    phase before ended) has a fingerprint for which the cache held such a
    value at the start, the asset gets no location and [uploadContent] is
    never called for it, whatever the schedule. *)
Theorem unusable_cache_entry_skips_the_asset `{Host} (opts : options)
    (assetMap : gmap string content) (st : stats)
    (sched : list (string * outcome)) (w : world) (p : phase) (n : string)
    (c0 : content) :
  n ∈ uploadNames (classify st) p →
  assetMap !! n = Some c0 →
  (∀ um,
     preparedFrom p um
       (trace (cworld (cycle opts assetMap (classify st) sched w))) →
     unusable (JSMap.lookup (md5 (preparedWith p n c0 um)) (urlCacheMap w))
     = true) →
  n ∉ JSMap.keys (urlMap w) →
  n ∉ JSMap.keys
        (urlMap (cworld (cycle opts assetMap (classify st) sched w)))
  ∧ uploadsOf n (trace (cworld (cycle opts assetMap (classify st) sched w)))
    = uploadsOf n (trace w).
Proof.
  intros Hn Hc0 Hbad Hfresh.
  destruct (skipped_cycle opts assetMap (classify st) (urlCacheMap w)
              (uploadsOf n (trace w)) p n c0 Hc0) with
    (sched := sched) (w := w) as ([Hex | [(Hk & Hu & _) _]] & _).
  - intros q Hq. by apply (classify_uploadNames_disjoint st q p n).
  - by split_and!.
  - destruct Hex as (um & Hum & Hgood). by rewrite (Hbad um Hum) in Hgood.
  - done.
Qed.

Lemma unusable_cache_entry_witness :
  "main.js" ∉ JSMap.keys (urlMap staleWorld)
  ∧ (∀ um,
       preparedFrom PEntry um
         (trace (cworld (cycle (H := exampleHost) siteOptions siteAssets
                           (classify siteStats) siteSchedule staleWorld))) →
       unusable (JSMap.lookup
                   (md5 (Host := exampleHost)
                      (preparedWith (H := exampleHost) PEntry "main.js"
                         (Text "run()") um))
                   (urlCacheMap staleWorld)) = true)
  ∧ "main.js" ∉ JSMap.keys
       (urlMap (cworld (cycle (H := exampleHost) siteOptions siteAssets
                          (classify siteStats) siteSchedule staleWorld)))
  ∧ uploadsOf "main.js"
      (trace (cworld (cycle (H := exampleHost) siteOptions siteAssets
                        (classify siteStats) siteSchedule staleWorld)))
    = uploadsOf "main.js" (trace staleWorld).
Proof.
  assert ("main.js" ∉ JSMap.keys (urlMap staleWorld)) as Hfresh.
  { vm_compute. apply not_elem_of_nil. }
  assert (∀ um,
       preparedFrom PEntry um
         (trace (cworld (cycle (H := exampleHost) siteOptions siteAssets
                           (classify siteStats) siteSchedule staleWorld))) →
       unusable (JSMap.lookup
                   (md5 (Host := exampleHost)
                      (preparedWith (H := exampleHost) PEntry "main.js"
                         (Text "run()") um))
                   (urlCacheMap staleWorld)) = true) as Hbad.
  { intros um Hum. unfold preparedFrom in Hum.
    assert (um = [("logo.png", "https://cdn/logo.png");
                  ("app.css", "https://cdn/app.css")]) as ->; [| reflexivity].
    vm_compute in Hum.
    repeat (apply elem_of_cons in Hum as [Hum | Hum];
            [by (discriminate Hum || injection Hum as ->) |]).
    by apply elem_of_nil in Hum. }
  split; [exact Hfresh |]. split; [exact Hbad |].
  apply (unusable_cache_entry_skips_the_asset (H := exampleHost) siteOptions
           siteAssets siteStats siteSchedule staleWorld PEntry "main.js"
           (Text "run()")).
  - vm_compute. apply list_elem_of_here.
  - reflexivity.
  - exact Hbad.
  - exact Hfresh.
Defined.

(** ** Scenarios *)

Example classify_site :
  classify siteStats
  = {| epNames := ["main.js"]; styleNames := ["app.css"];
       htmlNames := ["index.html"]; resourceNames := ["logo.png"] |}.
Proof. reflexivity. Qed.

(** A build that finds the fingerprint of its logo in the cache file reuses
    the location and calls [uploadContent] for nothing. *)
Example cached_build_uploads_nothing :
  ∃ c, published_config (startBuild (H := exampleHost) plainOptions cachedBuild)
       = Some c
     ∧ cstatus c = Completed
     ∧ urlMap (cworld c) = [("logo.png", "https://cdn/logo.png")]
     ∧ uploadCalls (H := exampleHost) "md5:PNG" (trace (cworld c)) = 0%nat
     ∧ files (cworld c) !! "logo.png" = Some (Buffer "PNG").
Proof. eexists. split; [reflexivity |]. split_and!; reflexivity. Qed.

(** With [keepLocalFiles: false] the same build deletes the logo although
    nothing was uploaded. *)
Example cached_build_deletes_without_upload :
  ∃ c, published_config
         (startBuild (H := exampleHost) cleaningOptions cachedBuild) = Some c
     ∧ ctasks c = [("logo.png", AwaitUnlink "logo.png")]
     ∧ trace (cworld c) = [EUnlink "logo.png"]
     ∧ files (cworld (step (H := exampleHost) cleaningOptions
                        (list_to_map (compilationAssets cachedBuild))
                        (classify (buildStats cachedBuild)) c
                        ("logo.png", Resolve VUndefined)))
       !! "logo.png" = None.
Proof. eexists. split; [reflexivity |]. split_and!; reflexivity. Qed.

Example development_build_is_inactive :
  startBuild (H := exampleHost) plainOptions developmentBuild = Inactive.
Proof. reflexivity. Qed.

(** With [keepLocalFiles: false] every published file of the site is
    deleted, the document is rewritten in place, and the manifest file holds
    the formatted manifest. *)
Example site_is_published :
  cstatus siteCycle = Completed
  ∧ urlMap (cworld siteCycle)
    = [("logo.png", "https://cdn/logo.png"); ("app.css", "https://cdn/app.css");
       ("main.js", "https://cdn/main.js")]
  ∧ files (cworld siteCycle) !! "logo.png" = None
  ∧ files (cworld siteCycle) !! "app.css" = None
  ∧ files (cworld siteCycle) !! "main.js" = None
  ∧ files (cworld siteCycle) !! "main.js.map" = Some (Text "{}")
  ∧ files (cworld siteCycle) !! "manifest.json"
    = Some (Text (getManifestJSON (H := exampleHost) (urlMap (cworld siteCycle))
                    true)).
Proof. split_and!; vm_compute; reflexivity. Qed.

(** A resource for which [uploadContent] answers [null] stays where it is. *)
Example unpublished_resource_is_kept :
  let c := cycle (H := exampleHost)
             {| keepLocalFiles := Some false; manifestFilename := MfUnset |}
             twinAssets twinClasses
             [("a.png", Resolve VNull); ("b.png", Resolve VUndefined)]
             twinWorld in
  cstatus c = Completed
  ∧ urlMap (cworld c) = []
  ∧ urlCacheMap (cworld c) = []
  ∧ files (cworld c) = twinAssets.
Proof. split_and!; vm_compute; reflexivity. Qed.

Example JSON_parse_rejects :
  JSON_parse "" = None ∧ JSON_parse "[1,]" = None ∧ JSON_parse "01" = None
  ∧ JSON_parse "{} x" = None ∧ JSON_parse "nul" = None.
Proof. split_and!; reflexivity. Qed.

Example JSON_parse_accepts :
  JSON_parse " [1.5e2, true, null, {}] "
  = Some (VArr [VNum 15 1; VBool true; VNull; VObj []])
  ∧ ∃ text, cacheFile cachedBuild = Some (inr text)
            ∧ JSON_parse text
              = Some (VObj [("md5:PNG", VStr "https://cdn/logo.png")]).
Proof. split; [reflexivity |]. eexists. split; reflexivity. Qed.
